(** * dtle: SQL statement builder and task worker

    A shallow embedding of

      - [internal/client/driver/mysql/sql/builder.go] (module [Builder]):
        the functions that build parameterised range predicates, chunked
        range queries and the DML update statement;
      - [internal/client/worker.go] (module [Client]): the task worker, its
        latches, its snapshot, the kill loop, the statistics collector and
        the run loop.

    Go values are modelled as follows.  A [string] is a [string]; a slice
    is a [list]; a pointer that may be [nil] is an [option]; an [error] is
    its message; several results are a tuple in the order of the source.
    An index out of range, a [nil] dereference and a second [close] of a
    channel panic in Go: they are outcomes of the model.

    The file has three parts: the embedding of the two sources, the
    definitions in which the properties are stated ([BuilderSpec],
    [ClientSpec], [Examples]), and the properties with their proofs
    ([BuilderFacts], [ClientFacts]). *)

From Stdlib Require Import ZArith Lia Ascii String DecimalString.
From stdpp Require Import base option list gmap strings.

Local Open Scope string_scope.
Local Open Scope list_scope.

(** ** Go values shared by both packages *)

(** A Go [error] value, by its message ([err.Error()]). *)
Definition error : Type := string.

(** The outcome of a Go function body that may panic instead of returning. *)
Inductive Exec (A : Type) : Type :=
| Returns (a : A)
| Panics (msg : string).
Arguments Returns {A} a.
Arguments Panics {A} msg.

Definition exec_bind {A B} (m : Exec A) (k : A -> Exec B) : Exec B :=
  match m with
  | Returns a => k a
  | Panics msg => Panics msg
  end.

Notation "'do' x <- m ; k" := (exec_bind m (fun x => k))
  (at level 10, x name, m at level 100, k at level 200,
   format "'[v' 'do'  x  <-  m ; '/' k ']'").

(** [l[i]] on a slice: panics when [i] is out of range. *)
Definition index {A} (l : list A) (i : nat) : Exec A :=
  match l !! i with
  | Some x => Returns x
  | None => Panics "index out of range"
  end.

(** [strings.Join]. *)
Fixpoint Join (elems : list string) (sep : string) : string :=
  match elems with
  | [] => ""
  | [x] => x
  | x :: rest => x +:+ sep +:+ Join rest sep
  end.

(** The verbs [%d] of [fmt]: decimal rendering of an integer. *)
Definition fmt_int (z : Z) : string := NilEmpty.string_of_int (Z.to_int z).
Definition fmt_len {A} (l : list A) : string := fmt_int (Z.of_nat (length l)).

(** [strings.Contains]. *)
Fixpoint has_prefix (p s : string) : bool :=
  match p, s with
  | EmptyString, _ => true
  | String a p', String b s' => if Ascii.eqb a b then has_prefix p' s' else false
  | String _ _, EmptyString => false
  end.

Fixpoint Contains (s substr : string) : bool :=
  if has_prefix substr s then true
  else match s with
       | EmptyString => false
       | String _ s' => Contains s' substr
       end.

(** [strconv.Unquote] belongs to Go's standard library; the builder only
    asks whether it succeeds, and uses its result when it does. *)
Class Strconv := { Unquote : string -> option string }.

Module Builder.

(** *** The types of [udup/internal/config/mysql] used by the builder *)

(** Modelled from the spec: the column types of the package
    [internal/config/mysql] are not among the sources.  The builder reads a
    column's name, whether its type is the enum type, and its optional
    timezone conversion; a column list offers [Len], [Names], [ColumnList],
    the public map [Ordinals] from column name to position, and
    [IsSubsetOf], which looks every name up in the other list's map. *)
Inductive ColumnType : Type :=
| EnumColumnType
| OtherColumnType (tag : nat).

Record Conversion : Type := { ToTimezone : string }.

Record Column : Type := {
  Name : string;
  Type_ : ColumnType;
  TimezoneConversion : option Conversion
}.

Record ColumnList : Type := {
  columns : list Column;
  Ordinals : gmap string nat
}.

Definition Len (cl : ColumnList) : nat := length (columns cl).
Definition Names (cl : ColumnList) : list string := map Name (columns cl).

Definition IsSubsetOf (this other : ColumnList) : bool :=
  forallb (fun c => bool_decide (is_Some (Ordinals other !! Name c))) (columns this).

(** A Go map read: the zero value when the key is absent. *)
Definition ordinal (cl : ColumnList) (name : string) : nat :=
  default 0 (Ordinals cl !! name).

(** [Column.ConvertArg] is a method of the absent package; [Arg] stands for
    [interface{}]. *)
Class ArgConv (Arg : Type) := { ConvertArg : Column -> Arg -> Arg }.

Definition is_enum (t : ColumnType) : bool :=
  match t with EnumColumnType => true | OtherColumnType _ => false end.

(** *** Comparison signs *)

(** [ValueComparisonSign] is a string type. *)
Definition ValueComparisonSign : Type := string.
Definition LessThanComparisonSign : ValueComparisonSign := "<".
Definition LessThanOrEqualsComparisonSign : ValueComparisonSign := "<=".
Definition EqualsComparisonSign : ValueComparisonSign := "=".
Definition GreaterThanOrEqualsComparisonSign : ValueComparisonSign := ">=".
Definition GreaterThanComparisonSign : ValueComparisonSign := ">".
Definition NotEqualsComparisonSign : ValueComparisonSign := "!=".

(** *** Escaping and prepared values *)

Definition EscapeName `{Strconv} (name : string) : string :=
  let name := match Unquote name with Some unquoted => unquoted | None => name end in
  "`" +:+ name +:+ "`".

Definition buildColumnsPreparedValues (cl : ColumnList) : list string :=
  map (fun column =>
         match TimezoneConversion column with
         | Some tz => "convert_tz(?, '" +:+ ToTimezone tz +:+ "', '" +:+ "+00:00" +:+ "')"
         | None => "?"
         end) (columns cl).

Definition buildPreparedValues (length : nat) : list string := replicate length "?".

Definition duplicateNames (names : list string) : list string := names.

(** *** Comparisons *)

Definition BuildValueComparison `{Strconv} (column value : string)
    (comparisonSign : ValueComparisonSign) : string * option error :=
  if String.eqb column "" then ("", Some "Empty column in GetValueComparison")
  else if String.eqb value "" then ("", Some "Empty value in GetValueComparison")
  else ("(" +:+ EscapeName column +:+ " " +:+ comparisonSign +:+ " " +:+ value +:+ ")", None).

(** The loop of [BuildEqualsComparison]: [i] is the position of the head of
    [rest] in [columns]. *)
Fixpoint equals_loop `{Strconv} (values : list string) (rest : list string) (i : nat)
    (comparisons : list string) : Exec (list string * option error) :=
  match rest with
  | [] => Returns (comparisons, None)
  | column :: rest' =>
      do value <- index values i;
      match BuildValueComparison column value EqualsComparisonSign with
      | (_, Some err) => Returns ([], Some err)
      | (comparison, None) =>
          equals_loop values rest' (S i) (comparisons ++ [comparison])
      end
  end.

Definition BuildEqualsComparison `{Strconv} (columns values : list string)
    : Exec (string * option error) :=
  if decide (length columns = 0) then
    Returns ("", Some "Got 0 columns in GetEqualsComparison")
  else if decide (length columns ≠ length values) then
    Returns ("", Some ("Got " +:+ fmt_len columns +:+ " columns but " +:+ fmt_len values
                       +:+ " values in GetEqualsComparison"))
  else
    do r <- equals_loop values columns 0 [];
    match r with
    | (_, Some err) => Returns ("", Some err)
    | (comparisons, None) =>
        let result := Join comparisons " and " in
        Returns ("(" +:+ result +:+ ")", None)
    end.

Definition BuildEqualsPreparedComparison `{Strconv} (columns : list string)
    : Exec (string * option error) :=
  let values := buildPreparedValues (length columns) in
  BuildEqualsComparison columns values.

Definition BuildSetPreparedClause `{Strconv} (cl : ColumnList) : string * option error :=
  if decide (Len cl = 0) then ("", Some "Got 0 columns in BuildSetPreparedClause")
  else
    let setTokens :=
      map (fun column =>
             match TimezoneConversion column with
             | Some tz => EscapeName (Name column) +:+ "=convert_tz(?, '" +:+ ToTimezone tz
                          +:+ "', '" +:+ "+00:00" +:+ "')"
             | None => EscapeName (Name column) +:+ "=?"
             end) (columns cl) in
    (Join setTokens ", ", None).

Section RangeComparison.
Context `{Strconv} {Arg : Type}.

  (** The loop of [BuildRangeComparison] over [columns]; [rest] is what is
      left of [columns] from position [i] on.  The result carries the
      comparisons, the exploded arguments and the error of an early
      return. *)
Fixpoint range_loop (columns values : list string) (args : list Arg)
      (comparisonSign : ValueComparisonSign) (rest : list string) (i : nat)
      (comparisons : list string) (explodedArgs : list Arg)
      : Exec (list string * list Arg * option error) :=
    match rest with
    | [] => Returns (comparisons, explodedArgs, None)
    | column :: rest' =>
        do value <- index values i;
        match BuildValueComparison column value comparisonSign with
        | (_, Some err) => Returns ([], explodedArgs, Some err)
        | (rangeComparison, None) =>
            if decide (0 < length (take i columns)) then
              do eq <- BuildEqualsComparison (take i columns) (take i values);
              match eq with
              | (_, Some err) => Returns ([], explodedArgs, Some err)
              | (equalitiesComparison, None) =>
                  let comparison :=
                    "(" +:+ equalitiesComparison +:+ " AND " +:+ rangeComparison +:+ ")" in
                  do a <- index args i;
                  range_loop columns values args comparisonSign rest' (S i)
                    (comparisons ++ [comparison])
                    ((explodedArgs ++ take i args) ++ [a])
              end
            else
              do a <- index args i;
              range_loop columns values args comparisonSign rest' (S i)
                (comparisons ++ [rangeComparison]) (explodedArgs ++ [a])
        end
    end.

Definition BuildRangeComparison (columns values : list string) (args : list Arg)
      (comparisonSign : ValueComparisonSign) : Exec (string * list Arg * option error) :=
    if decide (length columns = 0) then
      Returns ("", [], Some "Got 0 columns in GetRangeComparison")
    else if decide (length columns ≠ length values) then
      Returns ("", [], Some ("Got " +:+ fmt_len columns +:+ " columns but " +:+ fmt_len values
                             +:+ " values in GetEqualsComparison"))
    else if decide (length columns ≠ length args) then
      Returns ("", [], Some ("Got " +:+ fmt_len columns +:+ " columns but " +:+ fmt_len args
                             +:+ " args in GetEqualsComparison"))
    else
      let includeEquals := false in
      let '(comparisonSign, includeEquals) :=
        if String.eqb comparisonSign LessThanOrEqualsComparisonSign
        then (LessThanComparisonSign, true) else (comparisonSign, includeEquals) in
      let '(comparisonSign, includeEquals) :=
        if String.eqb comparisonSign GreaterThanOrEqualsComparisonSign
        then (GreaterThanComparisonSign, true) else (comparisonSign, includeEquals) in
      do r <- range_loop columns values args comparisonSign columns 0 [] [];
      match r with
      | (_, explodedArgs, Some err) => Returns ("", explodedArgs, Some err)
      | (comparisons, explodedArgs, None) =>
          if includeEquals then
            do eq <- BuildEqualsComparison columns values;
            match eq with
            | (_, Some _) => Returns ("", explodedArgs, None)
            | (comparison, None) =>
                let comparisons := comparisons ++ [comparison] in
                let explodedArgs := explodedArgs ++ args in
                let result := Join comparisons " or " in
                Returns ("(" +:+ result +:+ ")", explodedArgs, None)
            end
          else
            let result := Join comparisons " or " in
            Returns ("(" +:+ result +:+ ")", explodedArgs, None)
      end.

Definition BuildRangePreparedComparison (cl : ColumnList) (args : list Arg)
      (comparisonSign : ValueComparisonSign) : Exec (string * list Arg * option error) :=
    let values := buildColumnsPreparedValues cl in
    BuildRangeComparison (Names cl) values args comparisonSign.

End RangeComparison.

(** *** Range queries *)

Definition nl : string := String "010"%char EmptyString.
Definition tab : string := String "009"%char EmptyString.

Section RangeQueries.
Context `{Strconv} {Arg : Type}.

Definition BuildRangeInsertQuery (databaseName originalTableName ghostTableName : string)
    (sharedColumns mappedSharedColumns : list string) (uniqueKey : string)
    (uniqueKeyColumns : ColumnList) (rangeStartValues rangeEndValues : list string)
    (rangeStartArgs rangeEndArgs : list Arg) (includeRangeStartValues : bool)
    (transactionalTable : bool) : Exec (string * list Arg * option error) :=
  let explodedArgs : list Arg := [] in
  if decide (length sharedColumns = 0) then
    Returns ("", explodedArgs, Some "Got 0 shared columns in BuildRangeInsertQuery")
  else
    let databaseName := EscapeName databaseName in
    let originalTableName := EscapeName originalTableName in
    let ghostTableName := EscapeName ghostTableName in
    let mappedSharedColumns := map EscapeName (duplicateNames mappedSharedColumns) in
    let mappedSharedColumnsListing := Join mappedSharedColumns ", " in
    let sharedColumns := map EscapeName (duplicateNames sharedColumns) in
    let sharedColumnsListing := Join sharedColumns ", " in
    let uniqueKey := EscapeName uniqueKey in
    let minRangeComparisonSign :=
      if includeRangeStartValues then GreaterThanOrEqualsComparisonSign
      else GreaterThanComparisonSign in
    do r1 <- BuildRangeComparison (Names uniqueKeyColumns) rangeStartValues rangeStartArgs
               minRangeComparisonSign;
    match r1 with
    | (_, _, Some err) => Returns ("", explodedArgs, Some err)
    | (rangeStartComparison, rangeExplodedArgs, None) =>
        let explodedArgs := explodedArgs ++ rangeExplodedArgs in
        do r2 <- BuildRangeComparison (Names uniqueKeyColumns) rangeEndValues rangeEndArgs
                   LessThanOrEqualsComparisonSign;
        match r2 with
        | (_, _, Some err) => Returns ("", explodedArgs, Some err)
        | (rangeEndComparison, rangeExplodedArgs, None) =>
            let explodedArgs := explodedArgs ++ rangeExplodedArgs in
            let transactionalClause :=
              if transactionalTable then "lock in share mode" else "" in
            let result :=
              nl +:+ "      insert ignore into " +:+ databaseName +:+ "." +:+ ghostTableName
                 +:+ " (" +:+ mappedSharedColumnsListing +:+ ")"
              +:+ nl +:+ "      (select " +:+ sharedColumnsListing +:+ " from " +:+ databaseName
                 +:+ "." +:+ originalTableName +:+ " force index (" +:+ uniqueKey +:+ ")"
              +:+ nl +:+ "        where (" +:+ rangeStartComparison +:+ " and "
                 +:+ rangeEndComparison +:+ ") " +:+ transactionalClause
              +:+ nl +:+ "      )"
              +:+ nl +:+ "    " in
            Returns (result, explodedArgs, None)
        end
    end.

(** The ordering terms computed by the loop over [uniqueKeyColumns]. *)
Definition uniqueKeyColumnOrder (uniqueKeyColumns : ColumnList) (order : string)
    : list string :=
  map (fun column =>
         if is_enum (Type_ column)
         then "concat(" +:+ EscapeName (Name column) +:+ ") " +:+ order
         else EscapeName (Name column) +:+ " " +:+ order) (columns uniqueKeyColumns).

Definition BuildRangeSelectQuery (databaseName originalTableName ghostTableName : string)
    (sharedColumns mappedSharedColumns : list string) (uniqueKey : string)
    (uniqueKeyColumns : ColumnList) (rangeStartValues rangeEndValues : list string)
    (rangeStartArgs rangeEndArgs : list Arg) (includeRangeStartValues : bool)
    (chunkSize : Z) : Exec (string * list Arg * option error) :=
  let explodedArgs : list Arg := [] in
  if decide (length sharedColumns = 0) then
    Returns ("", explodedArgs, Some "Got 0 shared columns in BuildRangeSelectQuery")
  else
    let databaseName := EscapeName databaseName in
    let originalTableName := EscapeName originalTableName in
    let ghostTableName := EscapeName ghostTableName in
    let sharedColumns := map EscapeName (duplicateNames sharedColumns) in
    let sharedColumnsListing := Join sharedColumns ", " in
    let uniqueKey := EscapeName uniqueKey in
    do r <- BuildRangeComparison (Names uniqueKeyColumns) rangeEndValues rangeEndArgs
              LessThanOrEqualsComparisonSign;
    match r with
    | (_, _, Some err) => Returns ("", explodedArgs, Some err)
    | (rangeEndComparison, rangeExplodedArgs, None) =>
        let explodedArgs := explodedArgs ++ rangeExplodedArgs in
        let uniqueKeyColumnAscending := uniqueKeyColumnOrder uniqueKeyColumns "asc" in
        let uniqueKeyColumnDescending := uniqueKeyColumnOrder uniqueKeyColumns "desc" in
        let result :=
          nl +:+ tab +:+ "select " +:+ sharedColumnsListing
          +:+ nl +:+ tab +:+ tab +:+ "from"
          +:+ nl +:+ tab +:+ tab +:+ tab +:+ databaseName +:+ "." +:+ originalTableName
          +:+ nl +:+ tab +:+ tab +:+ "force index (" +:+ uniqueKey +:+ ")"
          +:+ nl +:+ tab +:+ tab +:+ "where (" +:+ rangeEndComparison +:+ ")"
          +:+ nl +:+ tab +:+ tab +:+ "order by"
          +:+ nl +:+ tab +:+ tab +:+ tab +:+ Join uniqueKeyColumnAscending ", "
          +:+ nl +:+ tab +:+ tab +:+ "limit " +:+ fmt_int chunkSize
          +:+ nl +:+ "    " in
        Returns (result, explodedArgs, None)
    end.

End RangeQueries.

(** *** The DML update statement *)

Section DML.
Context `{Strconv} {Arg : Type} `{ArgConv Arg}.

Fixpoint exec_map {A B} (f : A -> Exec B) (l : list A) : Exec (list B) :=
  match l with
  | [] => Returns []
  | x :: l' => do y <- f x; do ys <- exec_map f l'; Returns (y :: ys)
  end.

(** One pass [for _, column := range cols.ColumnList()] that converts the
    value found at the column's ordinal in [tableColumns]. *)
Definition convert_args (tableColumns cols : ColumnList) (values : list Arg)
    : Exec (list Arg) :=
  exec_map (fun column =>
              let tableOrdinal := ordinal tableColumns (Name column) in
              do v <- index values tableOrdinal;
              Returns (ConvertArg column v)) (columns cols).

Definition BuildDMLUpdateQuery (databaseName tableName : string)
    (tableColumns sharedColumns mappedSharedColumns : ColumnList)
    (columnValues : list (list Arg)) (whereArgs : list Arg)
    : Exec (string * list Arg * list Arg * option error) :=
  if negb (forallb (fun valueArgs => bool_decide (length valueArgs = Len tableColumns))
             columnValues) then
    Returns ("", [], [],
             Some "value args count differs from table column count in BuildDMLUpdateQuery")
  else if decide (length whereArgs ≠ Len tableColumns) then
    Returns ("", [], [],
             Some "where args count differs from table column count in BuildDMLUpdateQuery")
  else if negb (IsSubsetOf sharedColumns tableColumns) then
    Returns ("", [], [],
             Some "shared columns is not a subset of table columns in BuildDMLUpdateQuery")
  else if decide (Len sharedColumns = 0) then
    Returns ("", [], [], Some "No shared columns found in BuildDMLUpdateQuery")
  else
    let databaseName := EscapeName databaseName in
    let tableName := EscapeName tableName in
    do rows <- exec_map (convert_args tableColumns sharedColumns) columnValues;
    let sharedArgs := concat rows in
    do uniqueKeyArgs <- convert_args tableColumns tableColumns whereArgs;
    let '(setClause, err) := BuildSetPreparedClause mappedSharedColumns in
    do eq <- BuildEqualsPreparedComparison (Names tableColumns);
    let '(equalsComparison, err) := eq in
    let result :=
      nl +:+ " " +:+ tab +:+ tab +:+ tab +:+ "update"
      +:+ nl +:+ " " +:+ tab +:+ tab +:+ tab +:+ tab +:+ tab +:+ databaseName +:+ "." +:+ tableName
      +:+ nl +:+ tab +:+ tab +:+ tab +:+ tab +:+ "set"
      +:+ nl +:+ tab +:+ tab +:+ tab +:+ tab +:+ tab +:+ setClause
      +:+ nl +:+ tab +:+ tab +:+ tab +:+ tab +:+ "where"
      +:+ nl +:+ " " +:+ tab +:+ tab +:+ tab +:+ tab +:+ tab +:+ equalsComparison
      +:+ nl +:+ " " +:+ tab +:+ tab in
    Returns (result, sharedArgs, uniqueKeyArgs, None).

End DML.

(** *** Prepared range queries and the queries on the unique key *)

(** [n] tab characters, for the raw string literals of the source. *)
Fixpoint tabs (n : nat) : string :=
  match n with
  | 0 => ""
  | S n' => tab +:+ tabs n'
  end.

Section PreparedQueries.
Context `{Strconv} {Arg : Type}.

Definition BuildRangeInsertPreparedQuery
    (databaseName originalTableName ghostTableName : string)
    (sharedColumns mappedSharedColumns : list string) (uniqueKey : string)
    (uniqueKeyColumns : ColumnList) (rangeStartArgs rangeEndArgs : list Arg)
    (includeRangeStartValues : bool) (transactionalTable : bool)
    : Exec (string * list Arg * option error) :=
  let rangeStartValues := buildColumnsPreparedValues uniqueKeyColumns in
  let rangeEndValues := buildColumnsPreparedValues uniqueKeyColumns in
  BuildRangeInsertQuery databaseName originalTableName ghostTableName sharedColumns
    mappedSharedColumns uniqueKey uniqueKeyColumns rangeStartValues rangeEndValues
    rangeStartArgs rangeEndArgs includeRangeStartValues transactionalTable.

Definition BuildRangeSelectPreparedQuery
    (databaseName originalTableName ghostTableName : string)
    (sharedColumns mappedSharedColumns : list string) (uniqueKey : string)
    (uniqueKeyColumns : ColumnList) (rangeStartArgs rangeEndArgs : list Arg)
    (includeRangeStartValues : bool) (chunkSize : Z)
    : Exec (string * list Arg * option error) :=
  let rangeStartValues := buildColumnsPreparedValues uniqueKeyColumns in
  let rangeEndValues := buildColumnsPreparedValues uniqueKeyColumns in
  BuildRangeSelectQuery databaseName originalTableName ghostTableName sharedColumns
    mappedSharedColumns uniqueKey uniqueKeyColumns rangeStartValues rangeEndValues
    rangeStartArgs rangeEndArgs includeRangeStartValues chunkSize.

Definition BuildUniqueKeyRangeEndPreparedQuery (databaseName tableName : string)
    (uniqueKeyColumns : ColumnList) (rangeStartArgs rangeEndArgs : list Arg)
    (chunkSize : Z) (includeRangeStartValues : bool) (hint : string)
    : Exec (string * list Arg * option error) :=
  let explodedArgs : list Arg := [] in
  if decide (Len uniqueKeyColumns = 0) then
    Returns ("", explodedArgs,
             Some "Got 0 columns in BuildUniqueKeyRangeEndPreparedQuery")
  else
    let databaseName := EscapeName databaseName in
    let tableName := EscapeName tableName in
    let startRangeComparisonSign :=
      if includeRangeStartValues then GreaterThanOrEqualsComparisonSign
      else GreaterThanComparisonSign in
    do r1 <- BuildRangePreparedComparison uniqueKeyColumns rangeStartArgs
               startRangeComparisonSign;
    match r1 with
    | (_, _, Some err) => Returns ("", explodedArgs, Some err)
    | (rangeStartComparison, rangeExplodedArgs, None) =>
        let explodedArgs := explodedArgs ++ rangeExplodedArgs in
        do r2 <- BuildRangePreparedComparison uniqueKeyColumns rangeEndArgs
                   LessThanOrEqualsComparisonSign;
        match r2 with
        | (_, _, Some err) => Returns ("", explodedArgs, Some err)
        | (rangeEndComparison, rangeExplodedArgs, None) =>
            let explodedArgs := explodedArgs ++ rangeExplodedArgs in
            let uniqueKeyColumnNames :=
              map EscapeName (duplicateNames (Names uniqueKeyColumns)) in
            let uniqueKeyColumnAscending := uniqueKeyColumnOrder uniqueKeyColumns "asc" in
            let uniqueKeyColumnDescending := uniqueKeyColumnOrder uniqueKeyColumns "desc" in
            let result :=
              nl +:+ "      select " +:+ Join uniqueKeyColumnNames ", "
              +:+ nl +:+ tabs 4 +:+ "from ("
              +:+ nl +:+ tabs 5 +:+ "select"
              +:+ nl +:+ tabs 7 +:+ Join uniqueKeyColumnNames ", "
              +:+ nl +:+ tabs 6 +:+ "from"
              +:+ nl +:+ tabs 7 +:+ databaseName +:+ "." +:+ tableName
              +:+ nl +:+ tabs 6 +:+ "where " +:+ rangeStartComparison +:+ " and "
                 +:+ rangeEndComparison
              +:+ nl +:+ tabs 6 +:+ "order by"
              +:+ nl +:+ tabs 7 +:+ Join uniqueKeyColumnAscending ", "
              +:+ nl +:+ tabs 6 +:+ "limit " +:+ fmt_int chunkSize
              +:+ nl +:+ tabs 4 +:+ ") select_osc_chunk"
              +:+ nl +:+ tabs 3 +:+ "order by"
              +:+ nl +:+ tabs 4 +:+ Join uniqueKeyColumnDescending ", "
              +:+ nl +:+ tabs 3 +:+ "limit 1"
              +:+ nl +:+ "    " in
            Returns (result, explodedArgs, None)
        end
    end.

Definition buildUniqueKeyMinMaxValuesPreparedQuery (databaseName tableName : string)
    (uniqueKeyColumns : ColumnList) (order : string) : string * option error :=
  if decide (Len uniqueKeyColumns = 0) then
    ("", Some "Got 0 columns in BuildUniqueKeyMinMaxValuesPreparedQuery")
  else
    let databaseName := EscapeName databaseName in
    let tableName := EscapeName tableName in
    let uniqueKeyColumnNames :=
      map EscapeName (duplicateNames (Names uniqueKeyColumns)) in
    let uniqueKeyColumnOrder := uniqueKeyColumnOrder uniqueKeyColumns order in
    let query :=
      nl +:+ "      select " +:+ Join uniqueKeyColumnNames ", "
      +:+ nl +:+ tabs 4 +:+ "from"
      +:+ nl +:+ tabs 5 +:+ databaseName +:+ "." +:+ tableName
      +:+ nl +:+ tabs 4 +:+ "order by"
      +:+ nl +:+ tabs 5 +:+ Join uniqueKeyColumnOrder ", "
      +:+ nl +:+ tabs 4 +:+ "limit 1"
      +:+ nl +:+ "    " in
    (query, None).

Definition BuildUniqueKeyMinValuesPreparedQuery (databaseName tableName : string)
    (uniqueKeyColumns : ColumnList) : string * option error :=
  buildUniqueKeyMinMaxValuesPreparedQuery databaseName tableName uniqueKeyColumns "asc".

Definition BuildUniqueKeyMaxValuesPreparedQuery (databaseName tableName : string)
    (uniqueKeyColumns : ColumnList) : string * option error :=
  buildUniqueKeyMinMaxValuesPreparedQuery databaseName tableName uniqueKeyColumns "desc".

End PreparedQueries.

(** *** The DML delete and insert statements *)

Section DMLDeleteInsert.
Context `{Strconv} {Arg : Type} `{ArgConv Arg}.

Definition BuildDMLDeleteQuery (databaseName tableName : string)
    (tableColumns : ColumnList) (args : list Arg)
    : Exec (string * list Arg * option error) :=
  if decide (length args ≠ Len tableColumns) then
    Returns ("", [],
             Some "args count differs from table column count in BuildDMLDeleteQuery")
  else
    do uniqueKeyArgs <- convert_args tableColumns tableColumns args;
    let databaseName := EscapeName databaseName in
    let tableName := EscapeName tableName in
    do eq <- BuildEqualsPreparedComparison (Names tableColumns);
    match eq with
    | (_, Some err) => Returns ("", uniqueKeyArgs, Some err)
    | (equalsComparison, None) =>
        let result :=
          nl +:+ tabs 3 +:+ "delete"
          +:+ nl +:+ tabs 4 +:+ "from"
          +:+ nl +:+ tabs 5 +:+ databaseName +:+ "." +:+ tableName
          +:+ nl +:+ tabs 4 +:+ "where"
          +:+ nl +:+ tabs 5 +:+ equalsComparison
          +:+ nl +:+ tabs 2 in
        Returns (result, uniqueKeyArgs, None)
    end.

(** The loop [for i := 0; i < len(columnValues); i++] that writes the value
    tuples into the buffer: [n] is [len(columnValues)], [todo] the number of
    iterations left. *)
Fixpoint write_tuples (n : nat) (preparedValues : list string) (i todo : nat)
    (buffer : string) : string :=
  match todo with
  | 0 => buffer
  | S todo' =>
      let buffer :=
        if decide (i = n - 1)
        then buffer +:+ "(" +:+ Join preparedValues ", " +:+ ")"
        else buffer +:+ "(" +:+ Join preparedValues ", " +:+ ")," in
      write_tuples n preparedValues (S i) todo' buffer
  end.

Definition BuildDMLInsertQuery (databaseName tableName : string)
    (tableColumns sharedColumns mappedSharedColumns : ColumnList)
    (columnValues : list (list Arg)) : Exec (string * list Arg * option error) :=
  if negb (forallb (fun args => bool_decide (length args = Len tableColumns))
             columnValues) then
    Returns ("", [],
             Some "args count differs from table column count in BuildDMLInsertQuery")
  else if negb (IsSubsetOf sharedColumns tableColumns) then
    Returns ("", [],
             Some "shared columns is not a subset of table columns in BuildDMLInsertQuery")
  else if decide (Len sharedColumns = 0) then
    Returns ("", [], Some "No shared columns found in BuildDMLInsertQuery")
  else
    let databaseName := EscapeName databaseName in
    let tableName := EscapeName tableName in
    do rows <- exec_map (convert_args tableColumns sharedColumns) columnValues;
    let sharedArgs := concat rows in
    let mappedSharedColumnNames :=
      map EscapeName (duplicateNames (Names mappedSharedColumns)) in
    let preparedValues := buildColumnsPreparedValues mappedSharedColumns in
    let buffer :=
      write_tuples (length columnValues) preparedValues 0 (length columnValues) "" in
    let result :=
      nl +:+ tabs 3 +:+ "insert into"
      +:+ nl +:+ tabs 4 +:+ databaseName +:+ "." +:+ tableName
      +:+ nl +:+ tabs 5 +:+ "(" +:+ Join mappedSharedColumnNames ", " +:+ ")"
      +:+ nl +:+ tabs 4 +:+ "values"
      +:+ nl +:+ tabs 5 +:+ buffer
      +:+ nl +:+ tabs 2 in
    Returns (result, sharedArgs, None).

End DMLDeleteInsert.

End Builder.

(** An instance of [strconv.Unquote] for plain ASCII input: a back-quoted
    raw string, a double-quoted string without escapes, a single-quoted
    character; anything that is not delimited by a pair of equal quotes is a
    syntax error, as in Go.  Escape sequences and non-ASCII text are left
    out (they are reported as errors). *)
Module PlainUnquote.

Definition backquote : Ascii.ascii := "096"%char.
Definition dquote : Ascii.ascii := "034"%char.
Definition squote : Ascii.ascii := "039"%char.
Definition backslash : Ascii.ascii := "092"%char.
Definition newline : Ascii.ascii := "010"%char.
Definition carriage_return : Ascii.ascii := "013"%char.

Definition is_quote (a : Ascii.ascii) : bool :=
    Ascii.eqb a backquote || Ascii.eqb a dquote || Ascii.eqb a squote.

Fixpoint last_char (s : string) : option Ascii.ascii :=
    match s with
    | EmptyString => None
    | String a EmptyString => Some a
    | String _ s' => last_char s'
    end.

Fixpoint drop_last (s : string) : string :=
    match s with
    | EmptyString => EmptyString
    | String a EmptyString => EmptyString
    | String a s' => String a (drop_last s')
    end.

Fixpoint all_chars (p : Ascii.ascii -> bool) (s : string) : bool :=
    match s with
    | EmptyString => true
    | String a s' => p a && all_chars p s'
    end.

Fixpoint remove_char (c : Ascii.ascii) (s : string) : string :=
    match s with
    | EmptyString => EmptyString
    | String a s' => if Ascii.eqb a c then remove_char c s' else String a (remove_char c s')
    end.

Definition plain (quote a : Ascii.ascii) : bool :=
    negb (Ascii.eqb a quote) && negb (Ascii.eqb a backslash) && negb (Ascii.eqb a newline)
    && (Ascii.nat_of_ascii a <? 128)%nat.

Definition unquote (s : string) : option string :=
    match s with
    | String quote body =>
        match last_char body with
        | Some l =>
            if negb (Ascii.eqb quote l) then None
            else
              let inner := drop_last body in
              if Ascii.eqb quote backquote then
                if all_chars (fun a => negb (Ascii.eqb a backquote)) inner
                then Some (remove_char carriage_return inner) else None
              else if Ascii.eqb quote dquote then
                if all_chars (plain quote) inner then Some inner else None
              else if Ascii.eqb quote squote then
                match inner with
                | String a EmptyString => if plain quote a then Some inner else None
                | _ => None
                end
              else None
        | None => None
        end
    | EmptyString => None
    end.

#[export] Instance strconv : Strconv := {| Unquote := unquote |}.

End PlainUnquote.


Module Client.

(** *** The package [models] *)

(** Modelled from the spec: the package [internal/models] is not among the
    sources.  A task event is a tagged record: its kind and the optional
    fields exit error, kill error, kill timeout, restart reason, restart
    delay and the fails-task bit, with the setup error, driver error and
    kill reason that the worker's calls to the setters name.  The kinds are
    also the decisions of the restart tracker.  The state symbols are the
    strings of the updater interface. *)
Inductive TaskEventType : Type :=
| TaskReceived | TaskStarted | TaskKilling | TaskKilled | TaskTerminated
| TaskDriverFailure | TaskSetupFailure | TaskRestarting | TaskNotRestarting
| TaskRestartSignal.

#[export] Instance TaskEventType_eq_dec : EqDecision TaskEventType.
Proof. solve_decision. Defined.

Record TaskEvent : Type := mkTaskEvent {
  EventType : TaskEventType;
  FailsTask : bool;
  RestartReason : string;
  RestartDelay : Z;
  SetupError : option error;
  DriverError : option error;
  ExitError : option error;
  KillError : option error;
  KillTimeout : Z;
  KillReason : string
}.

(** The name of a kind, as the specification spells it. *)
Definition kind_name (t : TaskEventType) : string :=
  match t with
  | TaskReceived => "Received"
  | TaskStarted => "Started"
  | TaskKilling => "Killing"
  | TaskKilled => "Killed"
  | TaskTerminated => "Terminated"
  | TaskDriverFailure => "DriverFailure"
  | TaskSetupFailure => "SetupFailure"
  | TaskRestarting => "Restarting"
  | TaskNotRestarting => "NotRestarting"
  | TaskRestartSignal => "RestartSignal"
  end.

Definition NewTaskEvent (t : TaskEventType) : TaskEvent :=
  mkTaskEvent t false "" 0 None None None None 0 "".

Definition SetEventType (v : TaskEventType) (x : TaskEvent) : TaskEvent :=
  mkTaskEvent v (FailsTask x) (RestartReason x) (RestartDelay x) (SetupError x)
    (DriverError x) (ExitError x) (KillError x) (KillTimeout x) (KillReason x).
Definition SetFailsTask (v : bool) (x : TaskEvent) : TaskEvent :=
  mkTaskEvent (EventType x) v (RestartReason x) (RestartDelay x) (SetupError x)
    (DriverError x) (ExitError x) (KillError x) (KillTimeout x) (KillReason x).
Definition SetRestartReason (v : string) (x : TaskEvent) : TaskEvent :=
  mkTaskEvent (EventType x) (FailsTask x) v (RestartDelay x) (SetupError x)
    (DriverError x) (ExitError x) (KillError x) (KillTimeout x) (KillReason x).
Definition SetRestartDelay (v : Z) (x : TaskEvent) : TaskEvent :=
  mkTaskEvent (EventType x) (FailsTask x) (RestartReason x) v (SetupError x)
    (DriverError x) (ExitError x) (KillError x) (KillTimeout x) (KillReason x).
Definition SetSetupError (v : option error) (x : TaskEvent) : TaskEvent :=
  mkTaskEvent (EventType x) (FailsTask x) (RestartReason x) (RestartDelay x) v
    (DriverError x) (ExitError x) (KillError x) (KillTimeout x) (KillReason x).
Definition SetDriverError (v : option error) (x : TaskEvent) : TaskEvent :=
  mkTaskEvent (EventType x) (FailsTask x) (RestartReason x) (RestartDelay x)
    (SetupError x) v (ExitError x) (KillError x) (KillTimeout x) (KillReason x).
Definition SetExitError (v : option error) (x : TaskEvent) : TaskEvent :=
  mkTaskEvent (EventType x) (FailsTask x) (RestartReason x) (RestartDelay x)
    (SetupError x) (DriverError x) v (KillError x) (KillTimeout x) (KillReason x).
Definition SetKillError (v : option error) (x : TaskEvent) : TaskEvent :=
  mkTaskEvent (EventType x) (FailsTask x) (RestartReason x) (RestartDelay x)
    (SetupError x) (DriverError x) (ExitError x) v (KillTimeout x) (KillReason x).
Definition SetKillTimeout (v : Z) (x : TaskEvent) : TaskEvent :=
  mkTaskEvent (EventType x) (FailsTask x) (RestartReason x) (RestartDelay x)
    (SetupError x) (DriverError x) (ExitError x) (KillError x) v (KillReason x).
Definition SetKillReason (v : string) (x : TaskEvent) : TaskEvent :=
  mkTaskEvent (EventType x) (FailsTask x) (RestartReason x) (RestartDelay x)
    (SetupError x) (DriverError x) (ExitError x) (KillError x) (KillTimeout x) v.

Definition SetFailsTask' : TaskEvent -> TaskEvent := SetFailsTask true.

Definition TaskStatePending : string := "pending".
Definition TaskStateRunning : string := "running".
Definition TaskStateDead : string := "dead".

Record Task : Type := {
  Type_ : string;
  Driver : string;
  Config : string
}.

Record Allocation : Type := {
  ID : string;
  JobName : string;
  AllocTask : string
}.

Record TableStats : Type := { InsertCount : Z; UpdateCount : Z; DelCount : Z }.
Record DelayCount : Type := { DelayNum : Z; DelayTime : Z }.
Record ThroughputStat : Type := { ThroughputNum : Z; ThroughputTime : Z }.

Record TaskStatistics : Type := {
  StatsTableStats : option TableStats;
  StatsDelayCount : option DelayCount;
  StatsThroughputStat : option ThroughputStat
}.

(** *** The packages [config] and [driver] *)

(** Modelled from the spec: the client configuration carries the state
    root, the version written into snapshots, the sampling interval (in
    nanoseconds) and the switch for publishing allocation metrics. *)
Record ClientConfig : Type := {
  StateDir : string;
  Version : string;
  StatsCollectionInterval : Z;
  PublishAllocationMetrics : bool
}.

(** Modelled from the spec: a driver handle is an opaque token with an
    identifier; [Shutdown], [Stats] and the wait channel are answered by
    the environment (see [Env]). *)
Record DriverHandle : Type := { HandleID_ : string }.

(** *** Channels *)

(** A channel used as a one-shot broadcast: open, or closed. *)
Inductive Chan : Type := Open | Closed.

(** *** The restart tracker *)

(** Modelled from the spec: the restart tracker is a pure function over the
    history of outcomes recorded by its setters. *)
Inductive TrackerInput : Type :=
| StartError (err : option error)
| WaitResult (res : error)
| RestartTriggered.

(** *** What the worker needs from outside [worker.go]

    [md5_hex] stands for [hex.EncodeToString(md5.Sum(..))]; [fmt_q] for
    the verb [%q] of the package [fmt] on a string, that is for
    [strconv.Quote], whose escaping of control, non-printable and invalid
    bytes rests on the Unicode tables of Go's library;
    [DriverStatsNotImplemented] and [DefaultKillTimeout] are constants of
    the packages [driver] and [models]; [GetState] and [GetReason] are the
    restart tracker's policy over its history. *)
Class Externals := {
  md5_hex : string -> string;
  fmt_q : string -> string;
  DriverStatsNotImplemented : error;
  DefaultKillTimeout : Z;
  GetState : list TrackerInput -> TaskEventType * Z;
  GetReason : list TrackerInput -> string
}.

(** *** The worker and its snapshot *)

(** The fields of [Worker], without the logger, the updater and the locks.
    [config] and [alloc] are pointers that [NewWorker] receives and
    dereferences; they are taken to be non-nil.  [restartTracker] is the
    history that the tracker has recorded.  [startCh] has capacity one: the
    field holds the number of signals in its buffer.  [restartCh] has no
    buffer, so there is nothing to hold: a send on it meets the [select] of
    the run loop. *)
Record Worker : Type := mkWorker {
  config : ClientConfig;
  alloc : Allocation;
  restartTracker : list TrackerInput;
  running : bool;
  taskStats : option TaskStatistics;
  task : option Task;
  handle : option DriverHandle;
  payloadRendered : bool;
  startCh : nat;
  unblockCh : Chan;
  unblocked : bool;
  restartCh : unit;
  destroy : bool;
  destroyCh : Chan;
  destroyEvent : option TaskEvent;
  waitCh : Chan
}.

Definition set_config (v : ClientConfig) (x : Worker) : Worker :=
  mkWorker v (alloc x) (restartTracker x) (running x) (taskStats x) (task x)
    (handle x) (payloadRendered x) (startCh x) (unblockCh x) (unblocked x)
    (restartCh x) (destroy x) (destroyCh x) (destroyEvent x) (waitCh x).
Definition set_alloc (v : Allocation) (x : Worker) : Worker :=
  mkWorker (config x) v (restartTracker x) (running x) (taskStats x) (task x)
    (handle x) (payloadRendered x) (startCh x) (unblockCh x) (unblocked x)
    (restartCh x) (destroy x) (destroyCh x) (destroyEvent x) (waitCh x).
Definition set_restartTracker (v : list TrackerInput) (x : Worker) : Worker :=
  mkWorker (config x) (alloc x) v (running x) (taskStats x) (task x) (handle x)
    (payloadRendered x) (startCh x) (unblockCh x) (unblocked x) (restartCh x)
    (destroy x) (destroyCh x) (destroyEvent x) (waitCh x).
Definition set_running (v : bool) (x : Worker) : Worker :=
  mkWorker (config x) (alloc x) (restartTracker x) v (taskStats x) (task x)
    (handle x) (payloadRendered x) (startCh x) (unblockCh x) (unblocked x)
    (restartCh x) (destroy x) (destroyCh x) (destroyEvent x) (waitCh x).
Definition set_taskStats (v : option TaskStatistics) (x : Worker) : Worker :=
  mkWorker (config x) (alloc x) (restartTracker x) (running x) v (task x) (handle x)
    (payloadRendered x) (startCh x) (unblockCh x) (unblocked x) (restartCh x)
    (destroy x) (destroyCh x) (destroyEvent x) (waitCh x).
Definition set_task (v : option Task) (x : Worker) : Worker :=
  mkWorker (config x) (alloc x) (restartTracker x) (running x) (taskStats x) v
    (handle x) (payloadRendered x) (startCh x) (unblockCh x) (unblocked x)
    (restartCh x) (destroy x) (destroyCh x) (destroyEvent x) (waitCh x).
Definition set_handle (v : option DriverHandle) (x : Worker) : Worker :=
  mkWorker (config x) (alloc x) (restartTracker x) (running x) (taskStats x)
    (task x) v (payloadRendered x) (startCh x) (unblockCh x) (unblocked x)
    (restartCh x) (destroy x) (destroyCh x) (destroyEvent x) (waitCh x).
Definition set_payloadRendered (v : bool) (x : Worker) : Worker :=
  mkWorker (config x) (alloc x) (restartTracker x) (running x) (taskStats x)
    (task x) (handle x) v (startCh x) (unblockCh x) (unblocked x) (restartCh x)
    (destroy x) (destroyCh x) (destroyEvent x) (waitCh x).
Definition set_startCh (v : nat) (x : Worker) : Worker :=
  mkWorker (config x) (alloc x) (restartTracker x) (running x) (taskStats x)
    (task x) (handle x) (payloadRendered x) v (unblockCh x) (unblocked x)
    (restartCh x) (destroy x) (destroyCh x) (destroyEvent x) (waitCh x).
Definition set_unblockCh (v : Chan) (x : Worker) : Worker :=
  mkWorker (config x) (alloc x) (restartTracker x) (running x) (taskStats x)
    (task x) (handle x) (payloadRendered x) (startCh x) v (unblocked x)
    (restartCh x) (destroy x) (destroyCh x) (destroyEvent x) (waitCh x).
Definition set_unblocked (v : bool) (x : Worker) : Worker :=
  mkWorker (config x) (alloc x) (restartTracker x) (running x) (taskStats x)
    (task x) (handle x) (payloadRendered x) (startCh x) (unblockCh x) v
    (restartCh x) (destroy x) (destroyCh x) (destroyEvent x) (waitCh x).
Definition set_restartCh (v : unit) (x : Worker) : Worker :=
  mkWorker (config x) (alloc x) (restartTracker x) (running x) (taskStats x)
    (task x) (handle x) (payloadRendered x) (startCh x) (unblockCh x) (unblocked x)
    v (destroy x) (destroyCh x) (destroyEvent x) (waitCh x).
Definition set_destroy (v : bool) (x : Worker) : Worker :=
  mkWorker (config x) (alloc x) (restartTracker x) (running x) (taskStats x)
    (task x) (handle x) (payloadRendered x) (startCh x) (unblockCh x) (unblocked x)
    (restartCh x) v (destroyCh x) (destroyEvent x) (waitCh x).
Definition set_destroyCh (v : Chan) (x : Worker) : Worker :=
  mkWorker (config x) (alloc x) (restartTracker x) (running x) (taskStats x)
    (task x) (handle x) (payloadRendered x) (startCh x) (unblockCh x) (unblocked x)
    (restartCh x) (destroy x) v (destroyEvent x) (waitCh x).
Definition set_destroyEvent (v : option TaskEvent) (x : Worker) : Worker :=
  mkWorker (config x) (alloc x) (restartTracker x) (running x) (taskStats x)
    (task x) (handle x) (payloadRendered x) (startCh x) (unblockCh x) (unblocked x)
    (restartCh x) (destroy x) (destroyCh x) v (waitCh x).
Definition set_waitCh (v : Chan) (x : Worker) : Worker :=
  mkWorker (config x) (alloc x) (restartTracker x) (running x) (taskStats x)
    (task x) (handle x) (payloadRendered x) (startCh x) (unblockCh x) (unblocked x)
    (restartCh x) (destroy x) (destroyCh x) (destroyEvent x) v.

Record workerState : Type := {
  snapVersion : string;
  snapTask : option Task;
  snapHandleID : string;
  snapPayloadRendered : bool
}.

(** *** The world around the worker *)

(** Modelled from the spec: the state persistor ([restoreState],
    [persistState]) is not among the sources.  A file holds a snapshot or
    unreadable bytes; [restore] yields the snapshot, not-found or a corrupt
    error; [persist] replaces the file atomically or fails with an I/O error
    and leaves it as it was. *)
Inductive FileContent : Type :=
| Snapshot (snap : workerState)
| Corrupt.

Record Disk : Type := {
  files : gmap (list string) FileContent;
  writable : bool
}.

(** Modelled from the spec: [restoreState(path, &snap)] of the state
    persistor. *)
Definition restoreState (path : list string) (d : Disk) : error + workerState :=
  match files d !! path with
  | None => inl "state file not found"
  | Some Corrupt => inl "failed to decode state"
  | Some (Snapshot snap) => inr snap
  end.

(** Modelled from the spec: [persistState(path, &snap)] of the state
    persistor. *)
Definition persistState (path : list string) (snap : workerState) (d : Disk)
    : option error * Disk :=
  if writable d
  then (None, {| files := <[path := Snapshot snap]> (files d); writable := writable d |})
  else (Some "failed to write state", d).

(** A call of the updater: task name, state symbol, event. *)
Definition Update : Type := string * string * option TaskEvent.

(** A call of [logger.Printf]: the format and its operands. *)
Definition LogLine : Type := string * list string.

(** A gauge handed to the metrics sink: its key and the integer that the
    source converts to a float. *)
Definition Gauge : Type := list string * Z.

(** The calls that leave the worker: to the driver, and goroutines spawned. *)
Inductive Call : Type :=
| CallNewDriver (driverName : string)
| CallStart (jobName taskType : string)
| CallOpen (jobName taskType handleID : string)
| CallShutdown (handleID : string)
| CallStats (handleID : string)
| CallWaitCh (handleID : string)
| GoCollectResourceUsageStats
| GoPrestart.

(** Commands that other goroutines issue on the worker. *)
Inductive Cmd : Type :=
| CmdDestroy (event : option TaskEvent)
| CmdKill (source reason : string) (fail : bool)
| CmdUnblockStart (source : string).

(** What the environment does next: the answers of the driver, the arm a
    [select] takes, and the commands of other goroutines. *)
Inductive Env : Type :=
| ENewDriver (err : option error)
| EStart (res : error + DriverHandle)
| EOpen (res : error + DriverHandle)
| EShutdown (err : option error)
| EStats (res : error + option TaskStatistics)
| ESelPrestart
| ESelStart
| ESelWait (waitRes : option error)
| ESelRestart (source reason : string)
| ESelDestroy
| ESelUnblock
| ESelWaitChClosed
| ETimer
| ETick
| EStop
| ECmd (c : Cmd).

(** What lies outside the worker: the disk, what the updater, the logger,
    [time.Sleep], the driver and the metrics sink have been called with, the
    result channel of the current [prestart] (capacity one), and the moves
    that the environment will make. *)
Record World : Type := mkWorld {
  disk : Disk;
  updates : list Update;
  logs : list LogLine;
  slept : list Z;
  calls : list Call;
  gauges : list Gauge;
  prestartResultCh : list bool;
  tape : list Env
}.

Definition set_disk (v : Disk) (x : World) : World :=
  mkWorld v (updates x) (logs x) (slept x) (calls x) (gauges x) (prestartResultCh x)
    (tape x).
Definition set_updates (v : list Update) (x : World) : World :=
  mkWorld (disk x) v (logs x) (slept x) (calls x) (gauges x) (prestartResultCh x)
    (tape x).
Definition set_logs (v : list LogLine) (x : World) : World :=
  mkWorld (disk x) (updates x) v (slept x) (calls x) (gauges x) (prestartResultCh x)
    (tape x).
Definition set_slept (v : list Z) (x : World) : World :=
  mkWorld (disk x) (updates x) (logs x) v (calls x) (gauges x) (prestartResultCh x)
    (tape x).
Definition set_calls (v : list Call) (x : World) : World :=
  mkWorld (disk x) (updates x) (logs x) (slept x) v (gauges x) (prestartResultCh x)
    (tape x).
Definition set_gauges (v : list Gauge) (x : World) : World :=
  mkWorld (disk x) (updates x) (logs x) (slept x) (calls x) v (prestartResultCh x)
    (tape x).
Definition set_prestartResultCh (v : list bool) (x : World) : World :=
  mkWorld (disk x) (updates x) (logs x) (slept x) (calls x) (gauges x) v (tape x).
Definition set_tape (v : list Env) (x : World) : World :=
  mkWorld (disk x) (updates x) (logs x) (slept x) (calls x) (gauges x)
    (prestartResultCh x) v.

Record St : Type := mkSt { wk : Worker; wd : World }.

(** *** The monad of worker code *)

(** Why a computation stops without returning: it waits for an event that
    the environment never supplies, the environment's next move does not
    fit the program point, the code panics, or the fuel of the model's
    loops is used up. *)
Inductive Stop : Type :=
| Blocked
| Infeasible
| Panicked (msg : string)
| OutOfFuel.

Inductive Res (A : Type) : Type :=
| Ok (a : A) (s : St)
| Halt (why : Stop) (s : St).
Arguments Ok {A} a s.
Arguments Halt {A} why s.

Definition M (A : Type) : Type := St -> Res A.

Definition ret {A} (a : A) : M A := fun s => Ok a s.

Definition bind {A B} (m : M A) (k : A -> M B) : M B :=
  fun s => match m s with
           | Ok a s' => k a s'
           | Halt why s' => Halt why s'
           end.

Notation "x <- m ;; k" := (bind m (fun x => k))
  (at level 100, m at next level, right associativity).
Notation "m ;; k" := (bind m (fun _ => k))
  (at level 100, right associativity).

Definition halt {A} (why : Stop) : M A := fun s => Halt why s.
Definition panic {A} (msg : string) : M A := halt (Panicked msg).

Definition getW {A} (f : Worker -> A) : M A := fun s => Ok (f (wk s)) s.
Definition modW (f : Worker -> Worker) : M unit := fun s => Ok tt (mkSt (f (wk s)) (wd s)).
Definition getD {A} (f : World -> A) : M A := fun s => Ok (f (wd s)) s.
Definition modD (f : World -> World) : M unit := fun s => Ok tt (mkSt (wk s) (f (wd s))).

Definition skip : M unit := ret tt.

Definition Printf (format : string) (operands : list string) : M unit :=
  modD (fun d => set_logs (logs d ++ [(format, operands)]) d).

Definition updater (taskName state : string) (event : option TaskEvent) : M unit :=
  modD (fun d => set_updates (updates d ++ [(taskName, state, event)]) d).

Definition Sleep (duration : Z) : M unit :=
  modD (fun d => set_slept (slept d ++ [duration]) d).

Definition call (c : Call) : M unit :=
  modD (fun d => set_calls (calls d ++ [c]) d).

Definition SetGauge (key : list string) (v : Z) : M unit :=
  modD (fun d => set_gauges (gauges d ++ [(key, v)]) d).

(** The environment's next move; none left: the goroutine waits forever. *)
Definition next_env : M Env :=
  fun s => match tape (wd s) with
           | [] => Halt Blocked s
           | e :: rest => Ok e (mkSt (wk s) (set_tape rest (wd s)))
           end.

(** [close(ch)]. *)
Definition close (ch : Chan) : M Chan :=
  match ch with
  | Open => ret Closed
  | Closed => panic "close of closed channel"
  end.

(** [r.task.Type] and the like: [r.task] is a pointer. *)
Definition the_task : M Task :=
  t <- getW task ;;
  match t with
  | Some t => ret t
  | None => panic "nil pointer dereference"
  end.

Definition taskType : M string := t <- the_task ;; ret (Type_ t).
Definition allocID : M string := getW (fun w => ID (alloc w)).

(** *** Constants of [worker.go] (durations in nanoseconds) *)

Definition Second : Z := 1000000000.
Definition Minute : Z := 60 * Second.
Definition killBackoffBaseline : Z := 5 * Second.
Definition killBackoffLimit : Z := 2 * Minute.
Definition killFailureLimit : Z := 5.

(** [int64] arithmetic wraps around. *)
Definition wrap64 (z : Z) : Z := (z + 2 ^ 63) mod 2 ^ 64 - 2 ^ 63.
Definition shl64 (x k : Z) : Z := wrap64 (Z.shiftl x k).
Definition mul64 (x y : Z) : Z := wrap64 (x * y).

(** *** Control flow of a goroutine body with [return] statements *)

Inductive Flow : Type := Next | Returned.

Definition do_ (m : M unit) : M Flow := m ;; ret Next.
Definition return_ : M Flow := ret Returned.

Definition and_then (a b : M Flow) : M Flow :=
  f <- a ;; match f with Next => b | Returned => ret Returned end.

Fixpoint block (stmts : list (M Flow)) : M Flow :=
  match stmts with
  | [] => ret Next
  | a :: rest => and_then a (block rest)
  end.

(** [for { body }]. *)
Fixpoint for_ever (fuel : nat) (body : M Flow) : M unit :=
  match fuel with
  | 0 => halt OutOfFuel
  | S n => f <- body ;; match f with Next => for_ever n body | Returned => ret tt end
  end.

(** [go f()]: the model runs the goroutine where it is spawned, until it
    returns or stops; the spawner goes on in either case.  ([prestart] is
    run this way.  The statistics collector, which touches nothing that the
    run loop reads, is only recorded as spawned; its own loop is
    [collectResourceUsageStats] below.) *)
Definition spawn (m : M unit) : M unit :=
  fun s => match m s with
           | Ok _ s' => Ok tt s'
           | Halt _ s' => Ok tt s'
           end.

Section Operations.
Context `{Externals}.

(** *** Snapshot *)

Definition MarkReceived : M unit :=
  t <- taskType ;;
  updater t TaskStatePending (Some (NewTaskEvent TaskReceived)).

Definition stateFilePath : M (list string) :=
  t <- taskType ;;
  let hashHex := md5_hex t in
  let dirName := "task-" +:+ hashHex in
  cfg <- getW config ;;
  a <- allocID ;;
  ret [StateDir cfg; "alloc"; a; dirName; "store.json"].

(** [createDriver]: [None] when the driver was made. *)
Definition createDriver : M (option error) :=
  t <- the_task ;;
  a <- allocID ;;
  call (CallNewDriver (Driver t)) ;;
  e <- next_env ;;
  match e with
  | ENewDriver (Some err) =>
      ret (Some ("failed to create driver '" +:+ Driver t +:+ "' for alloc " +:+ a
                 +:+ ": " +:+ err))
  | ENewDriver None => ret None
  | _ => halt Infeasible
  end.

Definition RestoreState : M (option error) :=
  path <- stateFilePath ;;
  d <- getD disk ;;
  match restoreState path d with
  | inl err => ret (Some err)
  | inr snap =>
      match snapTask snap with
      | None => ret (Some "task runner snapshot includes nil Task")
      | Some t =>
          modW (set_task (Some t)) ;;
          modW (set_payloadRendered (snapPayloadRendered snap)) ;;
          if negb (String.eqb (snapHandleID snap) "") then
            derr <- createDriver ;;
            match derr with
            | Some err => ret (Some err)
            | None =>
                a <- getW alloc ;;
                name <- taskType ;;
                call (CallOpen (JobName a) name (snapHandleID snap)) ;;
                e <- next_env ;;
                match e with
                | EOpen (inl err) =>
                    Printf "[ERR] client: failed to open handle to task %q for alloc %q: %v"
                      [name; ID a; err] ;;
                    ret None
                | EOpen (inr h) =>
                    modW (set_handle (Some h)) ;;
                    modW (set_running true) ;;
                    ret None
                | _ => halt Infeasible
                end
            end
          else ret None
      end
  end.

Definition SaveState : M (option error) :=
  t <- getW task ;;
  cfg <- getW config ;;
  pr <- getW payloadRendered ;;
  h <- getW handle ;;
  let snap := {| snapTask := t;
                 snapVersion := Version cfg;
                 snapPayloadRendered := pr;
                 snapHandleID := match h with Some h => HandleID_ h | None => "" end |} in
  path <- stateFilePath ;;
  d <- getD disk ;;
  let '(err, d') := persistState path snap d in
  modD (set_disk d') ;;
  ret err.

Definition setState (state : string) (event : option TaskEvent) : M unit :=
  err <- SaveState ;;
  match err with
  | Some err =>
      t <- taskType ;;
      Printf "[ERR] client: failed to save store of Task Runner for task %q: %v" [t; err]
  | None => skip
  end ;;
  t <- taskType ;;
  updater t state event.

(** *** Commands from other goroutines *)

Definition Destroy (event : option TaskEvent) : M unit :=
  d <- getW destroy ;;
  if d then ret tt
  else
    modW (set_destroy true) ;;
    modW (set_destroyEvent event) ;;
    ch <- getW destroyCh ;;
    ch' <- close ch ;;
    modW (set_destroyCh ch').

Definition UnblockStart (source : string) : M unit :=
  u <- getW unblocked ;;
  if u then ret tt
  else
    t <- taskType ;;
    a <- allocID ;;
    Printf "[DEBUG] client: unblocking task %v for alloc %q: %v" [t; a; source] ;;
    modW (set_unblocked true) ;;
    ch <- getW unblockCh ;;
    ch' <- close ch ;;
    modW (set_unblockCh ch').

Definition Kill (source reason : string) (fail : bool) : M unit :=
  let reasonStr := source +:+ ": " +:+ reason in
  let event := SetKillReason reasonStr (NewTaskEvent TaskKilling) in
  let event := if fail then SetFailsTask true event else event in
  t <- taskType ;;
  a <- allocID ;;
  Printf "[DEBUG] client: killing task %v for alloc %q: %v" [t; a; reasonStr] ;;
  Destroy (Some event).

(** The event that [Restart] sends on [restartCh]. *)
Definition restart_event (source reason : string) : TaskEvent :=
  let reasonStr := source +:+ ": " +:+ reason in
  SetRestartReason reasonStr (NewTaskEvent TaskRestartSignal).

Definition exec_cmd (c : Cmd) : M unit :=
  match c with
  | CmdDestroy event => Destroy event
  | CmdKill source reason fail => Kill source reason fail
  | CmdUnblockStart source => UnblockStart source
  end.

(** At a point where the goroutine waits, the commands that other
    goroutines have issued meanwhile take effect. *)
Fixpoint absorb (t : list Env) : M unit :=
  match t with
  | ECmd c :: t' => modD (set_tape t') ;; exec_cmd c ;; absorb t'
  | _ => ret tt
  end.

Definition absorb_cmds : M unit := t <- getD tape ;; absorb t.

(** *** Kill executor *)

(** The backoff that [handleDestroy] computes after the failed attempt
    [i]: [(1 << (2 * uint64(i))) * killBackoffBaseline], capped. *)
Definition kill_backoff (i : Z) : Z :=
  let backoff := mul64 (shl64 1 (2 * i)) killBackoffBaseline in
  if (backoff >? killBackoffLimit)%Z then killBackoffLimit else backoff.

Fixpoint handleDestroy_from (fuel : nat) (i : Z) (err : option error)
    : M (bool * option error) :=
  if negb (i <? killFailureLimit)%Z then ret (false, err)
  else
    match fuel with
    | 0 => halt OutOfFuel
    | S n =>
        h <- getW handle ;;
        match h with
        | None => panic "nil pointer dereference"
        | Some h =>
            call (CallShutdown (HandleID_ h)) ;;
            e <- next_env ;;
            match e with
            | EShutdown (Some err) =>
                let backoff := kill_backoff i in
                t <- taskType ;;
                a <- allocID ;;
                Printf "[ERR] client: failed to kill task '%s' for alloc %q. Retrying in %v: %v"
                  [t; a; fmt_int backoff; err] ;;
                Sleep backoff ;;
                handleDestroy_from n (i + 1) (Some err)
            | EShutdown None => ret (true, None)
            | _ => halt Infeasible
            end
        end
    end.

Definition handleDestroy : M (bool * option error) :=
  handleDestroy_from (Z.to_nat killFailureLimit) 0 None.

(** The argument of [killTask] is [nil] or the pointer [r.destroyEvent]. *)
Inductive EventRef : Type := NilRef | DestroyEventRef.

Definition killTask (killingEvent : EventRef) : M unit :=
  running <- getW running ;;
  if negb running then ret tt
  else
    de <- getW destroyEvent ;;
    event <- match killingEvent, de with
             | DestroyEventRef, Some ev =>
                 let ev := SetKillTimeout DefaultKillTimeout (SetEventType TaskKilling ev) in
                 modW (set_destroyEvent (Some ev)) ;;
                 ret ev
             | _, _ => ret (SetKillTimeout DefaultKillTimeout (NewTaskEvent TaskKilling))
             end ;;
    setState TaskStateRunning (Some event) ;;
    r <- handleDestroy ;;
    let '(destroySuccess, err) := r in
    (if negb destroySuccess then
       t <- taskType ;;
       Printf "[ERR] client: failed to kill task %q. Resources may have been leaked: %v"
         [t; default "<nil>" err]
     else skip) ;;
    modW (set_running false) ;;
    setState "" (Some (SetKillError err (NewTaskEvent TaskKilled))).

Definition startTask : M (option error) :=
  derr <- createDriver ;;
  match derr with
  | Some err =>
      t <- taskType ;;
      a <- allocID ;;
      ret (Some ("failed to create driver of task " +:+ fmt_q t +:+ " for alloc " +:+ fmt_q a
                 +:+ ": " +:+ err))
  | None =>
      a <- getW alloc ;;
      t <- taskType ;;
      call (CallStart (JobName a) t) ;;
      e <- next_env ;;
      match e with
      | EStart (inl err) =>
          let wrapped := "failed to start task " +:+ fmt_q t +:+ " for alloc " +:+ fmt_q (ID a)
                         +:+ ": " +:+ err in
          Printf "[WARN] client: %s" [wrapped] ;;
          ret (Some wrapped)
      | EStart (inr handle) =>
          modW (set_handle (Some handle)) ;;
          ret None
      | _ => halt Infeasible
      end
  end.

(** *** Statistics collector *)

Definition gauge_key (a : Allocation) (t group name : string) : list string :=
  ["client"; "allocs"; JobName a; AllocTask a; ID a; t; group; name].

Definition emitStats (ru : TaskStatistics) : M unit :=
  cfg <- getW config ;;
  a <- getW alloc ;;
  match StatsTableStats ru with
  | Some ts =>
      if PublishAllocationMetrics cfg then
        t <- taskType ;;
        SetGauge (gauge_key a t "table" "insert") (InsertCount ts) ;;
        SetGauge (gauge_key a t "table" "update") (UpdateCount ts) ;;
        SetGauge (gauge_key a t "table" "delete") (DelCount ts)
      else skip
  | None => skip
  end ;;
  match StatsDelayCount ru with
  | Some dc =>
      if PublishAllocationMetrics cfg then
        t <- taskType ;;
        SetGauge (gauge_key a t "delay" "num") (DelayNum dc) ;;
        SetGauge (gauge_key a t "delay" "time") (DelayTime dc)
      else skip
  | None => skip
  end ;;
  match StatsThroughputStat ru with
  | Some th =>
      if PublishAllocationMetrics cfg then
        t <- taskType ;;
        SetGauge (gauge_key a t "throughput" "num") (ThroughputNum th) ;;
        SetGauge (gauge_key a t "throughput" "time") (ThroughputTime th)
      else skip
  | None => skip
  end.

(** The arm [case <-next.C] of the collector's loop; [Next] stands for
    [continue] and for falling out of the [select]. *)
Definition collect_sample : M Flow :=
  h <- getW handle ;;
  match h with
  | None => ret Next
  | Some h =>
      call (CallStats (HandleID_ h)) ;;
      e <- next_env ;;
      match e with
      | EStats (inl err) =>
          if String.eqb err DriverStatsNotImplemented then
            t <- taskType ;;
            a <- allocID ;;
            Printf "[DEBUG] client: driver for task %q in allocation %q doesn't support stats"
              [t; a] ;;
            return_
          else
            (if negb (Contains err "connection is shut down") then
               t <- taskType ;;
               Printf "[WARN] client: error fetching stats of task %v: %v" [t; err]
             else skip) ;;
            ret Next
      | EStats (inr ru) =>
          modW (set_taskStats ru) ;;
          match ru with
          | Some ru => emitStats ru
          | None => skip
          end ;;
          ret Next
      | _ => halt Infeasible
      end
  end.

Fixpoint collectResourceUsageStats (fuel : nat) : M unit :=
  match fuel with
  | 0 => halt OutOfFuel
  | S n =>
      e <- next_env ;;
      match e with
      | ETick =>
          f <- collect_sample ;;
          match f with
          | Next => collectResourceUsageStats n
          | Returned => ret tt
          end
      | EStop => ret tt
      | _ => halt Infeasible
      end
  end.

Definition LatestTaskStats : M (option TaskStatistics) :=
  running <- getW running ;;
  if negb running then ret None else getW taskStats.

(** *** Prestart *)

(** [select { case r.startCh <- struct{}{}: default: }] on a channel of
    capacity one. *)
Definition send_start : M unit :=
  modW (fun w => if decide (startCh w < 1) then set_startCh (S (startCh w)) w else w).

(** [resultCh <- b]: the send waits while the buffer (capacity one) is full. *)
Definition send_result (b : bool) : M unit :=
  buf <- getD prestartResultCh ;;
  if decide (length buf < 1) then modD (set_prestartResultCh (buf ++ [b]))
  else halt Blocked.

(** The second [select] of [prestart]: on [unblockCh] and on [waitCh]. *)
Definition prestart_block : M Flow :=
  e <- next_env ;;
  match e with
  | ESelUnblock =>
      ch <- getW unblockCh ;;
      match ch with
      | Open => halt Infeasible
      | Closed => block [do_ send_start; do_ (send_result true); return_]
      end
  | ESelWaitChClosed =>
      ch <- getW waitCh ;;
      match ch with
      | Open => halt Infeasible
      | Closed => block [do_ (send_result false); return_]
      end
  | _ => halt Infeasible
  end.

Definition prestart_body : M Flow :=
  block [ do_ send_start;
          do_ (send_result true);
          return_;
          prestart_block ].

Definition prestart (fuel : nat) : M unit := for_ever fuel prestart_body.

(** *** The restart gate *)

(** The [select] on [time.After(when)] and [destroyCh], and what follows
    it in [shouldRestart]. *)
Definition restart_wait : M bool :=
  absorb_cmds ;;
  ch <- getW destroyCh ;;
  match ch with
  | Closed => skip
  | Open => e <- next_env ;; match e with ETimer => skip | _ => halt Infeasible end
  end ;;
  destroyed <- getW destroy ;;
  if destroyed then
    t <- taskType ;;
    Printf "[DEBUG] client: Not restarting task: %v because it has been destroyed" [t] ;;
    de <- getW destroyEvent ;;
    setState TaskStateDead de ;;
    ret false
  else ret true.

Definition shouldRestart : M bool :=
  tr <- getW restartTracker ;;
  let '(state, when) := GetState tr in
  let reason := GetReason tr in
  match state with
  | TaskNotRestarting | TaskTerminated =>
      t <- taskType ;;
      a <- allocID ;;
      Printf "[INFO] client: Not restarting task: %v for alloc: %v " [t; a] ;;
      (if decide (state = TaskNotRestarting) then
         setState TaskStateDead
           (Some (SetFailsTask true
                    (SetRestartReason reason (NewTaskEvent TaskNotRestarting))))
       else skip) ;;
      ret false
  | TaskRestarting =>
      t <- taskType ;;
      a <- allocID ;;
      Printf "[INFO] client: Restarting task %q for alloc %q in %v" [t; a; fmt_int when] ;;
      setState TaskStatePending
        (Some (SetRestartReason reason
                 (SetRestartDelay when (NewTaskEvent TaskRestarting)))) ;;
      restart_wait
  | _ =>
      Printf "[ERR] client: restart tracker returned unknown store: %q" [kind_name state] ;;
      ret false
  end.

(** *** The run loop *)

(** The variables of [run] that live across iterations: [stopCollection]
    ([None] is the nil channel) and [handleWaitCh] (the identifier of the
    handle whose wait channel it is, [None] for nil). *)
Record Locals : Type := mkLocals {
  stopCollection : option Chan;
  handleWaitCh : option string
}.

(** [close(stopCollection)]. *)
Definition close_stopCollection (lv : Locals) : M Locals :=
  match stopCollection lv with
  | None => panic "close of nil channel"
  | Some ch => ch' <- close ch ;; ret (mkLocals (Some ch') (handleWaitCh lv))
  end.

(** [<-handleWaitCh] outside the [select]: a nil channel never delivers. *)
Definition recv_handleWaitCh (lv : Locals) : M unit :=
  match handleWaitCh lv with
  | None => halt Blocked
  | Some _ =>
      absorb_cmds ;;
      e <- next_env ;;
      match e with
      | ESelWait _ => skip
      | _ => halt Infeasible
      end
  end.

Definition waitErrorToEvent (res : error) : TaskEvent :=
  SetExitError (Some res) (NewTaskEvent TaskTerminated).

(** Where the loop stands: at the head of the outer [for], or at the
    [select] of the loop labelled [WAIT]. *)
Inductive PC : Type := AtFor | AtWait.

Fixpoint run_loop (fuel : nat) (pc : PC) (lv : Locals) : M unit :=
  match fuel with
  | 0 => halt OutOfFuel
  | S n =>
      let RESTART : M unit :=
        restart <- shouldRestart ;;
        if negb restart then setState TaskStateDead None
        else
          modW (set_handle None) ;;
          run_loop n AtFor (mkLocals None None) in
      match pc with
      | AtFor =>
          modD (set_prestartResultCh []) ;;
          call GoPrestart ;;
          spawn (prestart 1) ;;
          run_loop n AtWait lv
      | AtWait =>
          absorb_cmds ;;
          e <- next_env ;;
          match e with
          | ESelPrestart =>
              buf <- getD prestartResultCh ;;
              match buf with
              | [] => halt Infeasible
              | success :: rest =>
                  modD (set_prestartResultCh rest) ;;
                  if negb success then setState TaskStateDead None
                  else run_loop n AtWait lv
              end
          | ESelStart =>
              c <- getW startCh ;;
              match c with
              | 0 => halt Infeasible
              | S c' =>
                  modW (set_startCh c') ;;
                  h <- getW handle ;;
                  match h with
                  | Some _ => run_loop n AtWait lv
                  | None =>
                      startErr <- startTask ;;
                      modW (fun w => set_restartTracker
                                       (restartTracker w ++ [StartError startErr]) w) ;;
                      match startErr with
                      | Some err =>
                          setState ""
                            (Some (SetDriverError (Some err)
                                     (NewTaskEvent TaskDriverFailure))) ;;
                          RESTART
                      | None =>
                          setState TaskStateRunning (Some (NewTaskEvent TaskStarted)) ;;
                          modW (set_running true) ;;
                          sc <- match stopCollection lv with
                                | None => call GoCollectResourceUsageStats ;; ret (Some Open)
                                | Some ch => ret (Some ch)
                                end ;;
                          h <- getW handle ;;
                          match h with
                          | None => panic "nil pointer dereference"
                          | Some h =>
                              call (CallWaitCh (HandleID_ h)) ;;
                              run_loop n AtWait (mkLocals sc (Some (HandleID_ h)))
                          end
                      end
                  end
              end
          | ESelWait waitRes =>
              match handleWaitCh lv with
              | None => halt Infeasible
              | Some _ =>
                  match waitRes with
                  | None => panic "nil wait"
                  | Some res =>
                      modW (set_running false) ;;
                      _ <- close_stopCollection lv ;;
                      modW (fun w => set_restartTracker
                                       (restartTracker w ++ [WaitResult res]) w) ;;
                      setState "" (Some (waitErrorToEvent res)) ;;
                      t <- taskType ;;
                      a <- allocID ;;
                      Printf "[ERR] client: task %q for alloc %q failed: %v" [t; a; res] ;;
                      RESTART
                  end
              end
          | ESelRestart source reason =>
              let event := restart_event source reason in
              running <- getW running ;;
              t <- taskType ;;
              a <- allocID ;;
              let common := "task " +:+ t +:+ " for alloc " +:+ fmt_q a in
              if negb running then
                Printf "[DEBUG] client: skipping restart of %v: task isn't running" [common] ;;
                run_loop n AtWait lv
              else
                Printf "[DEBUG] client: restarting %s: %v" [common; RestartReason event] ;;
                setState TaskStateRunning (Some event) ;;
                killTask NilRef ;;
                _ <- close_stopCollection lv ;;
                match handleWaitCh lv with
                | Some _ => recv_handleWaitCh lv
                | None => skip
                end ;;
                modW (fun w => set_restartTracker
                                 (restartTracker w ++ [RestartTriggered]) w) ;;
                RESTART
          | ESelDestroy =>
              ch <- getW destroyCh ;;
              match ch with
              | Open => halt Infeasible
              | Closed =>
                  running <- getW running ;;
                  de <- getW destroyEvent ;;
                  if negb running then setState TaskStateDead de
                  else
                    match de with
                    | None => panic "nil pointer dereference"
                    | Some ev =>
                        killEvent <-
                          (if decide (EventType ev ≠ TaskKilled) then
                             if decide (EventType ev = TaskKilling) then ret DestroyEventRef
                             else setState TaskStateRunning de ;; ret NilRef
                           else ret NilRef) ;;
                        killTask killEvent ;;
                        _ <- close_stopCollection lv ;;
                        recv_handleWaitCh lv ;;
                        setState TaskStateDead None
                    end
              end
          | _ => halt Infeasible
          end
      end
  end.

Definition run (fuel : nat) : M unit :=
  h <- getW handle ;;
  lv <- match h with
        | Some h =>
            call GoCollectResourceUsageStats ;;
            call (CallWaitCh (HandleID_ h)) ;;
            ret (mkLocals (Some Open) (Some (HandleID_ h)))
        | None => ret (mkLocals None None)
        end ;;
  run_loop fuel AtFor lv.

(** [Run]; the deferred [close(r.waitCh)] runs when the body returns. *)
Definition Run (fuel : nat) : M unit :=
  t <- taskType ;;
  a <- allocID ;;
  Printf "[DEBUG] client: starting task context for '%s' (alloc '%s')" [t; a] ;;
  err <- createDriver ;;
  match err with
  | Some err =>
      let e := "failed to create driver of task " +:+ fmt_q t +:+ " for alloc " +:+ fmt_q a
               +:+ ": " +:+ err in
      setState TaskStateDead
        (Some (SetFailsTask true (SetSetupError (Some e) (NewTaskEvent TaskSetupFailure))))
  | None => run fuel
  end ;;
  ch <- getW waitCh ;;
  ch' <- close ch ;;
  modW (set_waitCh ch').

(** The life of a supervisor as the allocation runner drives it:
    [MarkReceived], when it is called, and then [Run]. *)
Definition supervise (markReceived : bool) (fuel : nat) : M unit :=
  (if markReceived then MarkReceived else skip) ;;
  Run fuel.

End Operations.

(** [NewWorker], when the allocation's job knows the task. *)
Definition NewWorker (config : ClientConfig) (alloc : Allocation) (task : option Task)
    : Worker :=
  {| config := config; alloc := alloc; restartTracker := [];
     running := false; taskStats := None; task := task; handle := None;
     payloadRendered := false; startCh := 0; unblockCh := Open; unblocked := false;
     restartCh := tt; destroy := false; destroyCh := Open; destroyEvent := None;
     waitCh := Open |}.

(** A world in which nothing has happened yet. *)
Definition new_world (d : Disk) (t : list Env) : World :=
  {| disk := d; updates := []; logs := []; slept := []; calls := []; gauges := [];
     prestartResultCh := []; tape := t |}.

(** The state symbols passed to the updater so far, and those that are not
    the empty symbol. *)
Definition symbols (s : St) : list string := map (fun u => u.1.2) (updates (wd s)).
Definition nonempty (l : list string) : list string :=
  filter (fun x => x ≠ "") l.

Definition state_of {A} (r : Res A) : St :=
  match r with Ok _ s => s | Halt _ s => s end.

End Client.

(** * Specification-side definitions *)

Module Import BuilderSpec.
Import Builder.

(** A comparison atom of a range predicate: its column, the value text
    (with the placeholder) and the argument bound to the placeholder. *)
Abbreviation Atom Arg := (string * string * Arg)%type.

(** Range predicates as the specification words them. *)
#[warnings="-register-all"]
Inductive Pred (Arg : Type) : Type :=
| Cmp (t : Atom Arg) (op : string)
| AllEq (ts : list (Atom Arg))
| Both (p q : Pred Arg)
| AnyOf (ps : list (Pred Arg)).
Arguments Cmp {Arg} t op.
Arguments AllEq {Arg} ts.
Arguments Both {Arg} p q.
Arguments AnyOf {Arg} ps.

(** The disjuncts [(c1 op v1)], [(c1 = v1 AND c2 op v2)], ...: [pre] holds
    the atoms to the left of the head of [rest]. *)
Fixpoint disjuncts {Arg} (pre rest : list (Atom Arg)) (op : string) : list (Pred Arg) :=
  match rest with
  | [] => []
  | t :: rest' =>
      match pre with
      | [] => Cmp t op
      | _ :: _ => Both (AllEq pre) (Cmp t op)
      end :: disjuncts (pre ++ [t]) rest' op
  end.

Definition range_pred {Arg} (ts : list (Atom Arg)) (op : string) (inclusive : bool)
    : Pred Arg :=
  AnyOf (disjuncts [] ts op ++ if inclusive then [AllEq ts] else []).

(** The identifier that a name stands for: the name itself, or what it
    quotes when it is a quoted Go literal. *)
Definition identifier `{Strconv} (name : string) : string :=
  default name (Unquote name).

(** An escaped identifier as the specification writes it: between two
    backticks. *)
Definition backticked `{Strconv} (name : string) : string :=
  "`" +:+ identifier name +:+ "`".

(** The text of a predicate, every identifier between backticks. *)
Definition atom_text `{Strconv} {Arg} (op : string) (t : Atom Arg) : string :=
  "(" +:+ backticked t.1.1 +:+ " " +:+ op +:+ " " +:+ t.1.2 +:+ ")".

Fixpoint render `{Strconv} {Arg} (p : Pred Arg) : string :=
  match p with
  | Cmp t op => atom_text op t
  | AllEq ts => "(" +:+ Join (map (atom_text "=") ts) " and " +:+ ")"
  | Both p q => "(" +:+ render p +:+ " AND " +:+ render q +:+ ")"
  | AnyOf ps => "(" +:+ Join (map render ps) " or " +:+ ")"
  end.

(** The arguments of the placeholders of a predicate, from left to right. *)
Fixpoint args_of {Arg} (p : Pred Arg) : list Arg :=
  match p with
  | Cmp t _ => [t.2]
  | AllEq ts => map snd ts
  | Both p q => args_of p ++ args_of q
  | AnyOf ps => concat (map args_of ps)
  end.

(** The sign that the disjuncts carry, and whether the equality is added. *)
Definition strict_sign (op : string) : string :=
  if String.eqb op "<=" then "<" else if String.eqb op ">=" then ">" else op.
Definition inclusive_sign (op : string) : bool :=
  String.eqb op "<=" || String.eqb op ">=".

Definition atoms {Arg} (columns values : list string) (args : list Arg) : list (Atom Arg) :=
  zip (zip columns values) args.

(** An atom whose column and value are not empty. *)
Definition plain_atom {Arg} (t : Atom Arg) : Prop := t.1.1 <> "" /\ t.1.2 <> "".

(** The arguments a range-query builder returns with a nil error. *)
Definition exploded {Arg} (r : Exec (string * list Arg * option error))
    : option (list Arg) :=
  match r with
  | Returns (_, explodedArgs, None) => Some explodedArgs
  | _ => None
  end.

(** The text of the chunked select around its parts. *)
Definition select_text (sharedColumnsListing databaseName originalTableName uniqueKey
    whereClause ordering : string) (chunkSize : Z) : string :=
  nl +:+ tab +:+ "select " +:+ sharedColumnsListing
  +:+ nl +:+ tab +:+ tab +:+ "from"
  +:+ nl +:+ tab +:+ tab +:+ tab +:+ databaseName +:+ "." +:+ originalTableName
  +:+ nl +:+ tab +:+ tab +:+ "force index (" +:+ uniqueKey +:+ ")"
  +:+ nl +:+ tab +:+ tab +:+ "where (" +:+ whereClause +:+ ")"
  +:+ nl +:+ tab +:+ tab +:+ "order by"
  +:+ nl +:+ tab +:+ tab +:+ tab +:+ ordering
  +:+ nl +:+ tab +:+ tab +:+ "limit " +:+ fmt_int chunkSize
  +:+ nl +:+ "    ".

(** One ascending ordering term: the column between backticks, inside
    [concat(..)] when the column has the enum type. *)
Definition ascending `{Strconv} (column : Column) : string :=
  if is_enum (Type_ column)
  then "concat(" +:+ backticked (Name column) +:+ ") " +:+ "asc"
  else backticked (Name column) +:+ " " +:+ "asc".

(** The text of the update statement around its two clauses. *)
Definition update_text (databaseName tableName setClause equalsComparison : string)
    : string :=
  nl +:+ " " +:+ tab +:+ tab +:+ tab +:+ "update"
  +:+ nl +:+ " " +:+ tab +:+ tab +:+ tab +:+ tab +:+ tab +:+ databaseName +:+ "." +:+ tableName
  +:+ nl +:+ tab +:+ tab +:+ tab +:+ tab +:+ "set"
  +:+ nl +:+ tab +:+ tab +:+ tab +:+ tab +:+ tab +:+ setClause
  +:+ nl +:+ tab +:+ tab +:+ tab +:+ tab +:+ "where"
  +:+ nl +:+ " " +:+ tab +:+ tab +:+ tab +:+ tab +:+ tab +:+ equalsComparison
  +:+ nl +:+ " " +:+ tab +:+ tab.

(** Every ordinal of a column list is a position in it. *)
Definition ordinals_in_range (cl : ColumnList) : Prop :=
  map_Forall (fun _ i => i < Len cl) (Ordinals cl).

(** Every column's ordinal is its position in the list. *)
Definition positional (cl : ColumnList) : Prop :=
  forall i c, columns cl !! i = Some c -> Ordinals cl !! Name c = Some i.

(** *** Success of the comparisons *)

(** The inputs on which [BuildRangeComparison] succeeds. *)
Definition comparable {Arg} (columns values : list string) (args : list Arg) : Prop :=
  columns <> [] /\ length values = length columns /\ length args = length columns
  /\ Forall (fun c => c <> "") columns /\ Forall (fun v => v <> "") values.

(** The text of one equality of [BuildEqualsComparison]. *)
Definition equality_text `{Strconv} (column value : string) : string :=
  "(" +:+ EscapeName column +:+ " = " +:+ value +:+ ")".

(** The conjunction of equalities with a placeholder for every column. *)
Definition prepared_equalities `{Strconv} (names : list string) : string :=
  "(" +:+ Join (map (fun c => equality_text c "?") names) " and " +:+ ")".

(** The lower and the upper bound of a range, as predicates. *)
Definition lower_bound {Arg} (uniqueKeyColumns : ColumnList) (values : list string)
    (args : list Arg) (includeRangeStartValues : bool) : Pred Arg :=
  range_pred (atoms (Names uniqueKeyColumns) values args) ">" includeRangeStartValues.
Definition upper_bound {Arg} (uniqueKeyColumns : ColumnList) (values : list string)
    (args : list Arg) : Pred Arg :=
  range_pred (atoms (Names uniqueKeyColumns) values args) "<" true.

(** *** Placeholders *)

(** The number of placeholders [?] in a text. *)
Fixpoint placeholders (s : string) : nat :=
  match s with
  | EmptyString => 0
  | String a s' => (if Ascii.eqb a "?"%char then 1 else 0) + placeholders s'
  end.

(** A text without placeholders. *)
Definition clean (s : string) : Prop := placeholders s = 0.

(** Names whose escaped form brings no placeholder into a statement. *)
Definition clean_names `{Strconv} (names : list string) : Prop :=
  Forall (fun name => clean (EscapeName name)) names.

(** A column whose name and timezone bring no placeholder into a statement. *)
Definition clean_column `{Strconv} (c : Column) : Prop :=
  clean (EscapeName (Name c))
  /\ match TimezoneConversion c with
     | Some tz => clean (ToTimezone tz)
     | None => True
     end.

(** An atom with a clean column and one placeholder in its value. *)
Definition one_placeholder `{Strconv} {Arg} (t : Atom Arg) : Prop :=
  clean (EscapeName t.1.1) /\ placeholders t.1.2 = 1.

(** *** The meaning of a range predicate *)

(** The truth of [x op y] on integers, for the signs of the builder. *)
Definition compare_sign (op : string) (x y : Z) : Prop :=
  if String.eqb op "<" then (x < y)%Z
  else if String.eqb op ">" then (x > y)%Z
  else if String.eqb op "=" then x = y
  else False.

(** An atom whose value text is the bare placeholder [?]. *)
Definition bare {Arg} (t : Atom Arg) : Prop := t.1.2 = "?".

(** The truth of a prepared predicate on a row that gives every identifier
    an integer.  An atom [`c` op ?] compares the row's value of the
    identifier [c] with the argument bound to its placeholder.  Only such
    atoms are given a meaning: an atom whose value text is anything but the
    bare placeholder is held of no row. *)
Fixpoint holds `{Strconv} (row : string -> Z) (p : Pred Z) : Prop :=
  match p with
  | Cmp t op => bare t /\ compare_sign op (row (identifier t.1.1)) t.2
  | AllEq ts => Forall (fun t => bare t /\ row (identifier t.1.1) = t.2) ts
  | Both p q => holds row p /\ holds row q
  | AnyOf ps => fold_right (fun p acc => holds row p \/ acc) False ps
  end.

(** The lexicographic order on tuples that [lt] induces. *)
Fixpoint lex (lt : Z -> Z -> Prop) (xs ys : list Z) : Prop :=
  match xs, ys with
  | x :: xs', y :: ys' => lt x y \/ (x = y /\ lex lt xs' ys')
  | _, _ => False
  end.

(** The order that a strict sign denotes. *)
Definition strictly (op : string) : Z -> Z -> Prop :=
  if String.eqb op "<" then Z.lt else Z.gt.

(** The comparison of tuples that a sign of a range denotes. *)
Definition lex_compare (op : string) (xs ys : list Z) : Prop :=
  if String.eqb op "<" then lex Z.lt xs ys
  else if String.eqb op "<=" then lex Z.lt xs ys \/ xs = ys
  else if String.eqb op ">" then lex Z.gt xs ys
  else if String.eqb op ">=" then lex Z.gt xs ys \/ xs = ys
  else False.

(** *** The texts of the other statements *)

(** The text of the range insert around its parts. *)
Definition range_insert_text (databaseName originalTableName ghostTableName
    mappedSharedColumnsListing sharedColumnsListing uniqueKey
    rangeStartComparison rangeEndComparison transactionalClause : string) : string :=
  nl +:+ "      insert ignore into " +:+ databaseName +:+ "." +:+ ghostTableName
     +:+ " (" +:+ mappedSharedColumnsListing +:+ ")"
  +:+ nl +:+ "      (select " +:+ sharedColumnsListing +:+ " from " +:+ databaseName
     +:+ "." +:+ originalTableName +:+ " force index (" +:+ uniqueKey +:+ ")"
  +:+ nl +:+ "        where (" +:+ rangeStartComparison +:+ " and "
     +:+ rangeEndComparison +:+ ") " +:+ transactionalClause
  +:+ nl +:+ "      )"
  +:+ nl +:+ "    ".

(** The text of the range-end query around its parts. *)
Definition range_end_text (uniqueKeyColumnNames databaseName tableName
    rangeStartComparison rangeEndComparison ascending : string) (chunkSize : Z)
    (descending : string) : string :=
  nl +:+ "      select " +:+ uniqueKeyColumnNames
  +:+ nl +:+ tabs 4 +:+ "from ("
  +:+ nl +:+ tabs 5 +:+ "select"
  +:+ nl +:+ tabs 7 +:+ uniqueKeyColumnNames
  +:+ nl +:+ tabs 6 +:+ "from"
  +:+ nl +:+ tabs 7 +:+ databaseName +:+ "." +:+ tableName
  +:+ nl +:+ tabs 6 +:+ "where " +:+ rangeStartComparison +:+ " and "
     +:+ rangeEndComparison
  +:+ nl +:+ tabs 6 +:+ "order by"
  +:+ nl +:+ tabs 7 +:+ ascending
  +:+ nl +:+ tabs 6 +:+ "limit " +:+ fmt_int chunkSize
  +:+ nl +:+ tabs 4 +:+ ") select_osc_chunk"
  +:+ nl +:+ tabs 3 +:+ "order by"
  +:+ nl +:+ tabs 4 +:+ descending
  +:+ nl +:+ tabs 3 +:+ "limit 1"
  +:+ nl +:+ "    ".

(** The text of the delete statement around its parts. *)
Definition delete_text (databaseName tableName equalsComparison : string) : string :=
  nl +:+ tabs 3 +:+ "delete"
  +:+ nl +:+ tabs 4 +:+ "from"
  +:+ nl +:+ tabs 5 +:+ databaseName +:+ "." +:+ tableName
  +:+ nl +:+ tabs 4 +:+ "where"
  +:+ nl +:+ tabs 5 +:+ equalsComparison
  +:+ nl +:+ tabs 2.

(** The text of the insert statement around its parts. *)
Definition insert_text (databaseName tableName columnNames tuples : string) : string :=
  nl +:+ tabs 3 +:+ "insert into"
  +:+ nl +:+ tabs 4 +:+ databaseName +:+ "." +:+ tableName
  +:+ nl +:+ tabs 5 +:+ "(" +:+ columnNames +:+ ")"
  +:+ nl +:+ tabs 4 +:+ "values"
  +:+ nl +:+ tabs 5 +:+ tuples
  +:+ nl +:+ tabs 2.

(** The value tuples of an insert of [n] rows: [n] tuples in parentheses
    with a comma between them and none at the end. *)
Definition value_tuples (preparedValues : list string) (n : nat) : string :=
  Join (replicate n ("(" +:+ Join preparedValues ", " +:+ ")")) ",".

End BuilderSpec.


Module Import ClientSpec.
Import Client.

(** The environment's answers to a run of [Shutdown] calls: the attempts
    that fail with [errs], then one that succeeds when [ok]. *)
Definition shutdown_answers (errs : list error) (ok : bool) : list Env :=
  map (fun e => EShutdown (Some e)) errs ++ (if ok then [EShutdown None] else []).

(** The error that the kill loop holds after the failed attempts [errs]. *)
Definition last_error (err : option error) (errs : list error) : option error :=
  foldl (fun _ e => Some e) err errs.

(** The attempt indices [start], [start + 1], ... ([n] of them). *)
Definition attempts (start : Z) (n : nat) : list Z :=
  map (fun k => (start + Z.of_nat k)%Z) (seq 0 n).

(** The delays of the specification, in nanoseconds. *)
Definition backoff_delays : list Z :=
  [5 * Second; 20 * Second; 80 * Second; 120 * Second; 120 * Second]%Z.

(** [N] calls in a row. *)
Fixpoint call_all (cmds : list (M unit)) : M unit :=
  match cmds with
  | [] => ret tt
  | c :: rest => c ;; call_all rest
  end.

(** The state after one more log line. *)
Definition logged (line : LogLine) (s : St) : St :=
  mkSt (wk s) (set_logs (logs (wd s) ++ [line]) (wd s)).

(** The state after the collector has asked the handle [h] for statistics
    and the environment has answered: the call is recorded and the moves
    [rest] are left. *)
Definition sampled (h : DriverHandle) (rest : list Env) (s : St) : St :=
  mkSt (wk s) (set_tape rest (set_calls (calls (wd s) ++ [CallStats (HandleID_ h)]) (wd s))).

(** The gauges of a sample: three for the table statistics, two for the
    delay and two for the throughput, each group only when the sample has
    it. *)
Definition sample_gauges (a : Allocation) (t : string) (ru : TaskStatistics)
    : list Gauge :=
  match StatsTableStats ru with
  | Some ts => [(gauge_key a t "table" "insert", InsertCount ts);
                (gauge_key a t "table" "update", UpdateCount ts);
                (gauge_key a t "table" "delete", DelCount ts)]
  | None => []
  end
  ++ match StatsDelayCount ru with
     | Some dc => [(gauge_key a t "delay" "num", DelayNum dc);
                   (gauge_key a t "delay" "time", DelayTime dc)]
     | None => []
     end
  ++ match StatsThroughputStat ru with
     | Some th => [(gauge_key a t "throughput" "num", ThroughputNum th);
                   (gauge_key a t "throughput" "time", ThroughputTime th)]
     | None => []
     end.

(** The state after the sample [ru] of the task [t] has been published:
    its gauges are set, in this order, when the configuration asks for
    allocation metrics, and nothing is set otherwise. *)
Definition published (t : Task) (ru : TaskStatistics) (s : St) : St :=
  mkSt (wk s)
    (set_gauges (gauges (wd s)
                 ++ if PublishAllocationMetrics (config (wk s))
                    then sample_gauges (alloc (wk s)) (Client.Type_ t) ru
                    else [])
       (wd s)).

(** *** Languages of state symbols *)

Definition lang : Type := list string -> Prop.

Definition sym (a : string) : lang := fun l => l = [a].
Definition cat (L1 L2 : lang) : lang :=
  fun l => exists l1 l2, l = l1 ++ l2 /\ L1 l1 /\ L2 l2.
Definition alt (L1 L2 : lang) : lang := fun l => L1 l \/ L2 l.
Definition opt (L : lang) : lang := fun l => l = [] \/ L l.

Inductive star (L : lang) : lang :=
| star_nil : star L []
| star_app l1 l2 : L l1 -> star L l2 -> star L (l1 ++ l2).

(** [Pending? (Running | Pending)* Dead], the language of the claim. *)
Definition claimed_language : lang :=
  cat (opt (sym TaskStatePending))
    (cat (star (alt (sym TaskStateRunning) (sym TaskStatePending)))
       (sym TaskStateDead)).

(** [Pending? (Running | Pending)* Dead Dead?], the language of the code. *)
Definition emitted_language : lang :=
  cat (opt (sym TaskStatePending))
    (cat (star (alt (sym TaskStateRunning) (sym TaskStatePending)))
       (cat (sym TaskStateDead) (opt (sym TaskStateDead)))).

(** A symbol that does not end the task: running, pending, or the empty
    symbol of an event-only update. *)
Definition live (x : string) : Prop :=
  x = TaskStateRunning \/ x = TaskStatePending \/ x = "".

Definition run_or_pend (x : string) : Prop :=
  x = TaskStateRunning \/ x = TaskStatePending.

(** What a finished run has emitted, and what a run has emitted so far. *)
Definition final (d : list string) : Prop :=
  exists pre, Forall live pre
              /\ (d = pre ++ [TaskStateDead] \/ d = pre ++ [TaskStateDead; TaskStateDead]).
Definition partial (d : list string) : Prop :=
  exists pre, Forall live pre
              /\ (d = pre \/ d = pre ++ [TaskStateDead]
                  \/ d = pre ++ [TaskStateDead; TaskStateDead]).

(** [m] extends the symbols passed to the updater by some [d] such that
    [ok a d] when it returns [a], and [stopped d] when it stops. *)
Definition emits {A} (m : M A) (ok : A -> list string -> Prop)
    (stopped : list string -> Prop) : Prop :=
  forall s, match m s with
            | Ok a s' => exists d, symbols s' = symbols s ++ d /\ ok a d
            | Halt _ s' => exists d, symbols s' = symbols s ++ d /\ stopped d
            end.

(** What [shouldRestart] emits: live symbols when it answers [true]; live
    symbols, with or without a final [dead], when it answers [false]. *)
Definition gate_ok (restart : bool) (d : list string) : Prop :=
  if restart then Forall live d
  else Forall live d \/ exists pre, Forall live pre /\ d = pre ++ [TaskStateDead].

Definition silent {A} (m : M A) : Prop := emits m (fun _ d => d = []) (fun d => d = []).
Definition quietly {A} (m : M A) : Prop := emits m (fun _ d => Forall live d) (Forall live).
Definition completes {A} (m : M A) : Prop := emits m (fun _ d => final d) partial.

(** *** The environment's moves as a measure of the model's loops *)

Definition tape_len (s : St) : nat := length (tape (wd s)).

Definition out_of_fuel {A} (r : Res A) : bool :=
  match r with Halt OutOfFuel _ => true | _ => false end.

(** [m] leaves the environment's moves as they are and does not run out
    of fuel. *)
Definition keeps {A} (m : M A) : Prop :=
  forall s, tape (wd (state_of (m s))) = tape (wd s) /\ out_of_fuel (m s) = false.

(** [m] consumes moves, if anything, and does not run out of fuel. *)
Definition steady {A} (m : M A) : Prop :=
  forall s, tape_len (state_of (m s)) <= tape_len s /\ out_of_fuel (m s) = false.

(** From a state with at most [n] moves left, [m] does not run out of
    fuel. *)
Definition progress (n : nat) {A} (m : M A) : Prop :=
  forall s, tape_len s <= n -> out_of_fuel (m s) = false.

(** Whether a computation returned. *)
Definition returned {A} (r : Res A) : bool :=
  match r with Ok _ _ => true | Halt _ _ => false end.

(** The updates so far, each by its state symbol and the kind of its
    event. *)
Definition kinds (s : St) : list (string * option TaskEventType) :=
  map (fun u => (u.1.2, EventType <$> u.2)) (updates (wd s)).

(** *** Frames and invariants of the supervisor *)

(** [m] leaves the part [f] of the worker as it is, whether it returns or
    stops. *)
Definition leaves {A B} (f : Worker -> B) (m : M A) : Prop :=
  forall s, f (wk (state_of (m s))) = f (wk s).

(** What the run loop has no business with: the task and the payload flag
    that [SaveState] snapshots, the configuration, the allocation, the
    statistics of the collector, and [waitCh]. *)
Definition bystanders (w : Worker)
    : option Task * bool * ClientConfig * Allocation * option TaskStatistics * Chan :=
  (task w, payloadRendered w, config w, alloc w, taskStats w, waitCh w).

(** Whether the task runs, and its handle. *)
Definition liveness (w : Worker) : bool * option DriverHandle := (running w, handle w).

(** The bystanders without [waitCh]. *)
Definition identity (w : Worker)
    : option Task * bool * ClientConfig * Allocation * option TaskStatistics :=
  (bystanders w).1.

(** The task runs only while there is a handle. *)
Definition handled (x : bool * option DriverHandle) : Prop :=
  x.1 = true -> is_Some x.2.

(** From a state whose liveness satisfies [P], [m] returns [a] in a state
    whose liveness satisfies [Q a], and stops only in states in which the
    task runs only while there is a handle. *)
Definition triple {A} (P : bool * option DriverHandle -> Prop) (m : M A)
    (Q : A -> bool * option DriverHandle -> Prop) : Prop :=
  forall s, P (liveness (wk s)) ->
            match m s with
            | Ok a s' => Q a (liveness (wk s'))
            | Halt _ s' => handled (liveness (wk s'))
            end.

(** The line that [setState] logs when the snapshot cannot be saved. *)
Definition save_failure (t : Task) (saved : Res (option error)) : list LogLine :=
  match saved with
  | Ok (Some err) _ =>
      [("[ERR] client: failed to save store of Task Runner for task %q: %v",
        [Client.Type_ t; err])]
  | _ => []
  end.

(** The part of the world that [setState] leaves alone. *)
Definition outside_setState (d : World) : list Z * list Call * list Gauge * list bool * list Env :=
  (slept d, calls d, gauges d, prestartResultCh d, tape d).

(** The event with which [killTask] marks the task as being killed: the
    destroy event itself, retyped, when it is passed, and a new event
    otherwise; either with the default kill timeout. *)
Definition killing_event `{Externals} (killingEvent : EventRef)
    (destroyEvent : option TaskEvent) : TaskEvent :=
  match killingEvent, destroyEvent with
  | DestroyEventRef, Some ev => SetKillTimeout DefaultKillTimeout (SetEventType TaskKilling ev)
  | _, _ => SetKillTimeout DefaultKillTimeout (NewTaskEvent TaskKilling)
  end.

(** The setup-failure event of [Run]. *)
Definition setup_failure `{Externals} (t : Task) (a : Allocation) (err : error)
    : TaskEvent :=
  SetFailsTask true
    (SetSetupError
       (Some ("failed to create driver of task " +:+ fmt_q (Client.Type_ t) +:+ " for alloc "
              +:+ fmt_q (ID a) +:+ ": "
              +:+ ("failed to create driver '" +:+ Driver t +:+ "' for alloc " +:+ ID a
                   +:+ ": " +:+ err)))
       (NewTaskEvent TaskSetupFailure)).

(** The worker after [Destroy(event)] has set its latch. *)
Definition destroyed (event : option TaskEvent) (w : Worker) : Worker :=
  set_destroyCh Closed (set_destroyEvent event (set_destroy true w)).

(** The state after the environment's next move has been taken. *)
Definition moved (rest : list Env) (s : St) : St :=
  mkSt (wk s) (set_tape rest (wd s)).

(** The event that [Kill] hands to [Destroy]. *)
Definition kill_event (source reason : string) (fail : bool) : TaskEvent :=
  let event := SetKillReason (source +:+ ": " +:+ reason) (NewTaskEvent TaskKilling) in
  if fail then SetFailsTask true event else event.

(** *** What a run reports *)

(** The updates so far, each by its state symbol and its event. *)
Definition reports (s : St) : list (string * option TaskEvent) :=
  map (fun u => (u.1.2, u.2)) (updates (wd s)).

(** A report that does not end the task. *)
Definition live_report (r : string * option TaskEvent) : Prop := live r.1.

(** [m] only adds to the reports, whether it returns or stops. *)
Definition grows {A} (m : M A) : Prop :=
  forall s, exists d, reports (state_of (m s)) = reports s ++ d.

(** The event of a [dead] that [shouldRestart] has reported, as the worker
    it leaves tells: the not-restarting event that fails the task, when
    the restart tracker says NotRestarting; the destroy event, when the
    tracker says Restarting and the worker was destroyed during the
    delay. *)
Definition gate_dead `{Externals} (w : Worker) (ev : option TaskEvent) : Prop :=
  ((GetState (restartTracker w)).1 = TaskNotRestarting
   /\ ev = Some (SetFailsTask true
                   (SetRestartReason (GetReason (restartTracker w))
                      (NewTaskEvent TaskNotRestarting))))
  \/ ((GetState (restartTracker w)).1 = TaskRestarting
      /\ destroy w = true /\ ev = destroyEvent w).

(** The two lines that [shouldRestart] logs before it reports [dead]. *)
Definition refusing_policy : string :=
  "[INFO] client: Not restarting task: %v for alloc: %v ".
Definition refusing_destroyed : string :=
  "[DEBUG] client: Not restarting task: %v because it has been destroyed".

(** A log line that is neither of them. *)
Definition ordinary (line : LogLine) : Prop :=
  line.1 <> refusing_policy /\ line.1 <> refusing_destroyed.

(** [m] only adds to the log, and ordinary lines only. *)
Definition calm {A} (m : M A) : Prop :=
  forall s, exists l, logs (wd (state_of (m s))) = logs (wd s) ++ l /\ Forall ordinary l.

(** The log lines [l] tell that [shouldRestart] has reported [dead]: it
    logged that the task is not restarted and the tracker says
    NotRestarting (the same line is logged, and nothing reported, when the
    tracker says Terminated), or it logged that the worker has been
    destroyed. *)
Definition refusal `{Externals} (w : Worker) (l : list LogLine) : Prop :=
  (In refusing_policy (map fst l)
   /\ (GetState (restartTracker w)).1 = TaskNotRestarting)
  \/ In refusing_destroyed (map fst l).

(** The reports of a run that has come to its end, [w] being the worker
    it leaves: live reports, then [dead] once; or live reports, then the
    [dead] of [shouldRestart] and the [dead] with a nil event of the
    RESTART gate. *)
Definition ended `{Externals} (w : Worker) (d : list (string * option TaskEvent))
    : Prop :=
  exists pre,
    Forall live_report pre
    /\ ((exists ev, d = pre ++ [(TaskStateDead, ev)])
        \/ (exists ev, d = pre ++ [(TaskStateDead, ev); (TaskStateDead, None)]
                       /\ gate_dead w ev)).

(** The reports [d] and the log lines [l] of a run that has returned:
    [dead] is reported once unless [shouldRestart] has reported it, and
    twice when it has. *)
Definition finished `{Externals} (w : Worker) (d : list (string * option TaskEvent))
    (l : list LogLine) : Prop :=
  exists pre,
    Forall live_report pre
    /\ ((exists ev, d = pre ++ [(TaskStateDead, ev)] /\ ~ refusal w l)
        \/ (exists ev, d = pre ++ [(TaskStateDead, ev); (TaskStateDead, None)]
                       /\ gate_dead w ev /\ refusal w l)).

(** What [shouldRestart] has reported and logged when it answers
    [false]. *)
Definition refused `{Externals} (w : Worker) (d : list (string * option TaskEvent))
    (l : list LogLine) : Prop :=
  exists pre,
    Forall live_report pre
    /\ ((d = pre /\ ~ refusal w l)
        \/ (exists ev, d = pre ++ [(TaskStateDead, ev)] /\ gate_dead w ev /\ refusal w l)).

(** [m] finishes the run when it returns; when it stops, the run has made
    live reports only or has come to its end already. *)
Definition closes `{Externals} {A} (m : M A) : Prop :=
  forall s, match m s with
            | Ok _ s' =>
                exists d l, reports s' = reports s ++ d
                            /\ logs (wd s') = logs (wd s) ++ l
                            /\ finished (wk s') d l
            | Halt _ s' =>
                exists d, reports s' = reports s ++ d
                          /\ (Forall live_report d \/ ended (wk s') d)
            end.

End ClientSpec.

(** Values for the examples. *)
Module Examples.
Import Builder Client.

(** A key of one enum column. *)
Definition enum_key : ColumnList :=
  {| columns := [ {| Name := "a"; Builder.Type_ := EnumColumnType; TimezoneConversion := None |} ];
     Ordinals := {[ "a" := 0 ]} |}.

Definition no_columns : ColumnList := {| columns := []; Ordinals := ∅ |}.

(** A table of two columns, the second with a timezone conversion. *)
Definition two_columns : ColumnList :=
  {| columns := [ {| Name := "id"; Builder.Type_ := OtherColumnType 0;
                     TimezoneConversion := None |};
                  {| Name := "ts"; Builder.Type_ := OtherColumnType 1;
                     TimezoneConversion := Some {| ToTimezone := "+08:00" |} |} ];
     Ordinals := {[ "id" := 0; "ts" := 1 ]} |}.

(** Arguments pass through the conversion unchanged. *)
#[export] Instance plain_args : ArgConv string := {| ConvertArg := fun _ a => a |}.

(** A restart policy: restart at once after a restart signal, restart
    after seven nanoseconds when the start failed, otherwise give up. *)
Definition policy (history : list TrackerInput) : TaskEventType * Z :=
  match last history with
  | Some RestartTriggered => (TaskRestarting, 0%Z)
  | Some (StartError (Some _)) => (TaskRestarting, 7%Z)
  | _ => (TaskNotRestarting, 0%Z)
  end.

(** [strconv.Quote] on printable ASCII text, which is all the examples
    use: double quotes around the text, with a backslash before a double
    quote or a backslash. *)
Fixpoint escape_q (s : string) : string :=
  match s with
  | EmptyString => EmptyString
  | String a s' =>
      if Ascii.eqb a "034"%char || Ascii.eqb a "092"%char
      then String "092"%char (String a (escape_q s'))
      else String a (escape_q s')
  end.
Definition quote_ascii (s : string) : string :=
  String "034"%char (escape_q s +:+ String "034"%char EmptyString).

(** The identity stands in for the MD5 digest. *)
#[export] Instance externals : Externals :=
  {| md5_hex := fun s => s;
     fmt_q := quote_ascii;
     DriverStatsNotImplemented := "stats not implemented for driver";
     DefaultKillTimeout := 5 * Second;
     GetState := policy;
     GetReason := fun _ => "ok-exit" |}.

Definition cfg : ClientConfig :=
  {| StateDir := "/var/lib/udup"; Version := "1"; StatsCollectionInterval := Second;
     PublishAllocationMetrics := true |}.
Definition alloc1 : Allocation := {| ID := "a1"; JobName := "job"; AllocTask := "src" |}.
Definition task1 : Task := {| Client.Type_ := "src"; Driver := "mysql"; Config := "" |}.
Definition h1 : DriverHandle := {| HandleID_ := "h1" |}.
Definition empty_disk : Disk := {| files := ∅; writable := true |}.

(** A sample that has table statistics only. *)
Definition table_sample : TaskStatistics :=
  {| StatsTableStats := Some {| InsertCount := 7; UpdateCount := 8; DelCount := 9 |};
     StatsDelayCount := None;
     StatsThroughputStat := None |}.

(** A new worker in a new world with the environment's moves [t]. *)
Definition new_supervisor (t : list Env) : St :=
  mkSt (NewWorker cfg alloc1 (Some task1)) (new_world empty_disk t).

(** The same with a handle installed and the task running. *)
Definition started (t : list Env) : St :=
  mkSt (set_running true (set_handle (Some h1) (NewWorker cfg alloc1 (Some task1))))
    (new_world empty_disk t).

(** A restart policy with a budget: restart after seven nanoseconds while
    no more than [budget] starts have failed, at once after a restart
    signal, and give up otherwise. *)
Definition failed_starts (history : list TrackerInput) : nat :=
  length (List.filter
            (fun i => match i with StartError (Some _) => true | _ => false end)
            history).

Definition budget_policy (budget : nat) (history : list TrackerInput)
    : TaskEventType * Z :=
  match last history with
  | Some RestartTriggered => (TaskRestarting, 0%Z)
  | Some (StartError (Some _)) =>
      if decide (failed_starts history <= budget) then (TaskRestarting, 7%Z)
      else (TaskNotRestarting, 0%Z)
  | _ => (TaskNotRestarting, 0%Z)
  end.

Definition externals_budget : Externals :=
  {| md5_hex := fun s => s;
     fmt_q := quote_ascii;
     DriverStatsNotImplemented := "stats not implemented for driver";
     DefaultKillTimeout := 5 * Second;
     GetState := budget_policy 2;
     GetReason := fun _ => "start failed" |}.

(** The scenarios of the specification, as moves of the environment.
    S1: the driver starts the task with handle [h1], the handle exits, the
    restart policy gives up. *)
Definition scenario_S1 : list Env :=
  [ENewDriver None; ESelPrestart; ESelStart; ENewDriver None;
   EStart (inr h1); ESelWait (Some "ok-exit")].

(** S2: the start fails three times. *)
Definition scenario_S2 : list Env :=
  [ENewDriver None; ESelPrestart;
   ESelStart; ENewDriver None; EStart (inl "boom"); ETimer;
   ESelStart; ENewDriver None; EStart (inl "boom"); ETimer;
   ESelStart; ENewDriver None; EStart (inl "boom")].

(** S3: a restart is requested while the task runs; later the handle exits. *)
Definition scenario_S3 : list Env :=
  [ENewDriver None; ESelPrestart; ESelStart; ENewDriver None; EStart (inr h1);
   ESelRestart "admin" "rolling"; EShutdown None; ESelWait (Some "killed"); ETimer;
   ESelStart; ENewDriver None; EStart (inr h1); ESelWait (Some "ok-exit")].

(** S4: the task is destroyed while it runs. *)
Definition shutdown_event : TaskEvent :=
  SetKillReason "shutdown" (NewTaskEvent TaskKilling).

Definition scenario_S4 : list Env :=
  [ENewDriver None; ESelPrestart; ESelStart; ENewDriver None; EStart (inr h1);
   ECmd (CmdDestroy (Some shutdown_event)); ESelDestroy;
   EShutdown None; ESelWait (Some "killed")].

(** S5: the same, and [Shutdown] fails five times. *)
Definition scenario_S5 : list Env :=
  [ENewDriver None; ESelPrestart; ESelStart; ENewDriver None; EStart (inr h1);
   ECmd (CmdDestroy (Some shutdown_event)); ESelDestroy;
   EShutdown (Some "busy"); EShutdown (Some "busy"); EShutdown (Some "busy");
   EShutdown (Some "busy"); EShutdown (Some "stuck"); ESelWait (Some "killed")].

End Examples.

(** * Properties of the statement builder *)

Module BuilderFacts.
Import Builder.

Section RangeFacts.
Import Builder.
Context `{Strconv} {Arg : Type}.
Implicit Types (ts : list (Atom Arg)) (columns values : list string) (args : list Arg).
Local Abbreviation plain_atom := (@plain_atom Arg).

Lemma map_fmap {A B} (f : A -> B) (l : list A) : map f l = f <$> l.
Proof. induction l as [|a l IH]; [done|]. cbn. by rewrite IH. Qed.

Lemma index_Some {A} (l : list A) i x : l !! i = Some x -> index l i = Returns x.
Proof. unfold index. now intros ->. Qed.

Lemma BuildValueComparison_ok column value op :
  column <> "" -> value <> "" ->
  BuildValueComparison column value op
  = ("(" +:+ EscapeName column +:+ " " +:+ op +:+ " " +:+ value +:+ ")", None).
Proof.
  intros Hc Hv. unfold BuildValueComparison.
  apply String.eqb_neq in Hc, Hv. now rewrite Hc, Hv.
Qed.


Lemma equals_loop_ok ts : forall pre comparisons,
  Forall plain_atom ts ->
  equals_loop (map (fun t => t.1.2) (pre ++ ts)) (map (fun t => t.1.1) ts)
    (length pre) comparisons
  = Returns (comparisons ++ map (atom_text "=") ts, None).
Proof.
  induction ts as [|t ts IH]; intros pre comparisons Hts; simpl.
  - now rewrite app_nil_r.
  - inversion Hts as [|? ? [Hc Hv] Hts']; subst.
    rewrite (index_Some _ _ t.1.2).
    2:{ rewrite map_fmap, list_lookup_fmap, lookup_app_r by lia. by rewrite Nat.sub_diag. }
    simpl. rewrite BuildValueComparison_ok by done.
    replace (pre ++ t :: ts) with ((pre ++ [t]) ++ ts) by now rewrite <- app_assoc.
    replace (S (length pre)) with (length (pre ++ [t])) by (rewrite length_app; simpl; lia).
    rewrite IH by done. now rewrite <- app_assoc.
Qed.

Lemma BuildEqualsComparison_ok ts :
  ts <> [] -> Forall plain_atom ts ->
  BuildEqualsComparison (map (fun t => t.1.1) ts) (map (fun t => t.1.2) ts)
  = Returns (render (AllEq ts), None).
Proof.
  intros Hne Hts. unfold BuildEqualsComparison.
  rewrite !length_map.
  destruct (decide (length ts = 0)) as [E|_].
  { destruct ts; [done | discriminate]. }
  destruct (decide (length ts <> length ts)) as [E|_]; [done|].
  pose proof (equals_loop_ok ts [] [] Hts) as E. simpl in E. rewrite E. reflexivity.
Qed.

Lemma take_length_app' {A} (l k : list A) n : n = length l -> take n (l ++ k) = l.
Proof. intros ->. by rewrite take_app_length. Qed.

Lemma range_loop_ok rest : forall pre sign comparisons explodedArgs,
  Forall plain_atom (pre ++ rest) ->
  range_loop (map (fun t => t.1.1) (pre ++ rest)) (map (fun t => t.1.2) (pre ++ rest))
    (map snd (pre ++ rest)) sign (map (fun t => t.1.1) rest) (length pre)
    comparisons explodedArgs
  = Returns (comparisons ++ map render (disjuncts pre rest sign),
             explodedArgs ++ concat (map args_of (disjuncts pre rest sign)), None).
Proof.
  induction rest as [|t rest IH]; intros pre sign comparisons explodedArgs Hall.
  - simpl. by rewrite !app_nil_r.
  - assert (Hall' : Forall plain_atom ((pre ++ [t]) ++ rest)) by now rewrite <- app_assoc.
    assert (Ht : plain_atom t).
    { apply Forall_app in Hall as [_ Hr]. by inversion Hr. }
    assert (Hpre : Forall plain_atom pre) by (by apply Forall_app in Hall as [? _]).
    destruct Ht as [Hc Hv].
    cbn [range_loop map].
    rewrite (index_Some _ _ t.1.2).
    2:{ rewrite map_fmap, list_lookup_fmap, lookup_app_r by lia. by rewrite Nat.sub_diag. }
    cbn [exec_bind]. rewrite BuildValueComparison_ok by done.
    rewrite (index_Some (map snd (pre ++ t :: rest)) _ t.2).
    2:{ rewrite map_fmap, list_lookup_fmap, lookup_app_r by lia. by rewrite Nat.sub_diag. }
    rewrite !map_app, !take_length_app' by (by rewrite length_map).
    specialize (IH (pre ++ [t]) sign).
    rewrite <- !app_assoc in IH. cbn [app] in IH.
    rewrite length_app, Nat.add_1_r in IH. rewrite !map_app in IH. cbn [map] in IH.
    destruct pre as [|p pre].
    + cbn [length map]. destruct (decide (0 < 0)) as [?|_]; [lia|].
      cbn [exec_bind]. rewrite IH by done.
      cbn [disjuncts map concat render args_of app length].
      by rewrite <- !app_assoc.
    + destruct (decide (0 < length (map (fun t0 : Atom Arg => t0.1.1) (p :: pre)))) as [_|Hn].
      2:{ cbn in Hn. lia. }
      rewrite BuildEqualsComparison_ok by done.
      cbn [exec_bind]. rewrite IH by done.
      cbn [disjuncts map concat render args_of app length].
      by rewrite <- !app_assoc.
Qed.

Lemma atoms_columns columns values args :
  length values = length columns -> length args = length columns ->
  map (fun t : Atom Arg => t.1.1) (atoms columns values args) = columns.
Proof.
  intros Hv Ha. unfold atoms. rewrite map_fmap.
  change (fun t : Atom Arg => t.1.1) with (fst ∘ (fst : Atom Arg -> string * string)).
  rewrite list_fmap_compose, !fst_zip; [done | lia |].
  rewrite length_zip. lia.
Qed.

Lemma atoms_values columns values args :
  length values = length columns -> length args = length columns ->
  map (fun t : Atom Arg => t.1.2) (atoms columns values args) = values.
Proof.
  intros Hv Ha. unfold atoms. rewrite map_fmap.
  change (fun t : Atom Arg => t.1.2) with (snd ∘ (fst : Atom Arg -> string * string)).
  rewrite list_fmap_compose, fst_zip, snd_zip; [done | lia |].
  rewrite length_zip. lia.
Qed.

Lemma atoms_args columns values args :
  length values = length columns -> length args = length columns ->
  map snd (atoms columns values args) = args.
Proof.
  intros Hv Ha. unfold atoms. rewrite map_fmap, snd_zip; [done|].
  rewrite length_zip. lia.
Qed.

Lemma atoms_plain columns values args :
  length values = length columns -> length args = length columns ->
  Forall (fun c => c <> "") columns -> Forall (fun v => v <> "") values ->
  Forall plain_atom (atoms columns values args).
Proof.
  intros Hv Ha Hc Hvs. apply Forall_forall. intros [[c v] a] Hin.
  apply list_elem_of_lookup in Hin as [i Hi].
  unfold atoms in Hi. apply lookup_zip_with_Some in Hi as (cv & a' & E & Hcv & _).
  apply lookup_zip_with_Some in Hcv as (c' & v' & E' & Hc' & Hv').
  simplify_eq. split; simpl.
  - eapply Forall_lookup_1 in Hc; eauto.
  - eapply Forall_lookup_1 in Hvs; eauto.
Qed.

Lemma BuildRangeComparison_ok columns values args (op : string) :
  columns <> [] ->
  length values = length columns ->
  length args = length columns ->
  Forall (fun c => c <> "") columns ->
  Forall (fun v => v <> "") values ->
  BuildRangeComparison columns values args op
  = Returns (render (range_pred (atoms columns values args)
                       (strict_sign op) (inclusive_sign op)),
             args_of (range_pred (atoms columns values args)
                        (strict_sign op) (inclusive_sign op)),
             None).
Proof.
  intros Hne Hv Ha Hc Hvs.
  pose proof (atoms_plain _ _ _ Hv Ha Hc Hvs) as Hplain.
  pose proof (atoms_columns _ _ _ Hv Ha) as Ec.
  pose proof (atoms_values _ _ _ Hv Ha) as Ev.
  pose proof (atoms_args _ _ _ Hv Ha) as Ea.
  set (ts := atoms columns values args) in *.
  assert (Hts : ts <> []).
  { intros E. rewrite E in Ec. simpl in Ec. congruence. }
  unfold BuildRangeComparison.
  destruct (decide (length columns = 0)) as [E|_].
  { destruct columns; [done | discriminate]. }
  destruct (decide (length columns <> length values)) as [E|_]; [lia|].
  destruct (decide (length columns <> length args)) as [E|_]; [lia|].
  assert (Hloop : forall sign incl,
    (do r <- range_loop columns values args sign columns 0 [] [];
     match r with
     | (_, explodedArgs, Some err) => Returns ("", explodedArgs, Some err)
     | (comparisons, explodedArgs, None) =>
         if (incl : bool) then
           do eq <- BuildEqualsComparison columns values;
           match eq with
           | (_, Some _) => Returns ("", explodedArgs, None)
           | (comparison, None) =>
               Returns ("(" +:+ Join (comparisons ++ [comparison]) " or " +:+ ")",
                        explodedArgs ++ args, None)
           end
         else Returns ("(" +:+ Join comparisons " or " +:+ ")", explodedArgs, None)
     end)
    = Returns (render (range_pred ts sign incl), args_of (range_pred ts sign incl), None)).
  { intros sign incl.
    pose proof (range_loop_ok ts [] sign [] [] Hplain) as El.
    cbn [app length] in El. rewrite Ec, Ev, Ea in El. rewrite El. cbn [exec_bind].
    unfold range_pred. cbn [render args_of].
    destruct incl.
    - pose proof (BuildEqualsComparison_ok ts Hts Hplain) as Ee.
      rewrite Ec, Ev in Ee. rewrite Ee. cbn [exec_bind].
      rewrite <- Ea at 1. rewrite !map_app, concat_app. cbn [map concat render args_of].
      by rewrite app_nil_r.
    - by rewrite !app_nil_r. }
  unfold strict_sign, inclusive_sign, LessThanOrEqualsComparisonSign,
    GreaterThanOrEqualsComparisonSign, LessThanComparisonSign, GreaterThanComparisonSign.
  destruct (String.eqb op "<=") eqn:E1.
  - exact (Hloop "<" true).
  - destruct (String.eqb op ">=") eqn:E2.
    + exact (Hloop ">" true).
    + exact (Hloop op false).
Qed.

(** C3.  For a non-empty column list with as many values and arguments,
    all columns and values non-empty, [BuildRangeComparison] returns the
    text of the disjunction [(c1 op v1) OR (c1 = v1 AND c2 op v2) OR ...]
    over the strict sign, every identifier between backticks, followed by
    the conjunction of all equalities when the sign is [<=] or [>=]; and its
    exploded arguments are the arguments of the placeholders of that
    predicate, read from left to right. *)
Theorem BuildRangeComparison_disjunction columns values args (op : string) :
  columns <> [] ->
  length values = length columns ->
  length args = length columns ->
  Forall (fun c => c <> "") columns ->
  Forall (fun v => v <> "") values ->
  BuildRangeComparison columns values args op
  = Returns (render (range_pred (atoms columns values args)
                       (strict_sign op) (inclusive_sign op)),
             args_of (range_pred (atoms columns values args)
                        (strict_sign op) (inclusive_sign op)),
             None).
Proof. apply BuildRangeComparison_ok. Qed.


(** C5.  On valid input the chunked select forces the index of the unique
    key, written between backticks like every other identifier of the
    statement; its [where] clause is the inclusive upper-bound predicate
    alone, it orders ascending by the unique-key columns (enum columns
    inside [concat]) and limits by the chunk size; its exploded arguments
    are those of the upper bound, whatever the lower bound is. *)
Theorem BuildRangeSelectQuery_upper_bound_only
    (databaseName originalTableName ghostTableName : string)
    (sharedColumns mappedSharedColumns : list string) (uniqueKey : string)
    (uniqueKeyColumns : ColumnList) (rangeStartValues rangeEndValues : list string)
    (rangeStartArgs rangeEndArgs : list Arg) (includeRangeStartValues : bool)
    (chunkSize : Z) :
  sharedColumns <> [] ->
  Names uniqueKeyColumns <> [] ->
  length rangeEndValues = Len uniqueKeyColumns ->
  length rangeEndArgs = Len uniqueKeyColumns ->
  Forall (fun c => c <> "") (Names uniqueKeyColumns) ->
  Forall (fun v => v <> "") rangeEndValues ->
  BuildRangeSelectQuery databaseName originalTableName ghostTableName sharedColumns
    mappedSharedColumns uniqueKey uniqueKeyColumns rangeStartValues rangeEndValues
    rangeStartArgs rangeEndArgs includeRangeStartValues chunkSize
  = Returns
      (select_text (Join (map backticked sharedColumns) ", ")
         (backticked databaseName) (backticked originalTableName) (backticked uniqueKey)
         (render (range_pred (atoms (Names uniqueKeyColumns) rangeEndValues rangeEndArgs)
                    "<" true))
         (Join (map ascending (columns uniqueKeyColumns)) ", ") chunkSize,
       args_of (range_pred (atoms (Names uniqueKeyColumns) rangeEndValues rangeEndArgs)
                  "<" true),
       None).
Proof.
  intros Hs Hn Hv Ha Hc Hvs. unfold BuildRangeSelectQuery.
  destruct (decide (length sharedColumns = 0)) as [E|_].
  { destruct sharedColumns; [done | discriminate]. }
  assert (Hl : length (Names uniqueKeyColumns) = Len uniqueKeyColumns)
    by apply length_map.
  rewrite BuildRangeComparison_ok by (done || lia).
  reflexivity.
Qed.

(** C4, amended.  When both builders succeed on the same unique-key
    columns and range bounds, the arguments of the range-end predicate are
    all of the select's exploded arguments and the tail of the insert's,
    which begin with the exploded arguments of the range start. *)
Theorem range_insert_select_args
    (databaseName originalTableName ghostTableName : string)
    (sharedColumns mappedSharedColumns : list string) (uniqueKey : string)
    (uniqueKeyColumns : ColumnList) (rangeStartValues rangeEndValues : list string)
    (rangeStartArgs rangeEndArgs : list Arg) (includeRangeStartValues : bool)
    (transactionalTable : bool) (chunkSize : Z) (insertArgs selectArgs : list Arg) :
  exploded (BuildRangeInsertQuery databaseName originalTableName ghostTableName
              sharedColumns mappedSharedColumns uniqueKey uniqueKeyColumns
              rangeStartValues rangeEndValues rangeStartArgs rangeEndArgs
              includeRangeStartValues transactionalTable) = Some insertArgs ->
  exploded (BuildRangeSelectQuery databaseName originalTableName ghostTableName
              sharedColumns mappedSharedColumns uniqueKey uniqueKeyColumns
              rangeStartValues rangeEndValues rangeStartArgs rangeEndArgs
              includeRangeStartValues chunkSize) = Some selectArgs ->
  exists startArgs,
    exploded (BuildRangeComparison (Names uniqueKeyColumns) rangeStartValues rangeStartArgs
                (if includeRangeStartValues then ">=" else ">")) = Some startArgs
    /\ exploded (BuildRangeComparison (Names uniqueKeyColumns) rangeEndValues rangeEndArgs
                   "<=") = Some selectArgs
    /\ insertArgs = startArgs ++ selectArgs
    /\ selectArgs `suffix_of` insertArgs.
Proof.
  unfold BuildRangeInsertQuery, BuildRangeSelectQuery.
  destruct (decide (length sharedColumns = 0)) as [E|_]; [discriminate|].
  change (if includeRangeStartValues
          then GreaterThanOrEqualsComparisonSign else GreaterThanComparisonSign)
    with (if includeRangeStartValues then ">=" else ">").
  change LessThanOrEqualsComparisonSign with "<=".
  destruct (BuildRangeComparison (Names uniqueKeyColumns) rangeStartValues rangeStartArgs _)
    as [[[c1 a1] [e1|]]|] ; cbn; try discriminate.
  destruct (BuildRangeComparison (Names uniqueKeyColumns) rangeEndValues rangeEndArgs _)
    as [[[c2 a2] [e2|]]|] ; cbn; try discriminate.
  intros [= <-] [= <-]. exists a1. repeat split; try done. by exists a1.
Qed.


Lemma equals_loop_returns values rest : forall i comparisons,
  i + length rest <= length values ->
  exists r, equals_loop values rest i comparisons = Returns r.
Proof.
  induction rest as [|c rest IH]; intros i comparisons Hlen; simpl.
  - eauto.
  - simpl in Hlen. destruct (lookup_lt_is_Some_2 values i) as [v Hv]; [lia|].
    rewrite (index_Some _ _ v Hv). simpl.
    destruct (BuildValueComparison c v EqualsComparisonSign) as [cmp [err|]]; [eauto|].
    apply IH. lia.
Qed.

Lemma BuildEqualsPreparedComparison_returns columns :
  exists r, BuildEqualsPreparedComparison columns = Returns r.
Proof.
  unfold BuildEqualsPreparedComparison, BuildEqualsComparison, buildPreparedValues.
  rewrite length_replicate.
  destruct (decide (length columns = 0)); [eauto|].
  destruct (decide (length columns <> length columns)); [done|].
  destruct (equals_loop_returns (replicate (length columns) "?") columns 0 [])
    as [[cmps [err|]] E].
  { rewrite length_replicate. lia. }
  all: rewrite E; simpl; eauto.
Qed.

Lemma exec_map_returns {A B} (f : A -> Exec B) (l : list A) :
  Forall (fun x => exists y, f x = Returns y) l ->
  exists ys, exec_map f l = Returns ys.
Proof.
  induction 1 as [|x l [y Hy] _ [ys IH]]; simpl; [eauto|].
  rewrite Hy. simpl. rewrite IH. simpl. eauto.
Qed.

End RangeFacts.

Section DMLFacts.
Context `{Strconv} {Arg : Type} `{ArgConv Arg}.

Lemma convert_args_returns (tableColumns cols : ColumnList) (values : list Arg) :
  Forall (fun c => ordinal tableColumns (Name c) < length values) (columns cols) ->
  exists l, convert_args tableColumns cols values = Returns l.
Proof.
  intros Hall. unfold convert_args. apply exec_map_returns.
  eapply Forall_impl; [exact Hall|]. intros c Hc. cbv beta in *.
  destruct (lookup_lt_is_Some_2 values _ Hc) as [v Hv].
  rewrite (index_Some _ _ v Hv). simpl. eauto.
Qed.

Lemma ordinal_shared (tableColumns sharedColumns : ColumnList) n :
  ordinals_in_range tableColumns -> Len tableColumns = n ->
  IsSubsetOf sharedColumns tableColumns = true ->
  Forall (fun c => ordinal tableColumns (Name c) < n) (columns sharedColumns).
Proof.
  intros Hwf <- Hsub. unfold IsSubsetOf in Hsub.
  apply Forall_forall. intros c Hc.
  rewrite forallb_forall in Hsub. apply list_elem_of_In in Hc.
  specialize (Hsub c Hc). apply bool_decide_eq_true in Hsub as [i Hi].
  unfold ordinal. rewrite Hi. simpl. exact (Hwf _ _ Hi).
Qed.

Lemma ordinal_own (tableColumns : ColumnList) :
  ordinals_in_range tableColumns ->
  Forall (fun c => ordinal tableColumns (Name c) < Len tableColumns) (columns tableColumns).
Proof.
  intros Hwf. apply Forall_forall. intros c Hc.
  unfold ordinal. destruct (Ordinals tableColumns !! Name c) as [i|] eqn:Hi; simpl.
  - exact (Hwf _ _ Hi).
  - unfold Len. destruct (columns tableColumns); [by apply elem_of_nil in Hc | simpl; lia].
Qed.

(** C10.  Once the four checks of [BuildDMLUpdateQuery] pass, whatever
    the two clause builders report, every result that the function returns
    has a nil error and holds the statement built around the text of the
    two clauses (the empty text for a builder that failed); and the
    function does return (no conversion reads out of range) when the
    ordinals of the table's column list are positions in it. *)
Theorem BuildDMLUpdateQuery_nil_error (databaseName tableName : string)
    (tableColumns sharedColumns mappedSharedColumns : ColumnList)
    (columnValues : list (list Arg)) (whereArgs : list Arg) :
  Forall (fun valueArgs => length valueArgs = Len tableColumns) columnValues ->
  length whereArgs = Len tableColumns ->
  IsSubsetOf sharedColumns tableColumns = true ->
  Len sharedColumns <> 0 ->
  exists setClause setErr equalsComparison equalsErr,
    BuildSetPreparedClause mappedSharedColumns = (setClause, setErr)
    /\ BuildEqualsPreparedComparison (Names tableColumns)
       = Returns (equalsComparison, equalsErr)
    /\ (forall result sharedArgs uniqueKeyArgs err,
          BuildDMLUpdateQuery databaseName tableName tableColumns sharedColumns
            mappedSharedColumns columnValues whereArgs
          = Returns (result, sharedArgs, uniqueKeyArgs, err) ->
          err = None
          /\ result = update_text (EscapeName databaseName) (EscapeName tableName)
                        setClause equalsComparison)
    /\ (ordinals_in_range tableColumns ->
        exists sharedArgs uniqueKeyArgs,
          BuildDMLUpdateQuery databaseName tableName tableColumns sharedColumns
            mappedSharedColumns columnValues whereArgs
          = Returns (update_text (EscapeName databaseName) (EscapeName tableName)
                       setClause equalsComparison,
                     sharedArgs, uniqueKeyArgs, None)).
Proof.
  intros Hvals Hwhere Hsub Hshared.
  destruct (BuildEqualsPreparedComparison_returns (Names tableColumns)) as [[eq eqErr] Eeq].
  destruct (BuildSetPreparedClause mappedSharedColumns) as [setClause setErr] eqn:Eset.
  exists setClause, setErr, eq, eqErr. split; [done|]. split; [done|].
  unfold BuildDMLUpdateQuery.
  assert (E1 : forallb (fun valueArgs => bool_decide (length valueArgs = Len tableColumns))
                 columnValues = true).
  { apply forallb_forall. intros v Hv. apply bool_decide_eq_true.
    rewrite Forall_forall in Hvals. apply Hvals. by apply list_elem_of_In. }
  rewrite E1, Hsub, Eset, Eeq. cbn [negb].
  destruct (decide (length whereArgs <> Len tableColumns)) as [?|_]; [done|].
  destruct (decide (Len sharedColumns = 0)) as [?|_]; [done|].
  split.
  - intros result sharedArgs uniqueKeyArgs err.
    destruct (exec_map (convert_args tableColumns sharedColumns) columnValues)
      as [rows|]; cbn [exec_bind]; [|discriminate].
    destruct (convert_args tableColumns tableColumns whereArgs)
      as [uk|]; cbn [exec_bind]; [|discriminate].
    by intros [= <- _ _ <-].
  - intros Hwf.
    destruct (exec_map_returns (convert_args tableColumns sharedColumns) columnValues)
      as [rows Erows].
    { eapply Forall_impl; [exact Hvals|]. intros v Hv. cbv beta in Hv.
      apply convert_args_returns. rewrite Hv. by apply ordinal_shared. }
    destruct (convert_args_returns tableColumns tableColumns whereArgs) as [uk Euk].
    { rewrite Hwhere. by apply ordinal_own. }
    exists (concat rows), uk. rewrite Erows, Euk. cbn [exec_bind]. done.
Qed.

End DMLFacts.

(** The example of the specification: columns [a], [b] and the sign [<=]. *)
Lemma BuildRangeComparison_disjunction_witness :
  BuildRangeComparison (H := PlainUnquote.strconv) ["account_id"; "b"] ["?"; "?"]
    ["a_v"; "b_v"] "<="
  = Returns ("((`account_id` < ?) or (((`account_id` = ?)) AND (`b` < ?)) or ((`account_id` = ?) and (`b` = ?)))",
             ["a_v"; "a_v"; "b_v"; "a_v"; "b_v"], None).
Proof.
  rewrite (BuildRangeComparison_disjunction (H := PlainUnquote.strconv)
             ["account_id"; "b"] ["?"; "?"] ["a_v"; "b_v"] "<=");
    [reflexivity | done | reflexivity | reflexivity
    | repeat constructor; done | repeat constructor; done].
Defined.


Lemma BuildRangeSelectQuery_upper_bound_only_witness :
  BuildRangeSelectQuery (H := PlainUnquote.strconv) "db" "t" "g" ["a"; "b"] []
    "idx_account" Examples.enum_key [] ["?"] [] ["hi"] false 100
  = Returns
      (select_text "`a`, `b`" "`db`" "`t`" "`idx_account`" "((`a` < ?) or ((`a` = ?)))"
         "concat(`a`) asc" 100,
       ["hi"; "hi"], None).
Proof.
  rewrite (BuildRangeSelectQuery_upper_bound_only (H := PlainUnquote.strconv));
    [reflexivity | done | done | reflexivity | reflexivity
    | repeat constructor; done | repeat constructor; done].
Defined.

(** C4 as stated fails: on one key column with range start [lo] and range
    end [hi], the select's arguments are not a prefix of the insert's, nor
    the other way round. *)
Lemma range_insert_select_args_not_prefix :
  exploded (BuildRangeInsertQuery (H := PlainUnquote.strconv) "db" "t" "g" ["a"] ["a"]
              "PRIMARY" Examples.enum_key ["?"] ["?"] ["lo"] ["hi"] false false)
  = Some ["lo"; "hi"; "hi"]
  /\ exploded (BuildRangeSelectQuery (H := PlainUnquote.strconv) "db" "t" "g" ["a"] ["a"]
                 "PRIMARY" Examples.enum_key ["?"] ["?"] ["lo"] ["hi"] false 100)
     = Some ["hi"; "hi"]
  /\ ~ ["hi"; "hi"] `prefix_of` ["lo"; "hi"; "hi"]
  /\ ~ ["lo"; "hi"; "hi"] `prefix_of` ["hi"; "hi"].
Proof.
  split; [reflexivity|]. split; [reflexivity|].
  split; intros [k Hk]; discriminate Hk.
Qed.

Lemma range_insert_select_args_witness :
  exists startArgs,
    exploded (BuildRangeComparison (H := PlainUnquote.strconv) (Names Examples.enum_key) ["?"] ["lo"]
                ">") = Some startArgs
    /\ exploded (BuildRangeComparison (H := PlainUnquote.strconv) (Names Examples.enum_key) ["?"]
                   ["hi"] "<=") = Some ["hi"; "hi"]
    /\ ["lo"; "hi"; "hi"] = startArgs ++ ["hi"; "hi"]
    /\ ["hi"; "hi"] `suffix_of` ["lo"; "hi"; "hi"].
Proof.
  apply (range_insert_select_args (H := PlainUnquote.strconv) "db" "t" "g" ["a"] ["a"]
           "PRIMARY" Examples.enum_key ["?"] ["?"] ["lo"] ["hi"] false false 100);
    reflexivity.
Defined.


(** With an empty list of mapped shared columns the set-clause builder
    fails, and the update statement is returned with a nil error. *)
Lemma BuildDMLUpdateQuery_nil_error_witness :
  BuildSetPreparedClause (H := PlainUnquote.strconv) Examples.no_columns
  = ("", Some "Got 0 columns in BuildSetPreparedClause")
  /\ exists sharedArgs uniqueKeyArgs,
       BuildDMLUpdateQuery (H := PlainUnquote.strconv) (H0 := Examples.plain_args)
         "db" "t" Examples.enum_key Examples.enum_key Examples.no_columns
         [["new"]] ["old"]
       = Returns (update_text "`db`" "`t`" "" "((`a` = ?))",
                  sharedArgs, uniqueKeyArgs, None).
Proof.
  split; [reflexivity|].
  destruct (BuildDMLUpdateQuery_nil_error (H := PlainUnquote.strconv)
              (H0 := Examples.plain_args) "db" "t" Examples.enum_key Examples.enum_key
              Examples.no_columns [["new"]] ["old"])
    as (setClause & setErr & eq & eqErr & Eset & Eeq & _ & Hret).
  - repeat constructor.
  - reflexivity.
  - reflexivity.
  - discriminate.
  - injection Eset as <- <-. injection Eeq as <- <-. apply Hret.
    apply map_Forall_singleton. unfold Len. simpl. lia.
Defined.

End BuilderFacts.

(** * Further properties of the statement builder

    When the builders succeed, how many arguments they return and how many
    placeholders they write, what the range predicate means, and how the
    DML statements share their arguments. *)

Module BuilderLaws.
Import Builder BuilderFacts.

Section EqualsFacts.
Context `{Strconv}.

Lemma BuildValueComparison_cases column value op :
  (column <> "" /\ value <> ""
   /\ BuildValueComparison column value op
      = ("(" +:+ EscapeName column +:+ " " +:+ op +:+ " " +:+ value +:+ ")", None))
  \/ ((column = "" \/ value = "")
      /\ exists err, BuildValueComparison column value op = ("", Some err)).
Proof.
  unfold BuildValueComparison.
  destruct (String.eqb column "") eqn:Ec.
  { apply String.eqb_eq in Ec. right. eauto. }
  destruct (String.eqb value "") eqn:Ev.
  { apply String.eqb_eq in Ev. right. eauto. }
  apply String.eqb_neq in Ec, Ev. left. done.
Qed.

Lemma equals_loop_cases rest : forall values i comparisons vs,
  drop i values = vs -> length rest <= length vs ->
  (Forall (fun c => c <> "") rest /\ Forall (fun v => v <> "") (take (length rest) vs)
   /\ equals_loop values rest i comparisons
      = Returns (comparisons ++ zip_with equality_text rest vs, None))
  \/ (~ (Forall (fun c => c <> "") rest /\ Forall (fun v => v <> "") (take (length rest) vs))
      /\ exists err, equals_loop values rest i comparisons = Returns ([], Some err)).
Proof.
  induction rest as [|c rest IH]; intros values i comparisons vs Hd Hlen.
  - left. simpl. rewrite app_nil_r. repeat split; constructor.
  - destruct vs as [|v vs]; [simpl in Hlen; lia|].
    assert (Hi : values !! i = Some v).
    { pose proof (lookup_drop values i 0) as E. rewrite Hd, Nat.add_0_r in E. done. }
    cbn [equals_loop]. rewrite (BuilderFacts.index_Some _ _ _ Hi). cbn [exec_bind].
    destruct (BuildValueComparison_cases c v EqualsComparisonSign)
      as [(Hc & Hv & ->)|[Hbad [err ->]]].
    + assert (Hd' : drop (S i) values = vs).
      { pose proof (drop_drop values 1 i) as E. rewrite Hd in E. simpl in E.
        rewrite Nat.add_1_r in E. done. }
      simpl in Hlen.
      destruct (IH values (S i)
                  (comparisons ++ ["(" +:+ EscapeName c +:+ " " +:+ EqualsComparisonSign
                                   +:+ " " +:+ v +:+ ")"]) vs Hd' ltac:(lia))
        as [(Hr & Hvs & ->)|[Hn [err ->]]].
      * left. repeat split; [by constructor | by constructor |].
        cbn [zip_with]. by rewrite <- app_assoc.
      * right. split; [|eauto]. intros [Hcs Hvs]. apply Hn.
        inversion Hcs; inversion Hvs; subst. done.
    + right. split; [|eauto]. intros [Hcs Hvs].
      inversion Hcs; inversion Hvs; subst. destruct Hbad; done.
Qed.

Lemma BuildEqualsComparison_cases columns values :
  (columns <> [] /\ length columns = length values
   /\ Forall (fun c => c <> "") columns /\ Forall (fun v => v <> "") values
   /\ BuildEqualsComparison columns values
      = Returns ("(" +:+ Join (zip_with equality_text columns values) " and " +:+ ")", None))
  \/ (~ (columns <> [] /\ length columns = length values
         /\ Forall (fun c => c <> "") columns /\ Forall (fun v => v <> "") values)
      /\ exists err, BuildEqualsComparison columns values = Returns ("", Some err)).
Proof.
  unfold BuildEqualsComparison.
  destruct (decide (length columns = 0)) as [E|Hne].
  { right. split; [|eauto]. intros (Hc & _). destruct columns; [done | discriminate]. }
  destruct (decide (length columns <> length values)) as [E|Hlen].
  { right. split; [|eauto]. intros (_ & Hl & _). done. }
  assert (Hl : length columns = length values) by lia.
  destruct (equals_loop_cases columns values 0 [] values eq_refl ltac:(lia))
    as [(Hc & Hv & ->)|[Hn [err ->]]]; cbn [exec_bind].
  - left. rewrite Hl, firstn_all in Hv. repeat split; try done.
    intros ->. done.
  - right. split; [|eauto]. intros (_ & _ & Hc & Hv). apply Hn.
    by rewrite Hl, firstn_all.
Qed.

End EqualsFacts.

Section RangeCases.
Context `{Strconv} {Arg : Type}.
Implicit Types (ts : list (Atom Arg)) (columns values : list string) (args : list Arg).

Lemma range_loop_bad rest : forall pre sign comparisons explodedArgs,
  Forall (@plain_atom Arg) pre -> ~ Forall (@plain_atom Arg) rest ->
  exists partial err,
    range_loop (map (fun t => t.1.1) (pre ++ rest)) (map (fun t => t.1.2) (pre ++ rest))
      (map snd (pre ++ rest)) sign (map (fun t => t.1.1) rest) (length pre)
      comparisons explodedArgs
    = Returns ([], partial, Some err).
Proof.
  induction rest as [|t rest IH]; intros pre sign comparisons explodedArgs Hpre Hbad.
  - destruct Hbad. constructor.
  - cbn [range_loop map].
    rewrite (index_Some _ _ t.1.2).
    2:{ rewrite map_fmap, list_lookup_fmap, lookup_app_r by lia. by rewrite Nat.sub_diag. }
    cbn [exec_bind].
    destruct (BuildValueComparison_cases t.1.1 t.1.2 sign)
      as [(Hc & Hv & ->)|[Hb [err ->]]]; [|eauto].
    assert (Hrest : ~ Forall (@plain_atom Arg) rest).
    { intros Hr. apply Hbad. constructor; [by split | done]. }
    assert (Hpre' : Forall (@plain_atom Arg) (pre ++ [t])).
    { apply Forall_app. split; [done|]. constructor; [by split | constructor]. }
    rewrite (index_Some (map snd (pre ++ t :: rest)) _ t.2).
    2:{ rewrite map_fmap, list_lookup_fmap, lookup_app_r by lia. by rewrite Nat.sub_diag. }
    rewrite !map_app, !take_length_app' by (by rewrite length_map).
    pose proof (IH (pre ++ [t]) sign) as IH'.
    rewrite <- !app_assoc in IH'. cbn [app] in IH'.
    rewrite length_app, Nat.add_1_r in IH'. rewrite !map_app in IH'. cbn [map] in IH'.
    destruct pre as [|p pre].
    + cbn [length map]. destruct (decide (0 < 0)) as [?|_]; [lia|].
      cbn [exec_bind]. apply IH'; done.
    + destruct (decide (0 < length (map (fun t0 : Atom Arg => t0.1.1) (p :: pre)))) as [_|Hn].
      2:{ cbn in Hn. lia. }
      rewrite BuildEqualsComparison_ok by done.
      cbn [exec_bind]. apply IH'; done.
Qed.

Lemma atoms_plain_inv columns values args :
  length values = length columns -> length args = length columns ->
  Forall (@plain_atom Arg) (atoms columns values args) ->
  Forall (fun c => c <> "") columns /\ Forall (fun v => v <> "") values.
Proof.
  intros Hv Ha Hp.
  rewrite <- (atoms_columns columns values args Hv Ha) at 1.
  rewrite <- (atoms_values columns values args Hv Ha) at 2.
  rewrite !map_fmap, !Forall_fmap. split; eapply Forall_impl; try exact Hp.
  - by intros ? [? ?].
  - by intros ? [? ?].
Qed.

Lemma BuildRangeComparison_cases columns values args (op : string) :
  (comparable columns values args
   /\ BuildRangeComparison columns values args op
      = Returns (render (range_pred (atoms columns values args)
                           (strict_sign op) (inclusive_sign op)),
                 args_of (range_pred (atoms columns values args)
                            (strict_sign op) (inclusive_sign op)),
                 None))
  \/ (~ comparable columns values args
      /\ exists partial err,
           BuildRangeComparison columns values args op = Returns ("", partial, Some err)).
Proof.
  destruct (decide (length columns = 0)) as [E0|Hne].
  { right. split.
    - intros (Hc & _). destruct columns; [done | discriminate].
    - unfold BuildRangeComparison. destruct (decide (length columns = 0)); [eauto | done]. }
  destruct (decide (length columns <> length values)) as [E1|Hlv].
  { right. split.
    - intros (_ & Hl & _). lia.
    - unfold BuildRangeComparison. destruct (decide (length columns = 0)); [done|].
      destruct (decide (length columns <> length values)); [eauto | done]. }
  destruct (decide (length columns <> length args)) as [E2|Hla].
  { right. split.
    - intros (_ & _ & Hl & _). lia.
    - unfold BuildRangeComparison. destruct (decide (length columns = 0)); [done|].
      destruct (decide (length columns <> length values)); [done|].
      destruct (decide (length columns <> length args)); [eauto | done]. }
  assert (Hv : length values = length columns) by lia.
  assert (Ha : length args = length columns) by lia.
  assert (Hc0 : columns <> []) by (intros ->; done).
  destruct (decide (Forall (fun c => c <> "") columns
                    /\ Forall (fun v => v <> "") values)) as [[Hc Hvs]|Hbad].
  { left. split; [done|]. by apply BuildRangeComparison_ok. }
  right. split; [intros (_ & _ & _ & Hc & Hvs); by apply Hbad|].
  assert (Hnp : ~ Forall (@plain_atom Arg) (atoms columns values args)).
  { intros Hp. apply Hbad. by eapply atoms_plain_inv. }
  pose proof (atoms_columns _ _ _ Hv Ha) as Ec.
  pose proof (atoms_values _ _ _ Hv Ha) as Ev.
  pose proof (atoms_args _ _ _ Hv Ha) as Ea.
  unfold BuildRangeComparison.
  destruct (decide (length columns = 0)); [done|].
  destruct (decide (length columns <> length values)); [done|].
  destruct (decide (length columns <> length args)); [done|].
  assert (Hloop : forall sign, exists partial err,
            range_loop columns values args sign columns 0 [] []
            = Returns ([], partial, Some err)).
  { intros sign.
    destruct (range_loop_bad (atoms columns values args) [] sign [] []
                ltac:(constructor) Hnp) as (partial & err & E).
    cbn [app length] in E. rewrite Ec, Ev, Ea in E. eauto. }
  unfold LessThanOrEqualsComparisonSign, GreaterThanOrEqualsComparisonSign,
    LessThanComparisonSign, GreaterThanComparisonSign.
  destruct (String.eqb op "<=") eqn:E1'.
  - destruct (Hloop "<") as (partial & err & E). cbn [String.eqb Ascii.eqb Bool.eqb].
    rewrite E. cbn. eauto.
  - destruct (String.eqb op ">=") eqn:E2'.
    + destruct (Hloop ">") as (partial & err & E). rewrite E. cbn. eauto.
    + destruct (Hloop op) as (partial & err & E). rewrite E. cbn. eauto.
Qed.

End RangeCases.

Section RangeExtras.
Context `{Strconv} {Arg : Type}.
Implicit Types (ts pre rest : list (Atom Arg)) (columns values : list string) (args : list Arg).

(** X1.  [BuildEqualsComparison] never panics.  It returns a nil error
    exactly when there is at least one column, as many values as columns,
    and no column or value is empty; the text is then the conjunction of
    the equalities in the order of the columns, and it is empty with every
    error. *)
Theorem BuildEqualsComparison_succeeds_iff columns values :
  exists result err,
    BuildEqualsComparison columns values = Returns (result, err)
    /\ (err = None
        <-> columns <> [] /\ length columns = length values
            /\ Forall (fun c => c <> "") columns /\ Forall (fun v => v <> "") values)
    /\ result = match err with
                | None => "(" +:+ Join (zip_with equality_text columns values) " and " +:+ ")"
                | Some _ => ""
                end.
Proof.
  destruct (BuildEqualsComparison_cases columns values)
    as [(H1 & H2 & H3 & H4 & ->)|[Hn [err ->]]].
  - eexists _, None. split; [done|]. split; [|done]. split; [done|done].
  - exists "", (Some err). split; [done|]. split; [|done]. split; [done|]. intros. by destruct Hn.
Qed.

(** X2.  [BuildRangeComparison] never panics.  It returns a nil error
    exactly when there is at least one column, as many values and as many
    arguments as columns, and no column or value is empty; and it returns
    the empty text exactly with an error, so the branch that answers the
    empty text with a nil error is never taken. *)
Theorem BuildRangeComparison_succeeds_iff columns values args (op : string) :
  exists result explodedArgs err,
    BuildRangeComparison columns values args op = Returns (result, explodedArgs, err)
    /\ (err = None <-> comparable columns values args)
    /\ (result = "" <-> err <> None).
Proof.
  destruct (BuildRangeComparison_cases columns values args op)
    as [(Hok & ->)|[Hn (partial & err & ->)]].
  - eexists _, _, None. split; [done|]. split; [done|]. split; [|done].
    unfold range_pred. cbn [render]. discriminate.
  - exists "", partial, (Some err). split; [done|]. split; [|done].
    split; [done|]. intros. by destruct Hn.
Qed.

Lemma disjuncts_args_length rest : forall pre (op : string),
  2 * length (concat (map args_of (disjuncts pre rest op)))
  = 2 * length rest * length pre + length rest * (length rest + 1).
Proof.
  induction rest as [|t rest IH]; intros pre op; [done|].
  cbn [disjuncts map concat]. rewrite length_app, Nat.mul_add_distr_l, IH.
  rewrite length_app. cbn [length].
  destruct pre as [|p pre]; cbn [args_of length]; [lia|].
  rewrite length_app, length_map. cbn [length]. lia.
Qed.

Lemma disjuncts_args_elem rest : forall pre (op : string) a,
  a ∈ concat (map args_of (disjuncts pre rest op)) -> a ∈ map snd (pre ++ rest).
Proof.
  induction rest as [|t rest IH]; intros pre op a Ha.
  - simpl in Ha. by apply elem_of_nil in Ha.
  - cbn [disjuncts map concat] in Ha. apply elem_of_app in Ha as [Ha|Ha].
    + rewrite map_app. destruct pre as [|p pre]; cbn [args_of] in Ha.
      * apply elem_of_app. right. apply list_elem_of_singleton in Ha as ->. simpl. left.
      * apply elem_of_app in Ha as [Ha|Ha]; apply elem_of_app; [by left|right].
        apply list_elem_of_singleton in Ha as ->. simpl. left.
    + apply IH in Ha. by rewrite <- app_assoc in Ha.
Qed.

(** X3.  When [BuildRangeComparison] succeeds on [n] columns, it
    explodes the [n] arguments into [n (n + 1) / 2] arguments, and [n] more
    for an inclusive sign; every one of them is one of the arguments
    given. *)
Theorem BuildRangeComparison_args_count columns values args (op : string)
    (result : string) (explodedArgs : list Arg) :
  BuildRangeComparison columns values args op = Returns (result, explodedArgs, None) ->
  2 * length explodedArgs
  = length columns * (length columns + 1)
    + (if inclusive_sign op then 2 * length columns else 0)
  /\ forall a, a ∈ explodedArgs -> a ∈ args.
Proof.
  intros E.
  destruct (BuildRangeComparison_cases columns values args op)
    as [((Hne & Hv & Ha & Hc & Hvs) & E')|[_ (partial & err & E')]];
    rewrite E' in E; [|discriminate].
  injection E as _ <-.
  pose proof (atoms_args _ _ _ Hv Ha) as Ea.
  assert (Hlen : length (atoms columns values args) = length columns).
  { rewrite <- (atoms_columns columns values args Hv Ha) at 2. by rewrite length_map. }
  unfold range_pred. cbn [args_of]. rewrite map_app, concat_app, length_app.
  split.
  - rewrite Nat.mul_add_distr_l, disjuncts_args_length. cbn [length]. rewrite Hlen.
    destruct (inclusive_sign op); cbn [map concat args_of length].
    + rewrite app_nil_r, length_map, Hlen. lia.
    + lia.
  - intros a Hin. apply elem_of_app in Hin as [Hin|Hin].
    + apply disjuncts_args_elem in Hin. cbn [app] in Hin. by rewrite Ea in Hin.
    + destruct (inclusive_sign op); cbn [map concat args_of] in Hin.
      * rewrite app_nil_r, Ea in Hin. done.
      * by apply elem_of_nil in Hin.
Qed.

End RangeExtras.

Section Placeholders.
Context `{Strconv} {Arg : Type}.
Implicit Types (t : Atom Arg) (ts pre rest : list (Atom Arg)).
Implicit Types (columns values : list string) (args : list Arg).

Lemma placeholders_app a b : placeholders (a +:+ b) = placeholders a + placeholders b.
Proof. induction a as [|c a IH]; [done|]. simpl. rewrite IH. lia. Qed.

Lemma placeholders_Join l sep :
  clean sep -> placeholders (Join l sep) = sum_list (map placeholders l).
Proof.
  intros Hs. induction l as [|x l IH]; [done|].
  destruct l as [|y l].
  - simpl. lia.
  - change (Join (x :: y :: l) sep) with (x +:+ sep +:+ Join (y :: l) sep).
    rewrite !placeholders_app, IH, Hs. cbn [map sum_list sum_list_with]. unfold id. lia.
Qed.

Lemma placeholders_atom_text op t :
  clean op -> one_placeholder t -> placeholders (atom_text op t) = 1.
Proof.
  intros Ho [Hc Hv]. unfold atom_text. rewrite !placeholders_app, Hc, Ho, Hv. done.
Qed.

Lemma sum_list_ones {A} (f : A -> nat) (l : list A) :
  Forall (fun x => f x = 1) l -> sum_list (map f l) = length l.
Proof. induction 1 as [|x l Hx _ IH]; [done|]. cbn. rewrite Hx. cbn in IH. by rewrite IH. Qed.

Lemma placeholders_AllEq ts :
  Forall one_placeholder ts ->
  placeholders (render (AllEq ts)) = length (args_of (AllEq ts)).
Proof.
  intros Hts. cbn [render args_of]. rewrite !placeholders_app, placeholders_Join by done.
  rewrite map_map, sum_list_ones, length_map; [done|].
  eapply Forall_impl; [exact Hts|]. intros t Ht. by apply placeholders_atom_text.
Qed.

Lemma placeholders_disjuncts rest : forall pre (op : string),
  clean op -> Forall one_placeholder (pre ++ rest) ->
  Forall (fun p : Pred Arg => placeholders (render p) = length (args_of p))
    (disjuncts pre rest op).
Proof.
  induction rest as [|t rest IH]; intros pre op Ho Hall; [constructor|].
  cbn [disjuncts]. constructor.
  - apply Forall_app in Hall as [Hpre Hr]. inversion Hr as [|? ? Ht _]; subst.
    destruct pre as [|p pre].
    + cbn [render args_of length]. by apply placeholders_atom_text.
    + change (render (Both (AllEq (p :: pre)) (Cmp t op)))
        with ("(" +:+ render (AllEq (p :: pre)) +:+ " AND " +:+ atom_text op t +:+ ")").
      change (args_of (Both (AllEq (p :: pre)) (Cmp t op)))
        with (args_of (AllEq (p :: pre)) ++ [t.2]).
      rewrite length_app, !placeholders_app.
      rewrite placeholders_AllEq, placeholders_atom_text by done. cbn. lia.
  - apply IH; [done|]. by rewrite <- app_assoc.
Qed.

Lemma placeholders_AnyOf (ps : list (Pred Arg)) :
  Forall (fun p : Pred Arg => placeholders (render p) = length (args_of p)) ps ->
  placeholders (render (AnyOf ps)) = length (args_of (AnyOf ps)).
Proof.
  intros Hps. cbn [render args_of]. rewrite !placeholders_app, placeholders_Join by done.
  cbn. rewrite Nat.add_0_r.
  induction Hps as [|p ps Hp _ IH]; [done|].
  cbn. rewrite length_app, Hp. cbn in IH. by rewrite IH.
Qed.

Lemma placeholders_range_pred ts (op : string) (inclusive : bool) :
  clean op -> Forall one_placeholder ts ->
  placeholders (render (range_pred ts op inclusive))
  = length (args_of (range_pred ts op inclusive)).
Proof.
  intros Ho Hts. unfold range_pred. apply placeholders_AnyOf, Forall_app. split.
  - by apply placeholders_disjuncts.
  - destruct inclusive; [|constructor]. constructor; [|constructor].
    by apply placeholders_AllEq.
Qed.

Lemma atoms_one_placeholder columns values args :
  length values = length columns -> length args = length columns ->
  Forall (fun c => clean (EscapeName c)) columns ->
  Forall (fun v => placeholders v = 1) values ->
  Forall one_placeholder (atoms columns values args).
Proof.
  intros Hv Ha Hc Hvs. apply Forall_forall. intros [[c v] a] Hin.
  apply list_elem_of_lookup in Hin as [i Hi].
  unfold atoms in Hi. apply lookup_zip_with_Some in Hi as (cv & a' & E & Hcv & _).
  apply lookup_zip_with_Some in Hcv as (c' & v' & E' & Hc' & Hv').
  simplify_eq. split; simpl.
  - eapply Forall_lookup_1 in Hc; eauto.
  - eapply Forall_lookup_1 in Hvs; eauto.
Qed.

Lemma clean_strict_sign (op : string) : clean op -> clean (strict_sign op).
Proof.
  intros Ho. unfold strict_sign.
  destruct (String.eqb op "<="); [done|]. destruct (String.eqb op ">="); done.
Qed.

Lemma BuildRangeComparison_placeholders_eq columns values args (op : string)
    (result : string) (explodedArgs : list Arg) :
  BuildRangeComparison columns values args op = Returns (result, explodedArgs, None) ->
  Forall (fun c => clean (EscapeName c)) columns ->
  Forall (fun v => placeholders v = 1) values ->
  clean op ->
  placeholders result = length explodedArgs.
Proof.
  intros E Hc Hvs Ho.
  destruct (BuildRangeComparison_cases columns values args op)
    as [((Hne & Hv & Ha & _) & E')|[_ (partial & err & E')]];
    rewrite E' in E; [|discriminate].
  injection E as <- <-.
  apply placeholders_range_pred; [by apply clean_strict_sign|].
  by apply atoms_one_placeholder.
Qed.

(** X4.  When [BuildRangeComparison] succeeds, the columns escape to
    texts without a placeholder, every value holds one placeholder and the
    sign none, then the predicate text has exactly as many placeholders as
    there are exploded arguments. *)
Theorem BuildRangeComparison_placeholders columns values args (op : string)
    (result : string) (explodedArgs : list Arg) :
  BuildRangeComparison columns values args op = Returns (result, explodedArgs, None) ->
  Forall (fun c => clean (EscapeName c)) columns ->
  Forall (fun v => placeholders v = 1) values ->
  clean op ->
  placeholders result = length explodedArgs.
Proof. apply BuildRangeComparison_placeholders_eq. Qed.

End Placeholders.

Section Lexicographic.
Context `{Strconv}.
Implicit Types (ts pre rest : list (Atom Z)) (row : string -> Z).

Lemma holds_disjuncts row (op : string) rest : forall pre,
  op = "<" \/ op = ">" ->
  Forall bare pre -> Forall bare rest ->
  fold_right (fun p acc => holds row p \/ acc) False (disjuncts pre rest op)
  <-> Forall (fun t => row (identifier t.1.1) = t.2) pre
      /\ lex (strictly op) (map (fun t => row (identifier t.1.1)) rest) (map snd rest).
Proof.
  intros pre Hop. revert pre.
  induction rest as [|t rest IH]; intros pre Hpre Hrest.
  - simpl. tauto.
  - apply Forall_cons in Hrest as [Ht Hrest].
    cbn [disjuncts fold_right map lex].
    rewrite IH by (done || (apply Forall_app; split; [done|by constructor])).
    rewrite Forall_app, Forall_singleton.
    assert (Hc : compare_sign op (row (identifier t.1.1)) t.2
                 <-> strictly op (row (identifier t.1.1)) t.2).
    { unfold compare_sign, strictly. destruct Hop as [-> | ->]; simpl; tauto. }
    assert (Hb : forall ts, Forall bare ts ->
              Forall (fun t => bare t /\ row (identifier t.1.1) = t.2) ts
              <-> Forall (fun t => row (identifier t.1.1) = t.2) ts).
    { intros ts Hts. rewrite !Forall_forall. rewrite Forall_forall in Hts.
      split; intros Hall x Hx; [by apply Hall | split; [by apply Hts | by apply Hall]]. }
    destruct pre as [|p pre]; cbn [holds].
    + rewrite Hc, !Forall_nil. tauto.
    + rewrite Hc, (Hb _ Hpre). tauto.
Qed.

Lemma holds_range_pred row ts (op : string) (inclusive : bool) :
  op = "<" \/ op = ">" ->
  Forall bare ts ->
  holds row (range_pred ts op inclusive)
  <-> lex (strictly op) (map (fun t => row (identifier t.1.1)) ts) (map snd ts)
      \/ (inclusive = true /\ map (fun t => row (identifier t.1.1)) ts = map snd ts).
Proof.
  intros Hop Hts. unfold range_pred. cbn [holds]. rewrite foldr_app.
  assert (Heq : Forall (fun t : Atom Z => bare t /\ row (identifier t.1.1) = t.2) ts
                <-> map (fun t : Atom Z => row (identifier t.1.1)) ts = map snd ts).
  { clear Hop. induction ts as [|t ts IHts]; [simpl; split; [done|constructor]|].
    apply Forall_cons in Hts as [Ht Hts].
    rewrite Forall_cons, (IHts Hts). simpl. split; [intros [[_ ->] ->]; done|].
    intros [= -> ->]. done. }
  assert (Hgen : forall ps base,
            fold_right (fun p acc => holds row p \/ acc) base ps
            <-> fold_right (fun p acc => holds row p \/ acc) False ps \/ base).
  { induction ps as [|p ps IHps]; intros base; simpl; [tauto|]. rewrite IHps. tauto. }
  rewrite Hgen, (holds_disjuncts row op ts [] Hop) by (done || constructor).
  destruct inclusive; cbn [fold_right holds].
  - rewrite Heq. split.
    + intros [[_ ?]|[?|[]]]; [by left|by right].
    + intros [?|[_ ?]]; [left; split; [constructor|done]|right; by left].
  - split.
    + intros [[_ ?]|[]]. by left.
    + intros [?|[? _]]; [|done]. left. split; [constructor|done].
Qed.

(** X5.  When every value is the bare placeholder [?] and the arguments
    are integers, the predicate that [BuildRangeComparison] writes for the
    sign [<], [<=], [>] or [>=] holds of a row exactly when the tuple of
    the row's values of the key identifiers compares with the tuple of the
    arguments under the lexicographic order of that sign. *)
Theorem BuildRangeComparison_lexicographic (columns values : list string)
    (args : list Z) (op : string) :
  comparable columns values args ->
  Forall (fun v => v = "?") values ->
  op ∈ ["<"; "<="; ">"; ">="] ->
  exists p : Pred Z,
    BuildRangeComparison columns values args op = Returns (render p, args_of p, None)
    /\ forall row : string -> Z,
         holds row p
         <-> lex_compare op (map (fun c => row (identifier c)) columns) args.
Proof.
  intros Hok Hq Hop.
  destruct (BuildRangeComparison_cases columns values args op)
    as [(_ & E)|[Hn _]]; [|done].
  destruct Hok as (_ & Hv & Ha & _).
  eexists. split; [exact E|]. intros row.
  assert (Hs : strict_sign op = "<" \/ strict_sign op = ">").
  { repeat (apply elem_of_cons in Hop as [-> | Hop]); try (by left); try (by right).
    by apply elem_of_nil in Hop. }
  assert (Hbare : Forall bare (atoms columns values args)).
  { rewrite <- (atoms_values columns values args Hv Ha), map_fmap in Hq.
    by apply Forall_fmap in Hq. }
  rewrite (holds_range_pred row _ _ _ Hs Hbare).
  assert (Ec : map (fun t : Atom Z => row (identifier t.1.1)) (atoms columns values args)
               = map (fun c => row (identifier c)) columns).
  { rewrite <- (atoms_columns columns values args Hv Ha) at 2. by rewrite map_map. }
  rewrite Ec, (atoms_args columns values args Hv Ha).
  unfold lex_compare, strictly, strict_sign, inclusive_sign.
  repeat (apply elem_of_cons in Hop as [-> | Hop]); simpl.
  - split; [intros [?|[? _]]; done | by left].
  - split; [intros [?|[_ ?]]; [by left|by right] | intros [?|?]; [by left|by right]].
  - split; [intros [?|[? _]]; done | by left].
  - split; [intros [?|[_ ?]]; [by left|by right] | intros [?|?]; [by left|by right]].
  - by apply elem_of_nil in Hop.
Qed.

End Lexicographic.

Section RangeQueryFacts.
Context `{Strconv} {Arg : Type}.

Lemma BuildRangeInsertQuery_cases
    (databaseName originalTableName ghostTableName : string)
    (sharedColumns mappedSharedColumns : list string) (uniqueKey : string)
    (uniqueKeyColumns : ColumnList) (rangeStartValues rangeEndValues : list string)
    (rangeStartArgs rangeEndArgs : list Arg) (includeRangeStartValues : bool)
    (transactionalTable : bool) :
  let valid :=
    sharedColumns <> []
    /\ comparable (Names uniqueKeyColumns) rangeStartValues rangeStartArgs
    /\ comparable (Names uniqueKeyColumns) rangeEndValues rangeEndArgs in
  (valid
   /\ BuildRangeInsertQuery databaseName originalTableName ghostTableName sharedColumns
        mappedSharedColumns uniqueKey uniqueKeyColumns rangeStartValues rangeEndValues
        rangeStartArgs rangeEndArgs includeRangeStartValues transactionalTable
      = Returns
          (range_insert_text (EscapeName databaseName) (EscapeName originalTableName)
             (EscapeName ghostTableName)
             (Join (map EscapeName mappedSharedColumns) ", ")
             (Join (map EscapeName sharedColumns) ", ") (EscapeName uniqueKey)
             (render (lower_bound uniqueKeyColumns rangeStartValues rangeStartArgs
                        includeRangeStartValues))
             (render (upper_bound uniqueKeyColumns rangeEndValues rangeEndArgs))
             (if transactionalTable then "lock in share mode" else ""),
           args_of (lower_bound uniqueKeyColumns rangeStartValues rangeStartArgs
                      includeRangeStartValues)
           ++ args_of (upper_bound uniqueKeyColumns rangeEndValues rangeEndArgs),
           None))
  \/ (~ valid
      /\ exists partial err,
           BuildRangeInsertQuery databaseName originalTableName ghostTableName sharedColumns
             mappedSharedColumns uniqueKey uniqueKeyColumns rangeStartValues rangeEndValues
             rangeStartArgs rangeEndArgs includeRangeStartValues transactionalTable
           = Returns ("", partial, Some err)).
Proof.
  intros valid. subst valid. unfold BuildRangeInsertQuery. cbv zeta.
  destruct (decide (length sharedColumns = 0)) as [E|Hne].
  { right. split; [|eauto]. intros (Hs & _). destruct sharedColumns; [done|discriminate]. }
  assert (Hs : sharedColumns <> []) by (intros ->; done).
  assert (Hstart :
    (comparable (Names uniqueKeyColumns) rangeStartValues rangeStartArgs
     /\ BuildRangeComparison (Names uniqueKeyColumns) rangeStartValues rangeStartArgs
          (if includeRangeStartValues then GreaterThanOrEqualsComparisonSign
           else GreaterThanComparisonSign)
        = Returns (render (lower_bound uniqueKeyColumns rangeStartValues rangeStartArgs
                             includeRangeStartValues),
                   args_of (lower_bound uniqueKeyColumns rangeStartValues rangeStartArgs
                              includeRangeStartValues), None))
    \/ (~ comparable (Names uniqueKeyColumns) rangeStartValues rangeStartArgs
        /\ exists partial err,
             BuildRangeComparison (Names uniqueKeyColumns) rangeStartValues rangeStartArgs
               (if includeRangeStartValues then GreaterThanOrEqualsComparisonSign
                else GreaterThanComparisonSign)
             = Returns ("", partial, Some err))).
  { destruct includeRangeStartValues.
    - apply (BuildRangeComparison_cases _ _ _ GreaterThanOrEqualsComparisonSign).
    - apply (BuildRangeComparison_cases _ _ _ GreaterThanComparisonSign). }
  destruct Hstart as [(Hok1 & E1)|[Hn1 (partial & err & E1)]]; rewrite E1; cbn [exec_bind].
  2:{ right. split; [|eauto]. intros (_ & ? & _). done. }
  destruct (BuildRangeComparison_cases (Names uniqueKeyColumns) rangeEndValues
              rangeEndArgs LessThanOrEqualsComparisonSign)
    as [(Hok2 & E2)|[Hn2 (partial & err & E2)]]; rewrite E2; cbn [exec_bind].
  2:{ right. split; [|eauto]. intros (_ & _ & ?). done. }
  left. split; [done|].
  reflexivity.
Qed.

Lemma BuildRangeSelectQuery_cases
    (databaseName originalTableName ghostTableName : string)
    (sharedColumns mappedSharedColumns : list string) (uniqueKey : string)
    (uniqueKeyColumns : ColumnList) (rangeStartValues rangeEndValues : list string)
    (rangeStartArgs rangeEndArgs : list Arg) (includeRangeStartValues : bool)
    (chunkSize : Z) :
  let valid :=
    sharedColumns <> []
    /\ comparable (Names uniqueKeyColumns) rangeEndValues rangeEndArgs in
  (valid
   /\ BuildRangeSelectQuery databaseName originalTableName ghostTableName sharedColumns
        mappedSharedColumns uniqueKey uniqueKeyColumns rangeStartValues rangeEndValues
        rangeStartArgs rangeEndArgs includeRangeStartValues chunkSize
      = Returns
          (select_text (Join (map EscapeName sharedColumns) ", ")
             (EscapeName databaseName) (EscapeName originalTableName) (EscapeName uniqueKey)
             (render (upper_bound uniqueKeyColumns rangeEndValues rangeEndArgs))
             (Join (uniqueKeyColumnOrder uniqueKeyColumns "asc") ", ") chunkSize,
           args_of (upper_bound uniqueKeyColumns rangeEndValues rangeEndArgs),
           None))
  \/ (~ valid
      /\ exists err,
           BuildRangeSelectQuery databaseName originalTableName ghostTableName sharedColumns
             mappedSharedColumns uniqueKey uniqueKeyColumns rangeStartValues rangeEndValues
             rangeStartArgs rangeEndArgs includeRangeStartValues chunkSize
           = Returns ("", [], Some err)).
Proof.
  intros valid. subst valid. unfold BuildRangeSelectQuery. cbv zeta.
  destruct (decide (length sharedColumns = 0)) as [E|Hne].
  { right. split; [|eauto]. intros (Hs & _). destruct sharedColumns; [done|discriminate]. }
  assert (Hs : sharedColumns <> []) by (intros ->; done).
  destruct (BuildRangeComparison_cases (Names uniqueKeyColumns) rangeEndValues
              rangeEndArgs LessThanOrEqualsComparisonSign)
    as [(Hok2 & E2)|[Hn2 (partial & err & E2)]]; rewrite E2; cbn [exec_bind].
  2:{ right. split; [|eauto]. intros (_ & ?). done. }
  left. split; [done|]. reflexivity.
Qed.

Lemma prepared_values_length (cl : ColumnList) :
  length (buildColumnsPreparedValues cl) = Len cl.
Proof. unfold buildColumnsPreparedValues, Len. by rewrite length_map. Qed.

Lemma prepared_values_nonempty (cl : ColumnList) :
  Forall (fun v => v <> "") (buildColumnsPreparedValues cl).
Proof.
  unfold buildColumnsPreparedValues. rewrite map_fmap, Forall_fmap.
  apply Forall_forall. intros c _. simpl. by destruct (TimezoneConversion c).
Qed.

Lemma prepared_values_one (cl : ColumnList) :
  Forall clean_column (columns cl) ->
  Forall (fun v => placeholders v = 1) (buildColumnsPreparedValues cl).
Proof.
  intros Hc. unfold buildColumnsPreparedValues. rewrite map_fmap, Forall_fmap.
  eapply Forall_impl; [exact Hc|]. intros c [_ Htz]. simpl.
  destruct (TimezoneConversion c) as [tz|]; [|done].
  rewrite !placeholders_app, Htz. done.
Qed.

Lemma clean_column_names (cl : ColumnList) :
  Forall clean_column (columns cl) ->
  Forall (fun c => clean (EscapeName c)) (Names cl).
Proof.
  intros Hc. unfold Names. rewrite map_fmap, Forall_fmap.
  eapply Forall_impl; [exact Hc|]. by intros c [? _].
Qed.

(** A key whose prepared comparison succeeds. *)
Lemma comparable_prepared (cl : ColumnList) (args : list Arg) :
  comparable (Names cl) (buildColumnsPreparedValues cl) args
  <-> Len cl <> 0 /\ length args = Len cl /\ Forall (fun c => c <> "") (Names cl).
Proof.
  unfold comparable. rewrite prepared_values_length.
  assert (Hn : length (Names cl) = Len cl) by (unfold Names, Len; by rewrite length_map).
  rewrite Hn. split.
  - intros (H1 & _ & H3 & H4 & _). repeat split; try done.
    intros E. apply H1. apply length_zero_iff_nil. lia.
  - intros (H1 & H2 & H3). repeat split; try done.
    + intros E. rewrite E in Hn. simpl in Hn. lia.
    + apply prepared_values_nonempty.
Qed.

End RangeQueryFacts.

Lemma clean_string_of_uint d : clean (NilEmpty.string_of_uint d).
Proof. unfold clean. induction d; simpl; done. Qed.

Lemma clean_fmt_int z : clean (fmt_int z).
Proof.
  unfold fmt_int, NilEmpty.string_of_int.
  destruct (Z.to_int z); [apply clean_string_of_uint|].
  unfold clean. simpl. apply clean_string_of_uint.
Qed.

Lemma clean_tabs n : clean (tabs n).
Proof. unfold clean. induction n; [done|]. simpl. done. Qed.

Section RangeQueryExtras.
Context `{Strconv} {Arg : Type}.

Lemma clean_Join_names (names : list string) :
  clean_names names -> clean (Join (map EscapeName names) ", ").
Proof.
  intros Hn. unfold clean. rewrite placeholders_Join by done.
  induction Hn as [|n names Hc _ IH]; [done|]. cbn. unfold id. rewrite Hc. done.
Qed.

Lemma clean_Join (l : list string) (sep : string) :
  clean sep -> Forall clean l -> clean (Join l sep).
Proof.
  intros Hs Hl. unfold clean. rewrite placeholders_Join by done.
  induction Hl as [|x l Hx _ IH]; [done|]. cbn. unfold id. rewrite Hx. done.
Qed.

Lemma clean_uniqueKeyColumnOrder (cl : ColumnList) (order : string) :
  clean order -> Forall clean_column (columns cl) ->
  clean (Join (uniqueKeyColumnOrder cl order) ", ").
Proof.
  intros Ho Hk. apply clean_Join; [done|]. unfold uniqueKeyColumnOrder.
  rewrite map_fmap, Forall_fmap. eapply Forall_impl; [exact Hk|].
  intros c [Hc _]. unfold clean in *. simpl.
  destruct (is_enum (Builder.Type_ c)); rewrite !placeholders_app, Hc, Ho; done.
Qed.

Ltac clean_text :=
  repeat rewrite placeholders_app;
  repeat match goal with
         | Hc : clean ?x |- context [placeholders ?x] =>
             rewrite (Hc : placeholders x = 0)
         end;
  rewrite ?(clean_fmt_int _ : placeholders _ = 0), ?(clean_tabs _ : placeholders _ = 0);
  cbn [placeholders Ascii.eqb Bool.eqb Nat.add nl tab].

Lemma placeholders_bounds (uniqueKeyColumns : ColumnList) (args : list Arg)
    (op : string) (inclusive : bool) :
  clean op ->
  Forall clean_column (columns uniqueKeyColumns) ->
  length args = Len uniqueKeyColumns ->
  placeholders (render (range_pred (atoms (Names uniqueKeyColumns)
                                      (buildColumnsPreparedValues uniqueKeyColumns) args)
                          op inclusive))
  = length (args_of (range_pred (atoms (Names uniqueKeyColumns)
                                   (buildColumnsPreparedValues uniqueKeyColumns) args)
                       op inclusive)).
Proof.
  intros Ho Hc Ha. apply placeholders_range_pred; [done|].
  apply atoms_one_placeholder.
  - rewrite prepared_values_length. unfold Names, Len. by rewrite length_map.
  - rewrite Ha. unfold Names, Len. by rewrite length_map.
  - by apply clean_column_names.
  - by apply prepared_values_one.
Qed.

(** X6.  When [BuildRangeInsertPreparedQuery] succeeds and no name or
    timezone brings a placeholder of its own, the statement has exactly as
    many placeholders as the exploded arguments it is returned with. *)
Theorem BuildRangeInsertPreparedQuery_placeholders
    (databaseName originalTableName ghostTableName : string)
    (sharedColumns mappedSharedColumns : list string) (uniqueKey : string)
    (uniqueKeyColumns : ColumnList) (rangeStartArgs rangeEndArgs : list Arg)
    (includeRangeStartValues transactionalTable : bool)
    (result : string) (explodedArgs : list Arg) :
  BuildRangeInsertPreparedQuery databaseName originalTableName ghostTableName
    sharedColumns mappedSharedColumns uniqueKey uniqueKeyColumns rangeStartArgs
    rangeEndArgs includeRangeStartValues transactionalTable
  = Returns (result, explodedArgs, None) ->
  clean_names ([databaseName; originalTableName; ghostTableName; uniqueKey]
               ++ sharedColumns ++ mappedSharedColumns) ->
  Forall clean_column (columns uniqueKeyColumns) ->
  placeholders result = length explodedArgs.
Proof.
  intros E Hn Hk. unfold BuildRangeInsertPreparedQuery in E.
  destruct (BuildRangeInsertQuery_cases databaseName originalTableName ghostTableName
              sharedColumns mappedSharedColumns uniqueKey uniqueKeyColumns
              (buildColumnsPreparedValues uniqueKeyColumns)
              (buildColumnsPreparedValues uniqueKeyColumns)
              rangeStartArgs rangeEndArgs includeRangeStartValues transactionalTable)
    as [((_ & H1 & H2) & E')|[_ (partial & err & E')]]; rewrite E' in E; [|discriminate].
  remember (lower_bound uniqueKeyColumns (buildColumnsPreparedValues uniqueKeyColumns)
              rangeStartArgs includeRangeStartValues) as lo eqn:Elo.
  remember (upper_bound uniqueKeyColumns (buildColumnsPreparedValues uniqueKeyColumns)
              rangeEndArgs) as hi eqn:Ehi.
  injection E as <- <-. subst lo hi.
  apply comparable_prepared in H1 as (_ & Ha1 & _), H2 as (_ & Ha2 & _).
  unfold clean_names in Hn. rewrite !Forall_app in Hn.
  destruct Hn as (Hfour & Hs & Hm).
  apply Forall_cons in Hfour as [Hdb Hfour]. apply Forall_cons in Hfour as [Ho Hfour].
  apply Forall_cons in Hfour as [Hg Hfour]. apply Forall_cons in Hfour as [Hu _].
  pose proof (clean_Join_names _ Hs) as Hs'. pose proof (clean_Join_names _ Hm) as Hm'.
  rewrite length_app. unfold lower_bound, upper_bound.
  rewrite <- !placeholders_bounds by done.
  unfold range_insert_text. clean_text.
  destruct transactionalTable; cbn; lia.
Qed.

(** X7.  [BuildRangeSelectPreparedQuery] never panics.  It succeeds
    exactly when there is a shared column, the key has columns, all of them
    named, and there are as many range-end arguments as key columns: the
    range-start arguments are not looked at.  The exploded arguments are
    those of the upper bound, and with an error the text and the arguments
    are empty. *)
Theorem BuildRangeSelectPreparedQuery_succeeds_iff
    (databaseName originalTableName ghostTableName : string)
    (sharedColumns mappedSharedColumns : list string) (uniqueKey : string)
    (uniqueKeyColumns : ColumnList) (rangeStartArgs rangeEndArgs : list Arg)
    (includeRangeStartValues : bool) (chunkSize : Z) :
  exists result explodedArgs err,
    BuildRangeSelectPreparedQuery databaseName originalTableName ghostTableName
      sharedColumns mappedSharedColumns uniqueKey uniqueKeyColumns rangeStartArgs
      rangeEndArgs includeRangeStartValues chunkSize
    = Returns (result, explodedArgs, err)
    /\ (err = None
        <-> sharedColumns <> [] /\ Len uniqueKeyColumns <> 0
            /\ length rangeEndArgs = Len uniqueKeyColumns
            /\ Forall (fun c => c <> "") (Names uniqueKeyColumns))
    /\ explodedArgs
       = match err with
         | None => args_of (upper_bound uniqueKeyColumns
                              (buildColumnsPreparedValues uniqueKeyColumns) rangeEndArgs)
         | Some _ => []
         end
    /\ (err <> None -> result = "").
Proof.
  unfold BuildRangeSelectPreparedQuery.
  destruct (BuildRangeSelectQuery_cases databaseName originalTableName ghostTableName
              sharedColumns mappedSharedColumns uniqueKey uniqueKeyColumns
              (buildColumnsPreparedValues uniqueKeyColumns)
              (buildColumnsPreparedValues uniqueKeyColumns)
              rangeStartArgs rangeEndArgs includeRangeStartValues chunkSize)
    as [((Hs & Hc) & ->)|[Hn (err & ->)]].
  - eexists _, _, None. split; [done|]. apply comparable_prepared in Hc.
    split; [|done]. split; [tauto|done].
  - exists "", [], (Some err). split; [done|]. split; [|done].
    split; [done|]. intros (Hs & Hc). destruct Hn. split; [done|].
    by apply comparable_prepared.
Qed.

(** X8.  When [BuildRangeSelectPreparedQuery] succeeds and no name or
    timezone brings a placeholder of its own, the statement has exactly as
    many placeholders as the exploded arguments it is returned with. *)
Theorem BuildRangeSelectPreparedQuery_placeholders
    (databaseName originalTableName ghostTableName : string)
    (sharedColumns mappedSharedColumns : list string) (uniqueKey : string)
    (uniqueKeyColumns : ColumnList) (rangeStartArgs rangeEndArgs : list Arg)
    (includeRangeStartValues : bool) (chunkSize : Z)
    (result : string) (explodedArgs : list Arg) :
  BuildRangeSelectPreparedQuery databaseName originalTableName ghostTableName
    sharedColumns mappedSharedColumns uniqueKey uniqueKeyColumns rangeStartArgs
    rangeEndArgs includeRangeStartValues chunkSize
  = Returns (result, explodedArgs, None) ->
  clean_names ([databaseName; originalTableName; uniqueKey] ++ sharedColumns) ->
  Forall clean_column (columns uniqueKeyColumns) ->
  placeholders result = length explodedArgs.
Proof.
  intros E Hn Hk. unfold BuildRangeSelectPreparedQuery in E.
  destruct (BuildRangeSelectQuery_cases databaseName originalTableName ghostTableName
              sharedColumns mappedSharedColumns uniqueKey uniqueKeyColumns
              (buildColumnsPreparedValues uniqueKeyColumns)
              (buildColumnsPreparedValues uniqueKeyColumns)
              rangeStartArgs rangeEndArgs includeRangeStartValues chunkSize)
    as [((_ & H2) & E')|[_ (err & E')]]; rewrite E' in E; [|discriminate].
  remember (upper_bound uniqueKeyColumns (buildColumnsPreparedValues uniqueKeyColumns)
              rangeEndArgs) as hi eqn:Ehi.
  injection E as <- <-. subst hi.
  apply comparable_prepared in H2 as (_ & Ha2 & _).
  unfold clean_names in Hn. rewrite !Forall_app in Hn.
  destruct Hn as (Hthree & Hs).
  apply Forall_cons in Hthree as [Hdb Hthree]. apply Forall_cons in Hthree as [Ho Hthree].
  apply Forall_cons in Hthree as [Hu _].
  pose proof (clean_Join_names _ Hs) as Hs'.
  unfold upper_bound. rewrite <- placeholders_bounds by done.
  pose proof (clean_uniqueKeyColumnOrder uniqueKeyColumns "asc" eq_refl Hk) as Hord.
  unfold select_text. clean_text. lia.
Qed.

End RangeQueryExtras.

Section KeyQueryExtras.
Context `{Strconv} {Arg : Type}.

Lemma BuildRangePreparedComparison_cases (cl : ColumnList) (args : list Arg)
    (op : string) :
  (comparable (Names cl) (buildColumnsPreparedValues cl) args
   /\ BuildRangePreparedComparison cl args op
      = Returns (render (range_pred (atoms (Names cl) (buildColumnsPreparedValues cl) args)
                           (strict_sign op) (inclusive_sign op)),
                 args_of (range_pred (atoms (Names cl) (buildColumnsPreparedValues cl) args)
                            (strict_sign op) (inclusive_sign op)),
                 None))
  \/ (~ comparable (Names cl) (buildColumnsPreparedValues cl) args
      /\ exists partial err,
           BuildRangePreparedComparison cl args op = Returns ("", partial, Some err)).
Proof. apply BuildRangeComparison_cases. Qed.

Lemma BuildUniqueKeyRangeEndPreparedQuery_cases (databaseName tableName : string)
    (uniqueKeyColumns : ColumnList) (rangeStartArgs rangeEndArgs : list Arg)
    (chunkSize : Z) (includeRangeStartValues : bool) (hint : string) :
  let values := buildColumnsPreparedValues uniqueKeyColumns in
  let valid :=
    Len uniqueKeyColumns <> 0
    /\ length rangeStartArgs = Len uniqueKeyColumns
    /\ length rangeEndArgs = Len uniqueKeyColumns
    /\ Forall (fun c => c <> "") (Names uniqueKeyColumns) in
  (valid
   /\ BuildUniqueKeyRangeEndPreparedQuery databaseName tableName uniqueKeyColumns
        rangeStartArgs rangeEndArgs chunkSize includeRangeStartValues hint
      = Returns
          (range_end_text (Join (map EscapeName (Names uniqueKeyColumns)) ", ")
             (EscapeName databaseName) (EscapeName tableName)
             (render (lower_bound uniqueKeyColumns values rangeStartArgs
                        includeRangeStartValues))
             (render (upper_bound uniqueKeyColumns values rangeEndArgs))
             (Join (uniqueKeyColumnOrder uniqueKeyColumns "asc") ", ") chunkSize
             (Join (uniqueKeyColumnOrder uniqueKeyColumns "desc") ", "),
           args_of (lower_bound uniqueKeyColumns values rangeStartArgs
                      includeRangeStartValues)
           ++ args_of (upper_bound uniqueKeyColumns values rangeEndArgs),
           None))
  \/ (~ valid
      /\ exists partial err,
           BuildUniqueKeyRangeEndPreparedQuery databaseName tableName uniqueKeyColumns
             rangeStartArgs rangeEndArgs chunkSize includeRangeStartValues hint
           = Returns ("", partial, Some err)).
Proof.
  intros values valid. subst values valid.
  unfold BuildUniqueKeyRangeEndPreparedQuery. cbv zeta.
  destruct (decide (Len uniqueKeyColumns = 0)) as [E|Hne].
  { right. split; [|eauto]. intros (? & _). done. }
  assert (Hstart :
    (comparable (Names uniqueKeyColumns) (buildColumnsPreparedValues uniqueKeyColumns)
       rangeStartArgs
     /\ BuildRangePreparedComparison uniqueKeyColumns rangeStartArgs
          (if includeRangeStartValues then GreaterThanOrEqualsComparisonSign
           else GreaterThanComparisonSign)
        = Returns (render (lower_bound uniqueKeyColumns
                             (buildColumnsPreparedValues uniqueKeyColumns) rangeStartArgs
                             includeRangeStartValues),
                   args_of (lower_bound uniqueKeyColumns
                              (buildColumnsPreparedValues uniqueKeyColumns) rangeStartArgs
                              includeRangeStartValues), None))
    \/ (~ comparable (Names uniqueKeyColumns) (buildColumnsPreparedValues uniqueKeyColumns)
          rangeStartArgs
        /\ exists partial err,
             BuildRangePreparedComparison uniqueKeyColumns rangeStartArgs
               (if includeRangeStartValues then GreaterThanOrEqualsComparisonSign
                else GreaterThanComparisonSign)
             = Returns ("", partial, Some err))).
  { destruct includeRangeStartValues.
    - apply (BuildRangePreparedComparison_cases _ _ GreaterThanOrEqualsComparisonSign).
    - apply (BuildRangePreparedComparison_cases _ _ GreaterThanComparisonSign). }
  destruct Hstart as [(Hok1 & E1)|[Hn1 (partial & err & E1)]]; rewrite E1; cbn [exec_bind].
  2:{ right. split; [|eauto]. intros (_ & ? & _ & ?). apply Hn1.
      by apply comparable_prepared. }
  destruct (BuildRangePreparedComparison_cases uniqueKeyColumns rangeEndArgs
              LessThanOrEqualsComparisonSign)
    as [(Hok2 & E2)|[Hn2 (partial & err & E2)]]; rewrite E2; cbn [exec_bind].
  2:{ right. split; [|eauto]. intros (_ & _ & ? & ?). apply Hn2.
      by apply comparable_prepared. }
  left. apply comparable_prepared in Hok1 as (_ & ? & ?), Hok2 as (_ & ? & _).
  split; [done|]. reflexivity.
Qed.

(** X9.  When [BuildUniqueKeyRangeEndPreparedQuery] succeeds, its
    exploded arguments are those of the lower bound followed by those of the
    inclusive upper bound; and when no name or timezone brings a
    placeholder of its own, the statement has exactly that many
    placeholders. *)
Theorem BuildUniqueKeyRangeEndPreparedQuery_args (databaseName tableName : string)
    (uniqueKeyColumns : ColumnList) (rangeStartArgs rangeEndArgs : list Arg)
    (chunkSize : Z) (includeRangeStartValues : bool) (hint : string)
    (result : string) (explodedArgs : list Arg) :
  BuildUniqueKeyRangeEndPreparedQuery databaseName tableName uniqueKeyColumns
    rangeStartArgs rangeEndArgs chunkSize includeRangeStartValues hint
  = Returns (result, explodedArgs, None) ->
  explodedArgs
  = args_of (lower_bound uniqueKeyColumns (buildColumnsPreparedValues uniqueKeyColumns)
               rangeStartArgs includeRangeStartValues)
    ++ args_of (upper_bound uniqueKeyColumns (buildColumnsPreparedValues uniqueKeyColumns)
                  rangeEndArgs)
  /\ (clean_names [databaseName; tableName] ->
      Forall clean_column (columns uniqueKeyColumns) ->
      placeholders result = length explodedArgs).
Proof.
  intros E.
  destruct (BuildUniqueKeyRangeEndPreparedQuery_cases databaseName tableName
              uniqueKeyColumns rangeStartArgs rangeEndArgs chunkSize
              includeRangeStartValues hint)
    as [((_ & Ha1 & Ha2 & _) & E')|[_ (partial & err & E')]]; rewrite E' in E;
    [|discriminate].
  remember (lower_bound uniqueKeyColumns (buildColumnsPreparedValues uniqueKeyColumns)
              rangeStartArgs includeRangeStartValues) as lo eqn:Elo.
  remember (upper_bound uniqueKeyColumns (buildColumnsPreparedValues uniqueKeyColumns)
              rangeEndArgs) as hi eqn:Ehi.
  injection E as <- <-. split; [done|]. subst lo hi. intros Hn Hk.
  apply Forall_cons in Hn as [Hdb Hn]. apply Forall_cons in Hn as [Ht _].
  pose proof (clean_Join_names _ (clean_column_names _ Hk)) as Hnames.
  pose proof (clean_uniqueKeyColumnOrder uniqueKeyColumns "asc" eq_refl Hk) as Hasc.
  pose proof (clean_uniqueKeyColumnOrder uniqueKeyColumns "desc" eq_refl Hk) as Hdesc.
  rewrite length_app. unfold lower_bound, upper_bound.
  rewrite <- !placeholders_bounds by done.
  unfold range_end_text.
  repeat rewrite placeholders_app.
  repeat match goal with
         | Hc : clean ?x |- context [placeholders ?x] =>
             rewrite (Hc : placeholders x = 0)
         end.
  rewrite ?(clean_fmt_int _ : placeholders _ = 0), ?(clean_tabs _ : placeholders _ = 0).
  cbn [placeholders Ascii.eqb Bool.eqb Nat.add nl tab]. lia.
Qed.

(** X10.  [BuildUniqueKeyMinValuesPreparedQuery] and
    [BuildUniqueKeyMaxValuesPreparedQuery] fail on the same inputs: exactly
    on a key without columns.  Their statements take no arguments: they
    hold no placeholder when no name brings one. *)
Theorem BuildUniqueKeyMinMaxValuesPreparedQuery_total (databaseName tableName : string)
    (uniqueKeyColumns : ColumnList) :
  exists minQuery maxQuery err,
    BuildUniqueKeyMinValuesPreparedQuery databaseName tableName uniqueKeyColumns
    = (minQuery, err)
    /\ BuildUniqueKeyMaxValuesPreparedQuery databaseName tableName uniqueKeyColumns
       = (maxQuery, err)
    /\ (err = None <-> Len uniqueKeyColumns <> 0)
    /\ (clean_names [databaseName; tableName] ->
        Forall clean_column (columns uniqueKeyColumns) ->
        clean minQuery /\ clean maxQuery).
Proof.
  unfold BuildUniqueKeyMinValuesPreparedQuery, BuildUniqueKeyMaxValuesPreparedQuery,
    buildUniqueKeyMinMaxValuesPreparedQuery.
  destruct (decide (Len uniqueKeyColumns = 0)) as [E|Hne].
  { eexists _, _, _. split; [done|]. split; [done|]. split; [split; done|]. done. }
  eexists _, _, _. split; [done|]. split; [done|]. split; [done|].
  intros Hn Hk.
  apply Forall_cons in Hn as [Hdb Hn]. apply Forall_cons in Hn as [Ht _].
  pose proof (clean_Join_names _ (clean_column_names _ Hk)) as Hnames.
  pose proof (clean_uniqueKeyColumnOrder uniqueKeyColumns "asc" eq_refl Hk) as Hasc.
  pose proof (clean_uniqueKeyColumnOrder uniqueKeyColumns "desc" eq_refl Hk) as Hdesc.
  unfold clean, duplicateNames. split.
  all: repeat rewrite placeholders_app;
    repeat match goal with
           | Hc : clean ?x |- context [placeholders ?x] =>
               rewrite (Hc : placeholders x = 0)
           end;
    rewrite ?(clean_tabs _ : placeholders _ = 0);
    cbn [placeholders Ascii.eqb Bool.eqb Nat.add nl tab]; lia.
Qed.

End KeyQueryExtras.

Section DMLExtras.
Context `{Strconv} {Arg : Type} `{ArgConv Arg}.

Lemma exec_map_length {A B} (f : A -> Exec B) (l : list A) (ys : list B) :
  exec_map f l = Returns ys -> length ys = length l.
Proof.
  revert ys. induction l as [|x l IH]; intros ys E; simpl in E.
  - by injection E as <-.
  - destruct (f x) as [y|]; [|discriminate]. cbn [exec_bind] in E.
    destruct (exec_map f l) as [ys'|]; [|discriminate]. cbn [exec_bind] in E.
    injection E as <-. simpl. by rewrite (IH ys').
Qed.

Lemma exec_map_Forall {A B} (f : A -> Exec B) (P : B -> Prop) (l : list A) (ys : list B) :
  (forall x y, x ∈ l -> f x = Returns y -> P y) ->
  exec_map f l = Returns ys -> Forall P ys.
Proof.
  revert ys. induction l as [|x l IH]; intros ys HP E; simpl in E.
  - injection E as <-. constructor.
  - destruct (f x) as [y|] eqn:Ex; [|discriminate]. cbn [exec_bind] in E.
    destruct (exec_map f l) as [ys'|] eqn:El; [|discriminate]. cbn [exec_bind] in E.
    injection E as <-. constructor.
    + eapply HP; [left|done].
    + apply IH; [|done]. intros x' y' Hin. apply HP. by right.
Qed.

Lemma convert_args_length (tableColumns cols : ColumnList) (values converted : list Arg) :
  convert_args tableColumns cols values = Returns converted ->
  length converted = Len cols.
Proof. apply exec_map_length. Qed.

Lemma convert_args_positional_from (tableColumns : ColumnList) (args : list Arg) rest :
  forall pre,
  positional tableColumns -> columns tableColumns = pre ++ rest ->
  length args = Len tableColumns ->
  exec_map (fun column =>
              do v <- index args (ordinal tableColumns (Name column));
              Returns (ConvertArg column v)) rest
  = Returns (zip_with ConvertArg rest (drop (length pre) args)).
Proof.
  induction rest as [|c rest IH]; intros pre Hpos Hcols Hlen; [done|].
  assert (Hc : columns tableColumns !! length pre = Some c).
  { rewrite Hcols, lookup_app_r by lia. by rewrite Nat.sub_diag. }
  assert (Hlt : length pre < length args).
  { rewrite Hlen. unfold Len. rewrite Hcols, length_app. simpl. lia. }
  destruct (lookup_lt_is_Some_2 args _ Hlt) as [a Ha].
  cbn [exec_map].
  assert (Ho : ordinal tableColumns (Name c) = length pre).
  { unfold ordinal. by rewrite (Hpos _ _ Hc). }
  rewrite Ho, (index_Some _ _ _ Ha). cbn [exec_bind].
  rewrite (IH (pre ++ [c])); [|done|by rewrite <- app_assoc|done].
  cbn [exec_bind]. rewrite length_app, Nat.add_1_r.
  rewrite (drop_S _ _ _ Ha). done.
Qed.

Lemma convert_args_positional (tableColumns : ColumnList) (args : list Arg) :
  positional tableColumns -> length args = Len tableColumns ->
  convert_args tableColumns tableColumns args
  = Returns (zip_with ConvertArg (columns tableColumns) args).
Proof.
  intros Hpos Hlen. unfold convert_args.
  exact (convert_args_positional_from tableColumns args (columns tableColumns) []
           Hpos eq_refl Hlen).
Qed.

Lemma BuildEqualsPreparedComparison_cases (names : list string) :
  (names <> [] /\ Forall (fun c => c <> "") names
   /\ BuildEqualsPreparedComparison names = Returns (prepared_equalities names, None))
  \/ (~ (names <> [] /\ Forall (fun c => c <> "") names)
      /\ exists err, BuildEqualsPreparedComparison names = Returns ("", Some err)).
Proof.
  unfold BuildEqualsPreparedComparison, buildPreparedValues.
  destruct (BuildEqualsComparison_cases names (replicate (length names) "?"))
    as [(H1 & H2 & H3 & H4 & ->)|[Hn [err ->]]].
  - left. repeat split; try done. unfold prepared_equalities.
    replace (zip_with equality_text names (replicate (length names) "?"))
      with (map (fun c => equality_text c "?") names); [done|].
    clear. induction names as [|c names IH]; [done|]. simpl. by rewrite IH.
  - right. split; [|eauto]. intros [H1 H3]. apply Hn. repeat split; try done.
    + by rewrite length_replicate.
    + apply Forall_replicate. done.
Qed.

(** X11.  On a table whose ordinals are the positions of its columns,
    with one argument for every column, at least one column and no empty
    column name, [BuildDMLDeleteQuery] returns the delete statement over the
    conjunction of one prepared equality for every column, and the
    arguments converted column by column, in the order of the columns. *)
Theorem BuildDMLDeleteQuery_positional (databaseName tableName : string)
    (tableColumns : ColumnList) (args : list Arg) :
  positional tableColumns ->
  length args = Len tableColumns ->
  Len tableColumns <> 0 ->
  Forall (fun c => c <> "") (Names tableColumns) ->
  BuildDMLDeleteQuery databaseName tableName tableColumns args
  = Returns (delete_text (EscapeName databaseName) (EscapeName tableName)
               (prepared_equalities (Names tableColumns)),
             zip_with ConvertArg (columns tableColumns) args, None).
Proof.
  intros Hpos Hlen Hne Hnames. unfold BuildDMLDeleteQuery.
  destruct (decide (length args <> Len tableColumns)) as [?|_]; [done|].
  rewrite convert_args_positional by done. cbn [exec_bind].
  destruct (BuildEqualsPreparedComparison_cases (Names tableColumns))
    as [(_ & _ & ->)|[Hn _]].
  - reflexivity.
  - destruct Hn. split; [|done]. intros E. apply Hne. unfold Len, Names in *.
    by destruct (columns tableColumns).
Qed.

Lemma placeholders_prepared_equalities (names : list string) :
  clean_names names -> placeholders (prepared_equalities names) = length names.
Proof.
  intros Hn. unfold prepared_equalities. rewrite !placeholders_app.
  rewrite placeholders_Join by done. rewrite map_map.
  rewrite sum_list_ones; [cbn; lia|].
  eapply Forall_impl; [exact Hn|]. intros c Hc. unfold equality_text.
  rewrite !placeholders_app, Hc. done.
Qed.

(** X12.  When [BuildDMLDeleteQuery] succeeds and no name brings a
    placeholder of its own, the statement has as many placeholders as
    arguments are returned, which is the number of arguments given. *)
Theorem BuildDMLDeleteQuery_placeholders (databaseName tableName : string)
    (tableColumns : ColumnList) (args : list Arg)
    (result : string) (uniqueKeyArgs : list Arg) :
  BuildDMLDeleteQuery databaseName tableName tableColumns args
  = Returns (result, uniqueKeyArgs, None) ->
  clean_names (databaseName :: tableName :: Names tableColumns) ->
  placeholders result = length uniqueKeyArgs
  /\ length uniqueKeyArgs = length args.
Proof.
  intros E Hn. unfold BuildDMLDeleteQuery in E.
  destruct (decide (length args <> Len tableColumns)) as [?|Hlen]; [discriminate|].
  destruct (convert_args tableColumns tableColumns args) as [uk|] eqn:Euk;
    [|discriminate].
  cbn [exec_bind] in E. apply convert_args_length in Euk.
  destruct (BuildEqualsPreparedComparison_cases (Names tableColumns))
    as [(_ & _ & E')|[_ [err E']]]; rewrite E' in E; cbn [exec_bind] in E;
    [|discriminate].
  injection E as <- <-.
  apply Forall_cons in Hn as [Hdb Hn]. apply Forall_cons in Hn as [Ht Hn].
  split; [|lia].
  repeat rewrite placeholders_app.
  rewrite (placeholders_prepared_equalities _ Hn).
  rewrite (Hdb : placeholders _ = 0), (Ht : placeholders _ = 0).
  rewrite ?(clean_tabs _ : placeholders _ = 0).
  cbn [placeholders Ascii.eqb Bool.eqb Nat.add nl tab].
  unfold Names. rewrite length_map. unfold Len in Euk. lia.
Qed.

Lemma write_tuples_closed (preparedValues : list string) (n : nat) :
  forall todo i buffer,
  i + todo = n ->
  write_tuples n preparedValues i todo buffer
  = buffer +:+ Join (replicate todo ("(" +:+ Join preparedValues ", " +:+ ")")) ",".
Proof.
  assert (Happ : forall a b c : string, (a +:+ b) +:+ c = a +:+ b +:+ c).
  { intros a b c. induction a as [|x a IHa]; [done|].
    change (String x ((a +:+ b) +:+ c) = String x (a +:+ b +:+ c)). by rewrite IHa. }
  assert (Hnil : forall a : string, a +:+ "" = a).
  { intros a. induction a as [|x a IHa]; [done|].
    change (String x (a +:+ "") = String x a). by rewrite IHa. }
  induction todo as [|todo IH]; intros i buffer Hn.
  - simpl. by rewrite Hnil.
  - cbn [write_tuples]. rewrite IH by lia.
    destruct (decide (i = n - 1)) as [E|E].
    + assert (todo = 0) as -> by lia. simpl. by rewrite !Hnil.
    + destruct todo as [|todo]; [lia|].
      cbn [replicate].
      change (Join (?t :: ?t' :: ?l) ",") with (t +:+ "," +:+ Join (t' :: l) ",").
      by rewrite !Happ.
Qed.

(** X13.  When [BuildDMLInsertQuery] succeeds on [n] rows, the statement
    lists [n] value tuples with a comma between them and none at the end
    (no tuple when there is no row); it returns the shared columns' worth of
    arguments for every row; and the statement holds the mapped columns'
    worth of placeholders for every row, when no name or timezone brings a
    placeholder of its own. *)
Theorem BuildDMLInsertQuery_tuples (databaseName tableName : string)
    (tableColumns sharedColumns mappedSharedColumns : ColumnList)
    (columnValues : list (list Arg)) (result : string) (sharedArgs : list Arg) :
  BuildDMLInsertQuery databaseName tableName tableColumns sharedColumns
    mappedSharedColumns columnValues
  = Returns (result, sharedArgs, None) ->
  result = insert_text (EscapeName databaseName) (EscapeName tableName)
             (Join (map EscapeName (Names mappedSharedColumns)) ", ")
             (value_tuples (buildColumnsPreparedValues mappedSharedColumns)
                (length columnValues))
  /\ length sharedArgs = length columnValues * Len sharedColumns
  /\ (clean_names [databaseName; tableName] ->
      Forall clean_column (columns mappedSharedColumns) ->
      placeholders result = length columnValues * Len mappedSharedColumns).
Proof.
  intros E. unfold BuildDMLInsertQuery in E.
  destruct (forallb _ columnValues); cbn [negb] in E; [|discriminate].
  destruct (IsSubsetOf sharedColumns tableColumns); cbn [negb] in E; [|discriminate].
  destruct (decide (Len sharedColumns = 0)) as [?|_]; [discriminate|].
  destruct (exec_map (convert_args tableColumns sharedColumns) columnValues)
    as [rows|] eqn:Erows; [|discriminate].
  cbn [exec_bind] in E. rewrite write_tuples_closed in E by lia.
  injection E as <- <-. split; [reflexivity|]. split.
  - pose proof (exec_map_length _ _ _ Erows) as Hl.
    assert (Hrows : Forall (fun row => length row = Len sharedColumns) rows).
    { eapply exec_map_Forall; [|exact Erows]. intros x y _ Hy.
      by apply convert_args_length in Hy. }
    rewrite <- Hl. clear -Hrows. induction Hrows as [|r rows Hr _ IH]; [done|].
    simpl. rewrite length_app, Hr, IH. lia.
  - intros Hn Hk.
    apply Forall_cons in Hn as [Hdb Hn]. apply Forall_cons in Hn as [Ht _].
    pose proof (clean_Join_names _ (clean_column_names _ Hk)) as Hnames.
    assert (Htuple : placeholders ("(" +:+ Join (buildColumnsPreparedValues
                                                  mappedSharedColumns) ", " +:+ ")")
                     = Len mappedSharedColumns).
    { rewrite !placeholders_app, placeholders_Join by done.
      rewrite sum_list_ones by (by apply prepared_values_one).
      rewrite prepared_values_length. cbn. lia. }
    assert (Htuples : placeholders (value_tuples (buildColumnsPreparedValues
                                                    mappedSharedColumns)
                                      (length columnValues))
                      = length columnValues * Len mappedSharedColumns).
    { unfold value_tuples. rewrite placeholders_Join by done.
      by rewrite map_fmap, fmap_replicate, sum_list_replicate, Htuple. }
    unfold duplicateNames.
    repeat rewrite placeholders_app.
    change (Join (replicate (length columnValues) _) ",")
      with (value_tuples (buildColumnsPreparedValues mappedSharedColumns)
              (length columnValues)).
    rewrite Htuples.
    rewrite (Hdb : placeholders _ = 0), (Ht : placeholders _ = 0),
      (Hnames : placeholders _ = 0).
    rewrite ?(clean_tabs _ : placeholders _ = 0).
    cbn [placeholders Ascii.eqb Bool.eqb Nat.add nl tab]. lia.
Qed.

(** X14.  When [BuildDMLUpdateQuery] succeeds, its shared arguments are
    those that [BuildDMLInsertQuery] returns for the same rows, and its
    unique-key arguments are those that [BuildDMLDeleteQuery] returns for
    the where-arguments. *)
Theorem BuildDMLUpdateQuery_args_of_insert_and_delete (databaseName tableName : string)
    (tableColumns sharedColumns mappedSharedColumns : ColumnList)
    (columnValues : list (list Arg)) (whereArgs : list Arg)
    (result : string) (sharedArgs uniqueKeyArgs : list Arg) :
  BuildDMLUpdateQuery databaseName tableName tableColumns sharedColumns
    mappedSharedColumns columnValues whereArgs
  = Returns (result, sharedArgs, uniqueKeyArgs, None) ->
  (exists inserted,
     BuildDMLInsertQuery databaseName tableName tableColumns sharedColumns
       mappedSharedColumns columnValues
     = Returns (inserted, sharedArgs, None))
  /\ (exists deleted err,
        BuildDMLDeleteQuery databaseName tableName tableColumns whereArgs
        = Returns (deleted, uniqueKeyArgs, err)).
Proof.
  intros E. unfold BuildDMLUpdateQuery in E. unfold BuildDMLInsertQuery, BuildDMLDeleteQuery.
  destruct (forallb _ columnValues); cbn [negb] in *; [|discriminate].
  destruct (decide (length whereArgs <> Len tableColumns)) as [?|_]; [discriminate|].
  destruct (IsSubsetOf sharedColumns tableColumns); cbn [negb] in *; [|discriminate].
  destruct (decide (Len sharedColumns = 0)) as [?|_]; [discriminate|].
  destruct (exec_map (convert_args tableColumns sharedColumns) columnValues)
    as [rows|]; [|discriminate].
  cbn [exec_bind] in *.
  destruct (convert_args tableColumns tableColumns whereArgs) as [uk|]; [|discriminate].
  cbn [exec_bind] in *.
  destruct (BuildSetPreparedClause mappedSharedColumns) as [setClause setErr].
  destruct (BuildEqualsPreparedComparison (Names tableColumns)) as [[eq eqErr]|];
    [|discriminate].
  cbn [exec_bind] in *. injection E as _ <- <-.
  split; [eauto|]. destruct eqErr; eauto.
Qed.

End DMLExtras.

(** The properties above on small inputs. *)

Lemma BuildRangeComparison_args_count_witness :
  2 * length ["a_v"; "a_v"; "b_v"; "a_v"; "b_v"]
  = length ["a"; "b"] * (length ["a"; "b"] + 1)
    + (if inclusive_sign "<=" then 2 * length ["a"; "b"] else 0)
  /\ forall a, a ∈ ["a_v"; "a_v"; "b_v"; "a_v"; "b_v"] -> a ∈ ["a_v"; "b_v"].
Proof.
  apply (BuildRangeComparison_args_count (H := PlainUnquote.strconv)
           ["a"; "b"] ["?"; "?"] ["a_v"; "b_v"] "<="
           "((`a` < ?) or (((`a` = ?)) AND (`b` < ?)) or ((`a` = ?) and (`b` = ?)))").
  reflexivity.
Defined.

Lemma BuildRangeComparison_placeholders_witness :
  placeholders "((`a` < ?) or (((`a` = ?)) AND (`b` < ?)) or ((`a` = ?) and (`b` = ?)))"
  = length ["a_v"; "a_v"; "b_v"; "a_v"; "b_v"].
Proof.
  apply (BuildRangeComparison_placeholders (H := PlainUnquote.strconv)
           ["a"; "b"] ["?"; "?"] ["a_v"; "b_v"] "<=");
    [reflexivity | repeat constructor | repeat constructor | reflexivity].
Defined.

Lemma BuildRangeComparison_lexicographic_witness :
  exists p : Pred Z,
    BuildRangeComparison (H := PlainUnquote.strconv) ["a"; "b"] ["?"; "?"] [3; 5]%Z "<="
    = Returns (render (H := PlainUnquote.strconv) p, args_of p, None)
    /\ forall row : string -> Z,
         holds (H := PlainUnquote.strconv) row p
         <-> lex_compare "<="
               (map (fun c => row (identifier (H := PlainUnquote.strconv) c)) ["a"; "b"])
               [3; 5]%Z.
Proof.
  apply (BuildRangeComparison_lexicographic (H := PlainUnquote.strconv)
           ["a"; "b"] ["?"; "?"] [3; 5]%Z "<=").
  - repeat split; try done; repeat constructor; done.
  - repeat constructor.
  - right. left.
Defined.

Lemma BuildRangeInsertPreparedQuery_placeholders_witness :
  exists result,
    BuildRangeInsertPreparedQuery (H := PlainUnquote.strconv) "db" "t" "g"
      ["id"; "ts"] ["id"; "ts"] "PRIMARY" Examples.two_columns
      ["lo"; "lo_ts"] ["hi"; "hi_ts"] true true
    = Returns (result, ["lo"; "lo"; "lo_ts"; "lo"; "lo_ts"; "hi"; "hi"; "hi_ts"; "hi"; "hi_ts"],
               None)
    /\ placeholders result = 10.
Proof.
  eexists. split; [reflexivity|].
  apply (BuildRangeInsertPreparedQuery_placeholders (H := PlainUnquote.strconv)
           "db" "t" "g" ["id"; "ts"] ["id"; "ts"] "PRIMARY" Examples.two_columns
           ["lo"; "lo_ts"] ["hi"; "hi_ts"] true true _
           ["lo"; "lo"; "lo_ts"; "lo"; "lo_ts"; "hi"; "hi"; "hi_ts"; "hi"; "hi_ts"]);
    [reflexivity | repeat constructor | repeat constructor].
Defined.

Lemma BuildRangeSelectPreparedQuery_placeholders_witness :
  exists result,
    BuildRangeSelectPreparedQuery (H := PlainUnquote.strconv) "db" "t" "g"
      ["id"; "ts"] ["id"; "ts"] "PRIMARY" Examples.two_columns
      ["lo"] ["hi"; "hi_ts"] true 100
    = Returns (result, ["hi"; "hi"; "hi_ts"; "hi"; "hi_ts"], None)
    /\ placeholders result = 5.
Proof.
  eexists. split; [reflexivity|].
  apply (BuildRangeSelectPreparedQuery_placeholders (H := PlainUnquote.strconv)
           "db" "t" "g" ["id"; "ts"] ["id"; "ts"] "PRIMARY" Examples.two_columns
           ["lo"] ["hi"; "hi_ts"] true 100 _ ["hi"; "hi"; "hi_ts"; "hi"; "hi_ts"]);
    [reflexivity | repeat constructor | repeat constructor].
Defined.

Lemma BuildUniqueKeyRangeEndPreparedQuery_args_witness :
  exists result,
    BuildUniqueKeyRangeEndPreparedQuery (H := PlainUnquote.strconv) "db" "t"
      Examples.two_columns ["lo"; "lo_ts"] ["hi"; "hi_ts"] 100 false "hint"
    = Returns (result, ["lo"; "lo"; "lo_ts"; "hi"; "hi"; "hi_ts"; "hi"; "hi_ts"], None)
    /\ ["lo"; "lo"; "lo_ts"; "hi"; "hi"; "hi_ts"; "hi"; "hi_ts"]
       = args_of (lower_bound Examples.two_columns
                    (buildColumnsPreparedValues Examples.two_columns) ["lo"; "lo_ts"] false)
         ++ args_of (upper_bound Examples.two_columns
                       (buildColumnsPreparedValues Examples.two_columns) ["hi"; "hi_ts"])
    /\ (clean_names (H := PlainUnquote.strconv) ["db"; "t"] ->
        Forall (clean_column (H := PlainUnquote.strconv)) (columns Examples.two_columns) ->
        placeholders result = 8).
Proof.
  eexists. split; [reflexivity|].
  apply (BuildUniqueKeyRangeEndPreparedQuery_args (H := PlainUnquote.strconv) "db" "t"
           Examples.two_columns ["lo"; "lo_ts"] ["hi"; "hi_ts"] 100 false "hint" _
           ["lo"; "lo"; "lo_ts"; "hi"; "hi"; "hi_ts"; "hi"; "hi_ts"]).
  reflexivity.
Defined.

Lemma BuildDMLDeleteQuery_positional_witness :
  BuildDMLDeleteQuery (H := PlainUnquote.strconv) (H0 := Examples.plain_args)
    "db" "t" Examples.two_columns ["7"; "noon"]
  = Returns (delete_text "`db`" "`t`" "((`id` = ?) and (`ts` = ?))", ["7"; "noon"], None).
Proof.
  apply (BuildDMLDeleteQuery_positional (H := PlainUnquote.strconv)
           (H0 := Examples.plain_args) "db" "t" Examples.two_columns ["7"; "noon"]).
  - intros i c Hc. destruct i as [|[|i]]; simpl in Hc; simplify_eq; reflexivity.
  - reflexivity.
  - discriminate.
  - repeat constructor; discriminate.
Defined.

Lemma BuildDMLDeleteQuery_placeholders_witness :
  placeholders (delete_text "`db`" "`t`" "((`id` = ?) and (`ts` = ?))")
  = length ["7"; "noon"]
  /\ length ["7"; "noon"] = length ["7"; "noon"].
Proof.
  apply (BuildDMLDeleteQuery_placeholders (H := PlainUnquote.strconv)
           (H0 := Examples.plain_args) "db" "t" Examples.two_columns ["7"; "noon"]);
    [reflexivity | repeat constructor].
Defined.

Lemma BuildDMLInsertQuery_tuples_witness :
  exists result,
    BuildDMLInsertQuery (H := PlainUnquote.strconv) (H0 := Examples.plain_args)
      "db" "t" Examples.two_columns Examples.two_columns Examples.two_columns
      [["1"; "noon"]; ["2"; "dusk"]; ["3"; "dawn"]]
    = Returns (result, ["1"; "noon"; "2"; "dusk"; "3"; "dawn"], None)
    /\ result
       = insert_text "`db`" "`t`" "`id`, `ts`"
           "(?, convert_tz(?, '+08:00', '+00:00')),(?, convert_tz(?, '+08:00', '+00:00')),(?, convert_tz(?, '+08:00', '+00:00'))"
    /\ length ["1"; "noon"; "2"; "dusk"; "3"; "dawn"] = 3 * 2
    /\ (clean_names (H := PlainUnquote.strconv) ["db"; "t"] ->
        Forall (clean_column (H := PlainUnquote.strconv)) (columns Examples.two_columns) ->
        placeholders result = 3 * 2).
Proof.
  eexists. split; [reflexivity|].
  apply (BuildDMLInsertQuery_tuples (H := PlainUnquote.strconv) (H0 := Examples.plain_args)
           "db" "t" Examples.two_columns Examples.two_columns Examples.two_columns
           [["1"; "noon"]; ["2"; "dusk"]; ["3"; "dawn"]] _
           ["1"; "noon"; "2"; "dusk"; "3"; "dawn"]).
  reflexivity.
Defined.

Lemma BuildDMLUpdateQuery_args_of_insert_and_delete_witness :
  (exists inserted,
     BuildDMLInsertQuery (H := PlainUnquote.strconv) (H0 := Examples.plain_args)
       "db" "t" Examples.two_columns Examples.two_columns Examples.two_columns
       [["1"; "noon"]]
     = Returns (inserted, ["1"; "noon"], None))
  /\ (exists deleted err,
        BuildDMLDeleteQuery (H := PlainUnquote.strconv) (H0 := Examples.plain_args)
          "db" "t" Examples.two_columns ["1"; "dawn"]
        = Returns (deleted, ["1"; "dawn"], err)).
Proof.
  eapply (BuildDMLUpdateQuery_args_of_insert_and_delete (H := PlainUnquote.strconv)
            (H0 := Examples.plain_args) "db" "t" Examples.two_columns Examples.two_columns
            Examples.two_columns [["1"; "noon"]] ["1"; "dawn"]).
  reflexivity.
Defined.

End BuilderLaws.

(** * Properties of the worker *)

Module ClientFacts.
Import Client.

(** Symbolic execution of worker code on a state given by its fields. *)
Ltac mred :=
  cbv beta iota zeta delta [
      bind ret halt panic getW modW getD modD skip Printf updater Sleep call SetGauge
      next_env the_task taskType allocID close spawn do_ return_ and_then block wk wd
      config alloc restartTracker running taskStats task handle payloadRendered startCh
      unblockCh unblocked restartCh destroy destroyCh destroyEvent waitCh disk updates
      logs slept calls gauges prestartResultCh tape set_config set_alloc
      set_restartTracker set_running set_taskStats set_task set_handle set_payloadRendered
      set_startCh set_unblockCh set_unblocked set_restartCh set_destroy set_destroyCh
      set_destroyEvent set_waitCh set_disk set_updates set_logs set_slept set_calls
      set_gauges set_prestartResultCh set_tape fst snd negb].
Ltac mred_all :=
  cbv beta iota zeta delta [
      bind ret halt panic getW modW getD modD skip Printf updater Sleep call SetGauge
      next_env the_task taskType allocID close spawn do_ return_ and_then block wk wd
      config alloc restartTracker running taskStats task handle payloadRendered startCh
      unblockCh unblocked restartCh destroy destroyCh destroyEvent waitCh disk updates
      logs slept calls gauges prestartResultCh tape set_config set_alloc
      set_restartTracker set_running set_taskStats set_task set_handle set_payloadRendered
      set_startCh set_unblockCh set_unblocked set_restartCh set_destroy set_destroyCh
      set_destroyEvent set_waitCh set_disk set_updates set_logs set_slept set_calls
      set_gauges set_prestartResultCh set_tape fst snd negb] in *.
Tactic Notation "mred" "in" hyp(H) :=
  cbv beta iota zeta delta [
      bind ret halt panic getW modW getD modD skip Printf updater Sleep call SetGauge
      next_env the_task taskType allocID close spawn do_ return_ and_then block wk wd
      config alloc restartTracker running taskStats task handle payloadRendered startCh
      unblockCh unblocked restartCh destroy destroyCh destroyEvent waitCh disk updates
      logs slept calls gauges prestartResultCh tape set_config set_alloc
      set_restartTracker set_running set_taskStats set_task set_handle set_payloadRendered
      set_startCh set_unblockCh set_unblocked set_restartCh set_destroy set_destroyCh
      set_destroyEvent set_waitCh set_disk set_updates set_logs set_slept set_calls
      set_gauges set_prestartResultCh set_tape fst snd negb] in H.

Ltac destruct_state s :=
  let w := fresh "w" in let d := fresh "d" in
  destruct s as [w d]; destruct w; destruct d; mred_all; subst.

Section KillFacts.
Context `{Externals}.

Lemma kill_backoff_values :
  map kill_backoff [0; 1; 2; 3; 4]%Z
  = [5 * Second; 20 * Second; 80 * Second; 120 * Second; 120 * Second]%Z.
Proof. reflexivity. Qed.

Lemma kill_backoff_formula (i : Z) :
  (0 <= i < 5)%Z -> kill_backoff i = Z.min (5 * Second * 4 ^ i) (120 * Second).
Proof.
  intros Hi.
  assert (E : (i = 0 \/ i = 1 \/ i = 2 \/ i = 3 \/ i = 4)%Z) by lia.
  destruct E as [-> | [-> | [-> | [-> | ->]]]]; reflexivity.
Qed.


Lemma attempts_S i n : attempts i (S n) = i :: attempts (i + 1) n.
Proof.
  unfold attempts. cbn [seq map]. f_equal; [lia|].
  rewrite <- seq_shift, map_map. apply map_ext. intros k. lia.
Qed.

Lemma handleDestroy_from_spec (errs : list error) : forall (ok : bool) fuel i err s h t rest,
  handle (wk s) = Some h ->
  task (wk s) = Some t ->
  (0 <= i)%Z ->
  (i + Z.of_nat fuel = killFailureLimit)%Z ->
  (if ok then length errs < fuel else length errs = fuel) ->
  tape (wd s) = shutdown_answers errs ok ++ rest ->
  exists s',
    handleDestroy_from fuel i err s
    = Ok (ok, if ok then None else last_error err errs) s'
    /\ wk s' = wk s
    /\ updates (wd s') = updates (wd s)
    /\ disk (wd s') = disk (wd s)
    /\ tape (wd s') = rest
    /\ slept (wd s') = slept (wd s) ++ map kill_backoff (attempts i (length errs))
    /\ calls (wd s')
       = calls (wd s)
         ++ replicate (length errs + if ok then 1 else 0) (CallShutdown (HandleID_ h)).
Proof.
  induction errs as [|e errs IH]; intros ok fuel i err s h t rest Hh Ht Hi Hfuel Hlen Htape.
  - destruct ok; simpl in Hlen.
    + destruct fuel as [|fuel]; [lia|].
      cbn [handleDestroy_from].
      replace (i <? killFailureLimit)%Z with true by (symmetry; apply Z.ltb_lt; lia).
      destruct_state s. cbn [shutdown_answers map app]. mred.
      eexists. split; [reflexivity|]. mred. rewrite app_nil_r. done.
    + subst fuel. cbn [handleDestroy_from].
      replace (i <? killFailureLimit)%Z with false by (symmetry; apply Z.ltb_ge; lia).
      mred. eexists. split; [reflexivity|].
      cbn [shutdown_answers map app length attempts seq] in *. rewrite !app_nil_r. done.
  - destruct fuel as [|fuel]; [destruct ok; simpl in Hlen; lia|].
    cbn [handleDestroy_from].
    replace (i <? killFailureLimit)%Z with true by (symmetry; apply Z.ltb_lt; lia).
    destruct_state s. cbn [shutdown_answers map app]. mred.
    match goal with |- context [handleDestroy_from fuel (i + 1) (Some e) ?s0] =>
      destruct (IH ok fuel (i + 1)%Z (Some e) s0 h t rest)
        as (s' & E & Hw & Hu & Hd & Htp & Hs & Hc)
    end; mred; try done; try lia.
    { destruct ok; simpl in Hlen; lia. }
    exists s'. split; [exact E|]. mred in Hw. mred in Hu. mred in Hd. mred in Hs. mred in Hc.
    repeat split; try done.
    + rewrite Hs. rewrite <- app_assoc. f_equal. cbn [length]. by rewrite attempts_S.
    + rewrite Hc. by rewrite <- app_assoc.
Qed.

Lemma last_error_last err errs :
  last_error err errs = match last errs with Some e => Some e | None => err end.
Proof.
  revert err. induction errs as [|e errs IH]; intros err; [done|].
  unfold last_error in *. cbn [foldl]. rewrite IH.
  destruct errs as [|e0 errs']; [reflexivity|].
  change (last (e :: e0 :: errs')) with (last (e0 :: errs')).
  destruct (last (e0 :: errs')) eqn:El; [done|]. by apply last_None in El.
Qed.

(** C2.  Whatever the outcomes of [Shutdown] (a run of failures [errs]
    followed by a success, or five failures), [handleDestroy] calls
    [Shutdown] at most five times, returns [(true, nil)] at the first
    success and [(false, last error)] after five failures, and sleeps after
    the failed attempt [i] for [min(5s * 4^i, 120s)]: 5s, 20s, 80s, 120s,
    120s. *)
Theorem handleDestroy_bounded_backoff (s : St) (h : DriverHandle) (t : Task)
    (errs : list error) (ok : bool) (rest : list Env) :
  handle (wk s) = Some h ->
  task (wk s) = Some t ->
  (if ok then length errs < 5 else length errs = 5) ->
  tape (wd s) = shutdown_answers errs ok ++ rest ->
  exists s',
    handleDestroy s = Ok (ok, if ok then None else last errs) s'
    /\ calls (wd s')
       = calls (wd s)
         ++ replicate (length errs + if ok then 1 else 0) (CallShutdown (HandleID_ h))
    /\ length errs + (if ok then 1 else 0) <= 5
    /\ slept (wd s') = slept (wd s) ++ take (length errs) backoff_delays
    /\ take (length errs) backoff_delays
       = map (fun i => Z.min (5 * Second * 4 ^ i) (120 * Second)) (attempts 0 (length errs))
    /\ tape (wd s') = rest
    /\ wk s' = wk s.
Proof.
  intros Hh Ht Hlen Htape.
  destruct (handleDestroy_from_spec errs ok (Z.to_nat killFailureLimit) 0 None s h t rest)
    as (s' & E & Hw & _ & _ & Htp & Hs & Hc); try done.
  assert (Hn : length errs <= 5) by (destruct ok; lia).
  assert (Hb : map kill_backoff (attempts 0 (length errs)) = take (length errs) backoff_delays).
  { destruct (length errs) as [|[|[|[|[|[|n]]]]]]; try reflexivity. lia. }
  exists s'. unfold handleDestroy. rewrite E.
  repeat split; try done.
  - destruct ok; [done|]. rewrite last_error_last. destruct errs; [done|].
    by destruct (last (e :: errs)) eqn:El; [|apply last_None in El].
  - destruct ok; lia.
  - by rewrite Hs, Hb.
  - rewrite <- Hb. apply map_ext_in. intros i Hi. apply kill_backoff_formula.
    unfold attempts in Hi. apply in_map_iff in Hi as (k & <- & Hk). apply in_seq in Hk. lia.
Qed.

End KillFacts.

Lemma handleDestroy_bounded_backoff_witness :
  exists s',
    handleDestroy
      (Examples.started (shutdown_answers ["busy"; "busy"] true ++ []))
    = Ok (true, None) s'
    /\ calls (wd s') = [] ++ replicate (2 + 1) (CallShutdown "h1")
    /\ 2 + 1 <= 5
    /\ slept (wd s') = [] ++ [5 * Second; 20 * Second]%Z
    /\ [5 * Second; 20 * Second]%Z
       = map (fun i => Z.min (5 * Second * 4 ^ i) (120 * Second)) (attempts 0 2)
    /\ tape (wd s') = []
    /\ wk s' = wk (Examples.started (shutdown_answers ["busy"; "busy"] true ++ [])).
Proof.
  apply (handleDestroy_bounded_backoff
           (Examples.started (shutdown_answers ["busy"; "busy"] true ++ []))
           Examples.h1 Examples.task1 ["busy"; "busy"] true []);
    [reflexivity | reflexivity | simpl; lia | reflexivity].
Defined.

Section LatchFacts.
Context `{Externals}.

Lemma Destroy_again event s : destroy (wk s) = true -> Destroy event s = Ok tt s.
Proof. intros Hd. destruct_state s. reflexivity. Qed.

Lemma UnblockStart_again source s :
  unblocked (wk s) = true -> UnblockStart source s = Ok tt s.
Proof. intros Hu. destruct_state s. reflexivity. Qed.

Lemma call_all_noop {A} (f : A -> M unit) (xs : list A) s :
  (forall x, f x s = Ok tt s) -> call_all (map f xs) s = Ok tt s.
Proof.
  intros Hf. induction xs as [|x xs IH]; [done|].
  cbn [map call_all]. unfold bind at 1. by rewrite Hf.
Qed.

Lemma Destroy_latched event s u s' :
  Destroy event s = Ok u s' -> destroy (wk s') = true.
Proof.
  intros E. destruct s as [w d].
  destruct w as [? ? ? ? ? ? ? ? ? ? ? ? dst dch ? ?].
  unfold Destroy in E. mred in E.
  destruct dst; [by inversion E|].
  destruct dch; mred in E; [|discriminate].
  by inversion E.
Qed.

Lemma UnblockStart_latched source s u s' :
  UnblockStart source s = Ok u s' -> unblocked (wk s') = true.
Proof.
  intros E. destruct s as [w d].
  destruct w as [? ? ? ? ? tsk ? ? ? uch ubl ? ? ? ? ?].
  unfold UnblockStart in E. mred in E.
  destruct ubl; [by inversion E|].
  destruct tsk; mred in E; [|discriminate].
  destruct uch; mred in E; [|discriminate].
  by inversion E.
Qed.

Lemma call_all_once {A} (f : A -> M unit) (x : A) (xs : list A) s :
  (forall u s', f x s = Ok u s' -> forall y, f y s' = Ok tt s') ->
  call_all (map f (x :: xs)) s = f x s.
Proof.
  intros Hf. cbn [map call_all]. unfold bind at 1.
  destruct (f x s) as [[] s'|w s'] eqn:E; [|done].
  apply call_all_noop. by apply (Hf tt).
Qed.

(** C6.  [Destroy] and [UnblockStart] are latches, each on its own fields.
    The first [Destroy(event)], on a worker not yet destroyed, sets
    [destroy], stores the event and closes [destroyCh]; on a destroyed
    worker [Destroy] changes nothing; and from every state, whatever the
    other latch says, any number of calls leaves what the first call
    leaves, so the event stays the first one and the channel is closed
    once.  [UnblockStart] does the same with [unblocked] and [unblockCh],
    after one log line that reads the task. *)
Theorem latches_idempotent (s : St)
    (event : option TaskEvent) (events : list (option TaskEvent))
    (source : string) (sources : list string) :
  (destroy (wk s) = false -> destroyCh (wk s) = Open ->
   Destroy event s
   = Ok tt (mkSt (set_destroyCh Closed (set_destroyEvent event (set_destroy true (wk s))))
              (wd s)))
  /\ (destroy (wk s) = true -> Destroy event s = Ok tt s)
  /\ call_all (map Destroy (event :: events)) s = Destroy event s
  /\ (forall t, task (wk s) = Some t ->
       unblocked (wk s) = false -> unblockCh (wk s) = Open ->
       UnblockStart source s
       = Ok tt (mkSt (set_unblockCh Closed (set_unblocked true (wk s)))
                  (set_logs (logs (wd s)
                             ++ [("[DEBUG] client: unblocking task %v for alloc %q: %v",
                                  [Type_ t; ID (alloc (wk s)); source])]) (wd s))))
  /\ (unblocked (wk s) = true -> UnblockStart source s = Ok tt s)
  /\ call_all (map UnblockStart (source :: sources)) s = UnblockStart source s.
Proof.
  split; [|split; [|split; [|split; [|split]]]].
  - intros Hd Hc. destruct_state s. reflexivity.
  - apply Destroy_again.
  - apply call_all_once. intros u s' E e.
    apply Destroy_again. by apply Destroy_latched in E.
  - intros t Ht Hu Hc. destruct_state s. reflexivity.
  - apply UnblockStart_again.
  - apply call_all_once. intros u s' E e.
    apply UnblockStart_again. by apply UnblockStart_latched in E.
Qed.

(** C8.  [prestart], started on a result channel with room (as [run]
    makes it), offers the start signal without waiting (the buffer of
    [startCh] then holds exactly one signal), reports [true] and returns;
    nothing else changes, whatever [unblockCh] and [waitCh] are: the second
    [select] never asks the environment and [false] is never reported. *)
Theorem prestart_reports_true (s : St) (fuel : nat) :
  length (prestartResultCh (wd s)) < 1 ->
  startCh (wk s) <= 1 ->
  prestart (S fuel) s
  = Ok tt (mkSt (set_startCh 1 (wk s)) (set_prestartResultCh [true] (wd s))).
Proof.
  intros Hbuf Hcap. destruct_state s.
  destruct prestartResultCh0; [|simpl in Hbuf; lia].
  unfold prestart, prestart_body, send_start, send_result.
  cbn [for_ever]. mred.
  assert (E : startCh0 = 0 \/ startCh0 = 1) by lia.
  destruct E as [-> | ->]; reflexivity.
Qed.

End LatchFacts.

(** The latches on a worker that has been unblocked and is then
    destroyed three times, and on a destroyed worker that is then unblocked
    twice. *)
Lemma latches_idempotent_witness :
  call_all (map Destroy
              [Some (NewTaskEvent TaskKilled); None; Some (NewTaskEvent TaskKilling)])
    (state_of (UnblockStart "template" (Examples.new_supervisor [])))
  = Ok tt (mkSt (set_destroyCh Closed
                   (set_destroyEvent (Some (NewTaskEvent TaskKilled))
                      (set_destroy true
                         (wk (state_of (UnblockStart "template"
                                          (Examples.new_supervisor [])))))))
             (wd (state_of (UnblockStart "template" (Examples.new_supervisor [])))))
  /\ call_all (map UnblockStart ["template"; "vault"])
       (state_of (Destroy None (Examples.new_supervisor [])))
     = Ok tt (mkSt (set_unblockCh Closed
                      (set_unblocked true
                         (wk (state_of (Destroy None (Examples.new_supervisor []))))))
                (set_logs [("[DEBUG] client: unblocking task %v for alloc %q: %v",
                            ["src"; "a1"; "template"])]
                   (wd (state_of (Destroy None (Examples.new_supervisor [])))))).
Proof.
  split.
  - pose proof (latches_idempotent
                  (state_of (UnblockStart "template" (Examples.new_supervisor [])))
                  (Some (NewTaskEvent TaskKilled)) [None; Some (NewTaskEvent TaskKilling)]
                  "template" ["vault"]) as (Hfirst & _ & Hall & _).
    rewrite Hall. apply Hfirst; reflexivity.
  - pose proof (latches_idempotent
                  (state_of (Destroy None (Examples.new_supervisor [])))
                  (Some (NewTaskEvent TaskKilled)) [None]
                  "template" ["vault"]) as (_ & _ & _ & Hfirst & _ & Hall).
    rewrite Hall. apply (Hfirst Examples.task1); reflexivity.
Defined.

Lemma prestart_reports_true_witness :
  prestart 1 (Examples.new_supervisor [ESelUnblock; ESelWaitChClosed])
  = Ok tt (mkSt (set_startCh 1 (wk (Examples.new_supervisor [ESelUnblock; ESelWaitChClosed])))
             (set_prestartResultCh [true]
                (wd (Examples.new_supervisor [ESelUnblock; ESelWaitChClosed])))).
Proof.
  apply (prestart_reports_true
           (Examples.new_supervisor [ESelUnblock; ESelWaitChClosed]) 0); simpl; lia.
Defined.


Section CollectorFacts.
Context `{Externals}.

Lemma emitStats_gauges (ru : TaskStatistics) (s : St) (t : Task) :
  task (wk s) = Some t -> emitStats ru s = Ok tt (published t ru s).
Proof.
  intros Ht. destruct_state s. unfold emitStats, published, sample_gauges. mred.
  destruct (PublishAllocationMetrics config0), ru as [[ts|] [dc|] [th|]]; mred;
    cbn [StatsTableStats StatsDelayCount StatsThroughputStat app];
    rewrite <- ?app_assoc, ?app_nil_r; reflexivity.
Qed.

(** C9.  One sampling step of the collector on a worker with a handle.
    When [Stats] fails with the message of [DriverStatsNotImplemented] the
    collector logs at debug level and returns, leaving the environment's
    further moves untouched; when the message contains
    [connection is shut down] nothing is logged and sampling goes on; any
    other error is logged as a warning and sampling goes on; on success
    [taskStats] is updated, the gauges of a non-nil sample are set (when
    the configuration publishes allocation metrics), and sampling goes
    on. *)
Theorem collector_error_policy (s : St) (h : DriverHandle) (t : Task)
    (r : error + option TaskStatistics) (rest : list Env) (fuel : nat) :
  handle (wk s) = Some h ->
  task (wk s) = Some t ->
  tape (wd s) = ETick :: EStats r :: rest ->
  collectResourceUsageStats (S fuel) s
  = match r with
    | inl err =>
        if String.eqb err DriverStatsNotImplemented then
          Ok tt (logged ("[DEBUG] client: driver for task %q in allocation %q doesn't support stats",
                         [Type_ t; ID (alloc (wk s))]) (sampled h rest s))
        else if Contains err "connection is shut down" then
          collectResourceUsageStats fuel (sampled h rest s)
        else
          collectResourceUsageStats fuel
            (logged ("[WARN] client: error fetching stats of task %v: %v", [Type_ t; err])
               (sampled h rest s))
    | inr ru =>
        let updated := mkSt (set_taskStats ru (wk s)) (wd (sampled h rest s)) in
        match ru with
        | Some stats => collectResourceUsageStats fuel (published t stats updated)
        | None => collectResourceUsageStats fuel updated
        end
    end.
Proof.
  intros Hh Ht Htape.
  destruct r as [err|[stats|]].
  - destruct_state s.
    cbn [collectResourceUsageStats]. unfold collect_sample, logged, sampled. mred.
    destruct (String.eqb err DriverStatsNotImplemented); mred; [reflexivity|].
    destruct (Contains err "connection is shut down"); mred; reflexivity.
  - cbv zeta.
    pose proof (emitStats_gauges stats
                  (mkSt (set_taskStats (Some stats) (wk s)) (wd (sampled h rest s))) t) as Hg.
    destruct_state s.
    cbn [collectResourceUsageStats]. unfold collect_sample, sampled in *. mred. mred in Hg.
    rewrite (Hg eq_refl). reflexivity.
  - destruct_state s.
    cbn [collectResourceUsageStats]. unfold collect_sample, logged, sampled. mred.
    reflexivity.
Qed.

End CollectorFacts.

(** A sample with table statistics only, then the sentinel error: three
    gauges are set, and the collector returns at the second tick. *)
Lemma collector_error_policy_witness :
  collectResourceUsageStats (H := Examples.externals) 3
    (Examples.started
       [ETick; EStats (inr (Some Examples.table_sample));
        ETick; EStats (inl "stats not implemented for driver"); ETick])
  = collectResourceUsageStats (H := Examples.externals) 2
      (published Examples.task1 Examples.table_sample
         (mkSt (set_taskStats (Some Examples.table_sample) (wk (Examples.started [])))
            (wd (sampled Examples.h1
                   [ETick; EStats (inl "stats not implemented for driver"); ETick]
                   (Examples.started [])))))
  /\ gauges (wd (state_of
                   (collectResourceUsageStats (H := Examples.externals) 3
                      (Examples.started
                         [ETick; EStats (inr (Some Examples.table_sample));
                          ETick; EStats (inl "stats not implemented for driver");
                          ETick]))))
     = [(["client"; "allocs"; "job"; "src"; "a1"; "src"; "table"; "insert"], 7%Z);
        (["client"; "allocs"; "job"; "src"; "a1"; "src"; "table"; "update"], 8%Z);
        (["client"; "allocs"; "job"; "src"; "a1"; "src"; "table"; "delete"], 9%Z)]
  /\ tape (wd (state_of
                 (collectResourceUsageStats (H := Examples.externals) 3
                    (Examples.started
                       [ETick; EStats (inr (Some Examples.table_sample));
                        ETick; EStats (inl "stats not implemented for driver");
                        ETick]))))
     = [ETick].
Proof.
  split; [|split; reflexivity].
  apply (collector_error_policy (H := Examples.externals)
           (Examples.started
              [ETick; EStats (inr (Some Examples.table_sample));
               ETick; EStats (inl "stats not implemented for driver"); ETick])
           Examples.h1 Examples.task1 (inr (Some Examples.table_sample))
           [ETick; EStats (inl "stats not implemented for driver"); ETick] 2); reflexivity.
Defined.

Section SnapshotFacts.
Context `{Externals}.

(** C7.  After a successful [SaveState] of a worker with a task,
    [RestoreState] on a new worker whose state file is the same one sets
    [task] and [payloadRendered] to the saved values; when the saved
    worker had a handle with a recorded (non-empty) identifier, the driver
    is created and [Open] succeeds, the opened handle is installed and
    [running] is set; when [Open] fails, [RestoreState] still returns nil
    and the worker is left without a handle, not running. *)
Theorem save_restore_roundtrip (s s1 : St) (t t0 : Task)
    (c0 : ClientConfig) (a0 : Allocation) (moves : list Env) :
  task (wk s) = Some t ->
  SaveState s = Ok None s1 ->
  StateDir c0 = StateDir (config (wk s)) ->
  ID a0 = ID (alloc (wk s)) ->
  md5_hex (Type_ t0) = md5_hex (Type_ t) ->
  let s2 := mkSt (NewWorker c0 a0 (Some t0)) (set_tape moves (wd s1)) in
  (task (wk (state_of (RestoreState s2))) = Some t
   /\ payloadRendered (wk (state_of (RestoreState s2))) = payloadRendered (wk s))
  /\ (forall h h' rest,
        handle (wk s) = Some h -> HandleID_ h <> "" ->
        moves = ENewDriver None :: EOpen (inr h') :: rest ->
        exists s3, RestoreState s2 = Ok None s3
                   /\ handle (wk s3) = Some h'
                   /\ running (wk s3) = true
                   /\ last (calls (wd s3))
                      = Some (CallOpen (JobName a0) (Type_ t) (HandleID_ h)))
  /\ (forall h err rest,
        handle (wk s) = Some h -> HandleID_ h <> "" ->
        moves = ENewDriver None :: EOpen (inl err) :: rest ->
        exists s3, RestoreState s2 = Ok None s3
                   /\ handle (wk s3) = None
                   /\ running (wk s3) = false).
Proof.
  intros Ht Hsave Hdir Hid Hmd5 s2. subst s2.
  destruct_state s. unfold SaveState, stateFilePath in Hsave. mred in Hsave.
  unfold persistState in Hsave. cbn [writable files] in Hsave.
  destruct (writable disk0) eqn:Hw; mred in Hsave; [|discriminate].
  injection Hsave as <-.
  unfold RestoreState, stateFilePath, NewWorker. mred.
  rewrite Hdir, Hid, Hmd5. unfold restoreState. cbn [files set_disk disk].
  rewrite lookup_insert_eq. cbn [snapTask snapPayloadRendered snapHandleID]. mred.
  split; [|split].
  - destruct handle0 as [h|]; cbn [negb String.eqb].
    + destruct (String.eqb (HandleID_ h) "") eqn:E; cbn [negb]; [done|].
      unfold createDriver.
      repeat (mred; try done;
              match goal with
              | |- context [match ?x with _ => _ end] => is_var x; destruct x
              end).
    + done.
  - intros h h' rest [= ->] Hne ->.
    apply String.eqb_neq in Hne. rewrite Hne. cbn [negb].
    unfold createDriver. mred. eexists. split; [reflexivity|]. mred.
    repeat split; try done. by rewrite last_snoc.
  - intros h err rest [= ->] Hne ->.
    apply String.eqb_neq in Hne. rewrite Hne. cbn [negb].
    unfold createDriver. mred. eexists. split; [reflexivity|]. mred. done.
Qed.

End SnapshotFacts.

Lemma save_restore_roundtrip_witness :
  exists s3,
    RestoreState (H := Examples.externals)
      (mkSt (NewWorker Examples.cfg Examples.alloc1 (Some Examples.task1))
         (set_tape [ENewDriver None; EOpen (inr Examples.h1)]
            (wd (state_of (SaveState (H := Examples.externals) (Examples.started []))))))
    = Ok None s3
    /\ handle (wk s3) = Some Examples.h1
    /\ running (wk s3) = true
    /\ last (calls (wd s3)) = Some (CallOpen "job" "src" "h1").
Proof.
  apply (proj1 (proj2 (save_restore_roundtrip (H := Examples.externals)
                         (Examples.started [])
                         (state_of (SaveState (H := Examples.externals) (Examples.started [])))
                         Examples.task1 Examples.task1 Examples.cfg Examples.alloc1
                         [ENewDriver None; EOpen (inr Examples.h1)]
                         eq_refl eq_refl eq_refl eq_refl eq_refl))
           Examples.h1 Examples.h1 []);
    [reflexivity | discriminate | reflexivity].
Defined.

(** ** The symbols passed to the updater *)

Section Emission.
Context `{Externals}.

Lemma symbols_modW f s : symbols (mkSt (f (wk s)) (wd s)) = symbols s.
Proof. reflexivity. Qed.

Lemma emits_weaken {A} (m : M A) (ok ok' : A -> list string -> Prop)
    (stopped stopped' : list string -> Prop) :
  emits m ok stopped ->
  (forall a d, ok a d -> ok' a d) -> (forall d, stopped d -> stopped' d) ->
  emits m ok' stopped'.
Proof.
  intros Hm Hok Hst s. specialize (Hm s).
  destruct (m s) as [a s'|w s']; destruct Hm as (d & E & Hd); eauto.
Qed.

Lemma emits_bind {A B} (m : M A) (k : A -> M B) ok1 st1 ok stopped :
  emits m ok1 st1 ->
  (forall a d1, ok1 a d1 ->
     emits (k a) (fun b d2 => ok b (d1 ++ d2)) (fun d2 => stopped (d1 ++ d2))) ->
  (forall d, st1 d -> stopped d) ->
  emits (bind m k) ok stopped.
Proof.
  intros Hm Hk Hst s. unfold bind. specialize (Hm s).
  destruct (m s) as [a s'|w s']; destruct Hm as (d1 & E1 & Hd1).
  - specialize (Hk a d1 Hd1 s').
    destruct (k a s') as [b s''|w s'']; destruct Hk as (d2 & E2 & Hd2);
      exists (d1 ++ d2); (split; [by rewrite E2, E1, app_assoc | done]).
  - exists d1. eauto.
Qed.

Lemma silent_quietly {A} (m : M A) : silent m -> quietly m.
Proof.
  intros Hm. eapply emits_weaken; [exact Hm| |]; cbv beta; intros; subst; constructor.
Qed.

Lemma silent_ret {A} (a : A) : silent (ret a).
Proof. intros s. exists []. by rewrite app_nil_r. Qed.

Lemma silent_halt {A} w : silent (@halt A w).
Proof. intros s. exists []. by rewrite app_nil_r. Qed.

Lemma silent_getW {A} (f : Worker -> A) : silent (getW f).
Proof. intros s. exists []. by rewrite app_nil_r. Qed.

Lemma silent_getD {A} (f : World -> A) : silent (getD f).
Proof. intros s. exists []. by rewrite app_nil_r. Qed.

Lemma silent_modW f : silent (modW f).
Proof. intros s. exists []. by rewrite app_nil_r. Qed.

Lemma silent_modD f : (forall d, updates (f d) = updates d) -> silent (modD f).
Proof.
  intros Hf s. exists []. unfold symbols. cbn [modD wd]. by rewrite Hf, app_nil_r.
Qed.

Lemma silent_next_env : silent next_env.
Proof.
  intros s. unfold next_env. destruct (tape (wd s)); exists []; by rewrite app_nil_r.
Qed.

Lemma silent_bind {A B} (m : M A) (k : A -> M B) :
  silent m -> (forall a, silent (k a)) -> silent (bind m k).
Proof.
  intros Hm Hk. eapply emits_bind; [exact Hm| |done].
  intros a d1 ->. exact (Hk a).
Qed.

Lemma quietly_bind {A B} (m : M A) (k : A -> M B) :
  quietly m -> (forall a, quietly (k a)) -> quietly (bind m k).
Proof.
  intros Hm Hk. eapply emits_bind; [exact Hm| |done].
  intros a d1 Hd1. eapply emits_weaken; [exact (Hk a)| |]; cbv beta; intros;
    by apply Forall_app.
Qed.

Lemma silent_spawn (m : M unit) : silent m -> silent (spawn m).
Proof.
  intros Hm s. unfold spawn. specialize (Hm s). by destruct (m s).
Qed.

Lemma quietly_updater t st ev : live st -> quietly (updater t st ev).
Proof.
  intros Hst s. unfold updater, modD. exists [st]. split.
  - unfold symbols. cbn. by rewrite map_app.
  - by constructor.
Qed.

End Emission.

(** Solves [silent m] for code made of the primitives, of operations
    already known to be silent, and of case distinctions. *)
Create HintDb emission.
#[export] Hint Resolve silent_ret silent_halt silent_getW silent_getD silent_modW
  silent_next_env : emission.

Ltac emission_head m :=
  lazymatch m with
  | ?f _ _ _ _ _ => f
  | ?f _ _ _ _ => f
  | ?f _ _ _ => f
  | ?f _ _ => f
  | ?f _ => f
  | ?f => f
  end.

Ltac silent_step :=
  lazymatch goal with
  | |- silent (bind _ _) => apply silent_bind; [|intros ?]
  | |- silent (match ?x with _ => _ end) => destruct x
  | |- silent (modD _) => apply silent_modD; intros []; reflexivity
  | |- silent (spawn _) => apply silent_spawn
  | |- silent ?m =>
      first [ solve [eauto with emission]
            | let f := emission_head m in unfold f ]
  end.
Ltac silent_auto := repeat silent_step.

Section Silent.
Context `{Externals}.

Lemma silent_panic {A} msg : silent (@panic A msg).
Proof. apply silent_halt. Qed.
Lemma silent_skip : silent skip.
Proof. apply silent_ret. Qed.
Lemma silent_Printf f ops : silent (Printf f ops).
Proof. silent_auto. Qed.
Lemma silent_Sleep d : silent (Sleep d).
Proof. silent_auto. Qed.
Lemma silent_call c : silent (call c).
Proof. silent_auto. Qed.
Lemma silent_SetGauge k v : silent (SetGauge k v).
Proof. silent_auto. Qed.
Lemma silent_close ch : silent (close ch).
Proof. destruct ch; [apply silent_ret | apply silent_halt]. Qed.
Lemma silent_the_task : silent the_task.
Proof. unfold the_task. silent_auto. Qed.
Lemma silent_taskType : silent taskType.
Proof. unfold taskType. silent_auto. Qed.
Lemma silent_allocID : silent allocID.
Proof. silent_auto. Qed.

End Silent.

#[export] Hint Resolve silent_panic silent_skip silent_Printf silent_Sleep silent_call
  silent_SetGauge silent_close silent_the_task silent_taskType silent_allocID : emission.

Section SilentOps.
Context `{Externals}.

Lemma silent_stateFilePath : silent stateFilePath.
Proof. silent_auto. Qed.
Hint Resolve silent_stateFilePath : emission.

Lemma silent_createDriver : silent createDriver.
Proof. silent_auto. Qed.

Lemma silent_SaveState : silent SaveState.
Proof. silent_auto. Qed.

Lemma silent_Destroy event : silent (Destroy event).
Proof. silent_auto. Qed.

Lemma silent_UnblockStart source : silent (UnblockStart source).
Proof. silent_auto. Qed.

End SilentOps.

#[export] Hint Resolve silent_stateFilePath silent_createDriver silent_SaveState
  silent_Destroy silent_UnblockStart : emission.

Lemma live_running : live TaskStateRunning.
Proof. by left. Qed.
Lemma live_pending : live TaskStatePending.
Proof. by right; left. Qed.
Lemma live_empty : live "".
Proof. by right; right. Qed.
#[export] Hint Resolve live_running live_pending live_empty : emission.

Section QuietOps.
Context `{Externals}.

Lemma silent_Kill source reason fail : silent (Kill source reason fail).
Proof. silent_auto. Qed.
Hint Resolve silent_Kill : emission.

Lemma silent_exec_cmd c : silent (exec_cmd c).
Proof. silent_auto. Qed.
Hint Resolve silent_exec_cmd : emission.

Lemma silent_absorb t : silent (absorb t).
Proof.
  induction t as [|e t IH]; cbn [absorb]; [apply silent_ret|].
  destruct e; try apply silent_ret. silent_auto.
Qed.
Hint Resolve silent_absorb : emission.

Lemma silent_absorb_cmds : silent absorb_cmds.
Proof. silent_auto. Qed.

Lemma silent_handleDestroy_from fuel : forall i err, silent (handleDestroy_from fuel i err).
Proof.
  induction fuel as [|fuel IH]; intros i err; cbn [handleDestroy_from];
    destruct (negb (i <? killFailureLimit)%Z); silent_auto.
Qed.
Hint Resolve silent_handleDestroy_from : emission.

Lemma silent_handleDestroy : silent handleDestroy.
Proof. silent_auto. Qed.

Lemma silent_startTask : silent startTask.
Proof. silent_auto. Qed.

Lemma silent_send_start : silent send_start.
Proof. silent_auto. Qed.

Lemma silent_send_result b : silent (send_result b).
Proof. silent_auto. Qed.
Hint Resolve silent_send_start silent_send_result : emission.

Lemma silent_prestart fuel : silent (prestart fuel).
Proof.
  unfold prestart. induction fuel as [|fuel IH]; cbn [for_ever]; [apply silent_halt|].
  apply silent_bind; [|intros []; [exact IH | apply silent_ret]].
  unfold prestart_body, prestart_block. cbn [block]. unfold and_then, do_, return_.
  silent_auto.
Qed.

Lemma quietly_setState st ev : live st -> quietly (setState st ev).
Proof.
  intros Hst. unfold setState.
  apply quietly_bind; [apply silent_quietly; silent_auto | intros err].
  apply quietly_bind; [apply silent_quietly; silent_auto | intros _].
  apply quietly_bind; [apply silent_quietly; silent_auto | intros t].
  by apply quietly_updater.
Qed.

End QuietOps.

#[export] Hint Resolve silent_Kill silent_exec_cmd silent_absorb silent_absorb_cmds
  silent_handleDestroy_from silent_handleDestroy silent_startTask silent_send_start
  silent_send_result silent_prestart : emission.

Ltac quiet_step :=
  lazymatch goal with
  | |- quietly (bind _ _) => apply quietly_bind; [|intros ?]
  | |- quietly (match ?x with _ => _ end) => destruct x
  | |- quietly (setState _ _) => apply quietly_setState; solve [eauto with emission]
  | |- quietly ?m =>
      first [ solve [eauto with emission]
            | apply silent_quietly; solve [silent_auto]
            | let f := emission_head m in unfold f ]
  end.
Ltac quiet_auto := repeat quiet_step.

Section Gate.
Context `{Externals}.

Lemma quietly_killTask ref : quietly (killTask ref).
Proof. quiet_auto. Qed.

Lemma quietly_MarkReceived : quietly MarkReceived.
Proof.
  unfold MarkReceived. apply quietly_bind; [apply silent_quietly; silent_auto|intros t].
  apply quietly_updater. apply live_pending.
Qed.

Lemma quietly_close_stopCollection lv : quietly (close_stopCollection lv).
Proof. quiet_auto. Qed.

Lemma quietly_recv_handleWaitCh lv : quietly (recv_handleWaitCh lv).
Proof. quiet_auto. Qed.

End Gate.

Section Completion.
Context `{Externals}.

Lemma emits_bind_silent {A B} (m : M A) (k : A -> M B) ok stopped :
  silent m -> (forall a, emits (k a) ok stopped) -> stopped [] ->
  emits (bind m k) ok stopped.
Proof.
  intros Hm Hk Hnil. eapply emits_bind; [exact Hm| |by intros d ->].
  intros a d ->. exact (Hk a).
Qed.

Lemma emits_setState st ev :
  emits (setState st ev) (fun _ d => d = [st]) (fun d => d = []).
Proof.
  unfold setState.
  apply emits_bind_silent; [silent_auto | intros err | done].
  apply emits_bind_silent; [silent_auto | intros _ | done].
  apply emits_bind_silent; [silent_auto | intros t | done].
  intros s. unfold updater, modD. exists [st]. split; [|done].
  unfold symbols. cbn. by rewrite map_app.
Qed.


Lemma emits_dead_false ev :
  emits (setState TaskStateDead ev ;; ret false) gate_ok (Forall live).
Proof.
  eapply emits_bind; [apply emits_setState| |by intros d ->].
  intros _ d ->. intros s. exists []. split; [by rewrite app_nil_r|].
  right. exists []. by split.
Qed.

Lemma emits_ret_gate b : emits (ret b) gate_ok (Forall live).
Proof.
  intros s. exists []. split; [by rewrite app_nil_r|].
  destruct b; [constructor | left; constructor].
Qed.

Lemma emits_restart_wait : emits restart_wait gate_ok (Forall live).
Proof.
  unfold restart_wait.
  apply emits_bind_silent; [silent_auto | intros _ | constructor].
  apply emits_bind_silent; [silent_auto | intros ch | constructor].
  apply emits_bind_silent; [silent_auto | intros _ | constructor].
  apply emits_bind_silent; [silent_auto | intros destroyed | constructor].
  destruct destroyed; [|apply emits_ret_gate].
  apply emits_bind_silent; [silent_auto | intros t | constructor].
  apply emits_bind_silent; [silent_auto | intros _ | constructor].
  apply emits_bind_silent; [silent_auto | intros de | constructor].
  apply emits_dead_false.
Qed.

Lemma gate_ok_live x restart d : live x -> gate_ok restart d -> gate_ok restart (x :: d).
Proof.
  intros Hx. destruct restart; cbn.
  - by constructor.
  - intros [Hd|(pre & Hpre & ->)]; [left; by constructor|].
    right. exists (x :: pre). split; [by constructor | done].
Qed.

Lemma emits_shouldRestart : emits shouldRestart gate_ok (Forall live).
Proof.
  unfold shouldRestart.
  apply emits_bind_silent; [silent_auto | intros tr | constructor].
  destruct (GetState tr) as [state when].
  assert (Hfalse : emits
    (t <- taskType ;; a <- allocID ;;
     Printf "[INFO] client: Not restarting task: %v for alloc: %v " [t; a] ;;
     (if decide (state = TaskNotRestarting) then
        setState TaskStateDead
          (Some (SetFailsTask true
                   (SetRestartReason (GetReason tr) (NewTaskEvent TaskNotRestarting))))
      else skip) ;;
     ret false) gate_ok (Forall live)).
  { apply emits_bind_silent; [silent_auto | intros t | constructor].
    apply emits_bind_silent; [silent_auto | intros a | constructor].
    apply emits_bind_silent; [silent_auto | intros _ | constructor].
    destruct (decide (state = TaskNotRestarting)); [apply emits_dead_false|].
    apply emits_bind_silent; [silent_auto | intros _ | constructor].
    apply emits_ret_gate. }
  assert (Hother : emits
    (Printf "[ERR] client: restart tracker returned unknown store: %q" [kind_name state] ;;
     ret false)
    gate_ok (Forall live)).
  { apply emits_bind_silent; [silent_auto | intros _ | constructor]. apply emits_ret_gate. }
  destruct state; try exact Hfalse; try exact Hother.
  apply emits_bind_silent; [silent_auto | intros t | constructor].
  apply emits_bind_silent; [silent_auto | intros a | constructor].
  apply emits_bind_silent; [silent_auto | intros _ | constructor].
  eapply emits_bind; [apply emits_setState| |by intros d ->].
  intros _ d ->. eapply emits_weaken; [apply emits_restart_wait| |]; cbv beta.
  - intros b d. apply gate_ok_live, live_pending.
  - intros d Hd. constructor; [apply live_pending | done].
Qed.

Lemma final_partial d : final d -> partial d.
Proof. intros (pre & Hpre & [->| ->]); exists pre; eauto. Qed.

Lemma final_app pre d : Forall live pre -> final d -> final (pre ++ d).
Proof.
  intros Hpre (p & Hp & Hd). exists (pre ++ p). split; [by apply Forall_app|].
  destruct Hd as [->| ->]; rewrite app_assoc; eauto.
Qed.

Lemma partial_app pre d : Forall live pre -> partial d -> partial (pre ++ d).
Proof.
  intros Hpre (p & Hp & Hd). exists (pre ++ p). split; [by apply Forall_app|].
  destruct Hd as [->|[->| ->]]; rewrite ?app_assoc; eauto.
Qed.

Lemma partial_live d : Forall live d -> partial d.
Proof. intros Hd. exists d. eauto. Qed.

Lemma completes_halt {A} w : completes (@halt A w).
Proof.
  intros s. exists []. split; [by rewrite app_nil_r|]. apply partial_live. constructor.
Qed.

Lemma completes_bind_quiet {A B} (m : M A) (k : A -> M B) :
  quietly m -> (forall a, completes (k a)) -> completes (bind m k).
Proof.
  intros Hm Hk. eapply emits_bind; [exact Hm| |exact partial_live].
  intros a d Hd. eapply emits_weaken; [exact (Hk a)| |]; cbv beta.
  - intros _ d2. by apply final_app.
  - intros d2. by apply partial_app.
Qed.

Lemma completes_then_silent {A B} (m : M A) (k : A -> M B) :
  completes m -> (forall a, silent (k a)) -> completes (bind m k).
Proof.
  intros Hm Hk. eapply emits_bind; [exact Hm| |done].
  intros a d Hd. eapply emits_weaken; [exact (Hk a)| |]; cbv beta.
  - intros _ d2 ->. by rewrite app_nil_r.
  - intros d2 ->. rewrite app_nil_r. by apply final_partial.
Qed.

Lemma completes_setState_dead ev : completes (setState TaskStateDead ev).
Proof.
  eapply emits_weaken; [apply emits_setState| |]; cbv beta.
  - intros _ d ->. exists []. split; [constructor | by left].
  - intros d ->. apply partial_live. constructor.
Qed.

(** The code at the label [RESTART], before the loop goes round again. *)
Lemma completes_RESTART (again : M unit) :
  completes again ->
  completes (restart <- shouldRestart ;;
             if negb restart then setState TaskStateDead None
             else modW (set_handle None) ;; again).
Proof.
  intros Hagain. eapply emits_bind; [apply emits_shouldRestart| |exact partial_live].
  intros restart d Hd. destruct restart; cbn [negb gate_ok] in *.
  - apply (emits_bind_silent (modW (set_handle None))); [apply silent_modW| |].
    + intros _. eapply emits_weaken; [exact Hagain| |]; cbv beta.
      * intros _ d2. by apply final_app.
      * intros d2. by apply partial_app.
    + rewrite app_nil_r. by apply partial_live.
  - eapply emits_weaken; [apply emits_setState| |]; cbv beta.
    + intros _ d2 ->. destruct Hd as [Hd|(pre & Hpre & ->)].
      * exists d. eauto.
      * exists pre. split; [done|]. right. by rewrite <- app_assoc.
    + intros d2 ->. rewrite app_nil_r. destruct Hd as [Hd|(pre & Hpre & ->)].
      * by apply partial_live.
      * exists pre. eauto.
Qed.

End Completion.

Ltac complete_step IH :=
  lazymatch goal with
  | |- completes (bind shouldRestart _) => apply completes_RESTART; apply IH
  | |- completes (bind _ _) => apply completes_bind_quiet; [solve [quiet_auto] | intros ?]
  | |- completes (match ?x with _ => _ end) => destruct x
  | |- completes (setState TaskStateDead _) => apply completes_setState_dead
  | |- completes (halt _) => apply completes_halt
  | |- completes (panic _) => apply completes_halt
  | |- completes (run_loop _ _ _) => apply IH
  end.

Section RunLoop.
Context `{Externals}.

Lemma completes_run_loop fuel : forall pc lv, completes (run_loop fuel pc lv).
Proof.
  induction fuel as [|fuel IH]; intros pc lv; cbn [run_loop]; [apply completes_halt|].
  repeat complete_step IH.
Qed.

Lemma completes_supervise mark fuel : completes (supervise mark fuel).
Proof.
  unfold supervise.
  apply completes_bind_quiet; [destruct mark; [apply quietly_MarkReceived | quiet_auto]|].
  intros _. unfold Run.
  apply completes_bind_quiet; [quiet_auto | intros t].
  apply completes_bind_quiet; [quiet_auto | intros a].
  apply completes_bind_quiet; [quiet_auto | intros _].
  apply completes_bind_quiet; [quiet_auto | intros err].
  apply completes_then_silent; [|intros _; silent_auto].
  destruct err; [apply completes_setState_dead|].
  unfold run. apply completes_bind_quiet; [quiet_auto | intros h].
  apply completes_bind_quiet; [quiet_auto | intros lv].
  apply completes_run_loop.
Qed.

End RunLoop.

Section Languages.


Lemma star_run_or_pend l :
  Forall run_or_pend l -> star (alt (sym TaskStateRunning) (sym TaskStatePending)) l.
Proof.
  induction 1 as [|x l Hx _ IH]; [constructor|].
  change (x :: l) with ([x] ++ l). constructor; [|done].
  destruct Hx as [->| ->]; [by left | by right].
Qed.

Lemma star_run_or_pend_inv l :
  star (alt (sym TaskStateRunning) (sym TaskStatePending)) l -> Forall run_or_pend l.
Proof.
  induction 1 as [|l1 l2 Hl1 _ IH]; [constructor|].
  apply Forall_app. split; [|done].
  destruct Hl1 as [->| ->]; (constructor; [|constructor]); [by left | by right].
Qed.

Lemma nonempty_live pre : Forall live pre -> Forall run_or_pend (nonempty pre).
Proof.
  unfold nonempty. induction 1 as [|x l Hx _ IH]; [constructor|].
  rewrite filter_cons. destruct (decide (x <> "")) as [Hne|_]; [|done].
  constructor; [|done]. destruct Hx as [->|[->| ->]]; [by left | by right | done].
Qed.

Lemma nonempty_app l k : nonempty (l ++ k) = nonempty l ++ nonempty k.
Proof. apply filter_app. Qed.

Lemma emitted_language_intro pre tail :
  Forall live pre ->
  tail = [TaskStateDead] \/ tail = [TaskStateDead; TaskStateDead] ->
  emitted_language (nonempty pre ++ tail).
Proof.
  intros Hpre Htail. exists [], (nonempty pre ++ tail). split; [done|]. split; [by left|].
  exists (nonempty pre), tail. split; [done|].
  split; [by apply star_run_or_pend, nonempty_live|].
  destruct Htail as [->| ->].
  - exists [TaskStateDead], []. split; [done|]. split; [done | by left].
  - exists [TaskStateDead], [TaskStateDead]. split; [done|]. split; [done | by right].
Qed.

Lemma final_emitted_language d : final d -> emitted_language (nonempty d).
Proof.
  intros (pre & Hpre & [->| ->]); rewrite nonempty_app;
    apply emitted_language_intro; eauto.
Qed.

Lemma partial_emitted_language d :
  partial d -> exists more, emitted_language (nonempty d ++ more).
Proof.
  intros (pre & Hpre & [->|[->| ->]]).
  - exists [TaskStateDead]. apply emitted_language_intro; eauto.
  - exists []. rewrite app_nil_r, nonempty_app. apply emitted_language_intro; eauto.
  - exists []. rewrite app_nil_r, nonempty_app. apply emitted_language_intro; eauto.
Qed.

Lemma claimed_language_inv l :
  claimed_language l -> exists pre, l = pre ++ [TaskStateDead] /\ Forall run_or_pend pre.
Proof.
  intros (l1 & l2 & -> & Hl1 & (l3 & l4 & -> & Hl3 & ->)).
  apply star_run_or_pend_inv in Hl3.
  exists (l1 ++ l3). split; [by rewrite app_assoc|].
  apply Forall_app. split; [|done].
  destruct Hl1 as [->| ->]; [constructor|]. constructor; [by right | constructor].
Qed.

End Languages.

Section Supervisor.
Context `{Externals}.

(** The language of the state symbols alone.  Whatever the environment
    does and however long the model runs, the state symbols that a
    supervisor passes to the updater, the empty symbol left out, are a word
    of [Pending? (Running | Pending)* Dead Dead?] when [Run] returns, and
    the beginning of such a word when it has not returned. *)
Lemma supervisor_symbols (markReceived : bool) (fuel : nat) (s : St) :
  exists d,
    symbols (state_of (supervise markReceived fuel s)) = symbols s ++ d
    /\ if returned (supervise markReceived fuel s)
       then emitted_language (nonempty d)
       else exists more, emitted_language (nonempty d ++ more).
Proof.
  pose proof (completes_supervise markReceived fuel s) as Hc.
  destruct (supervise markReceived fuel s) as [[] s'|w s']; destruct Hc as (d & E & Hd);
    exists d; (split; [exact E|]); cbn [returned].
  - by apply final_emitted_language.
  - by apply partial_emitted_language.
Qed.

End Supervisor.

(** C1 as stated fails on the scenario S1: the run returns after emitting
    [dead] twice, once in [shouldRestart] and once in [run]. *)
Lemma scenario_S1_dead_twice :
  returned (supervise (H := Examples.externals) true 8 (Examples.new_supervisor Examples.scenario_S1)) = true
  /\ symbols (state_of (supervise (H := Examples.externals) true 8
                          (Examples.new_supervisor Examples.scenario_S1)))
     = ["pending"; "running"; ""; "dead"; "dead"]
  /\ ~ claimed_language (nonempty ["pending"; "running"; ""; "dead"; "dead"]).
Proof.
  split; [reflexivity|]. split; [reflexivity|].
  intros Hl. apply claimed_language_inv in Hl as (pre & E & Hpre).
  change (nonempty ["pending"; "running"; ""; "dead"; "dead"])
    with (["pending"; "running"; "dead"] ++ ["dead"]) in E.
  apply app_inj_tail in E as [<- _].
  apply (Forall_lookup_1 _ _ 2 "dead") in Hpre; [|reflexivity]. by destruct Hpre.
Qed.

(** The other scenarios of the specification run as it tells them, S2
    with the same second [dead] as S1. *)
Example scenario_S2_updates :
  returned (supervise (H := Examples.externals_budget) true 20
              (Examples.new_supervisor Examples.scenario_S2)) = true
  /\ kinds (state_of (supervise (H := Examples.externals_budget) true 20
                        (Examples.new_supervisor Examples.scenario_S2)))
     = [("pending", Some TaskReceived); ("", Some TaskDriverFailure);
        ("pending", Some TaskRestarting); ("", Some TaskDriverFailure);
        ("pending", Some TaskRestarting); ("", Some TaskDriverFailure);
        ("dead", Some TaskNotRestarting); ("dead", None)].
Proof. split; reflexivity. Qed.

Example scenario_S3_updates :
  kinds (state_of (supervise (H := Examples.externals) true 20
                     (Examples.new_supervisor Examples.scenario_S3)))
  = [("pending", Some TaskReceived); ("running", Some TaskStarted);
     ("running", Some TaskRestartSignal); ("running", Some TaskKilling);
     ("", Some TaskKilled); ("pending", Some TaskRestarting);
     ("running", Some TaskStarted); ("", Some TaskTerminated);
     ("dead", Some TaskNotRestarting); ("dead", None)].
Proof. reflexivity. Qed.

Example scenario_S4_updates :
  returned (supervise (H := Examples.externals) true 20
              (Examples.new_supervisor Examples.scenario_S4)) = true
  /\ kinds (state_of (supervise (H := Examples.externals) true 20
                        (Examples.new_supervisor Examples.scenario_S4)))
     = [("pending", Some TaskReceived); ("running", Some TaskStarted);
        ("running", Some TaskKilling); ("", Some TaskKilled); ("dead", None)].
Proof. split; reflexivity. Qed.

Example scenario_S5_updates :
  kinds (state_of (supervise (H := Examples.externals) true 20
                     (Examples.new_supervisor Examples.scenario_S5)))
  = [("pending", Some TaskReceived); ("running", Some TaskStarted);
     ("running", Some TaskKilling); ("", Some TaskKilled); ("dead", None)]
  /\ slept (wd (state_of (supervise (H := Examples.externals) true 20
                            (Examples.new_supervisor Examples.scenario_S5))))
     = backoff_delays
  /\ (KillError <$> (updates (wd (state_of
        (supervise (H := Examples.externals) true 20
           (Examples.new_supervisor Examples.scenario_S5)))) !! 3%nat ≫= snd))
     = Some (Some "stuck").
Proof. repeat split; reflexivity. Qed.

(** ** Fuel *)

Create HintDb fuel.

Section Keeps.
Context `{Externals}.

Lemma keeps_steady {A} (m : M A) : keeps m -> steady m.
Proof. intros Hm s. destruct (Hm s) as [E ?]. unfold tape_len. by rewrite E. Qed.

Lemma keeps_ret {A} (a : A) : keeps (ret a).
Proof. by intros s. Qed.
Lemma keeps_getW {A} (f : Worker -> A) : keeps (getW f).
Proof. by intros s. Qed.
Lemma keeps_getD {A} (f : World -> A) : keeps (getD f).
Proof. by intros s. Qed.
Lemma keeps_modW f : keeps (modW f).
Proof. by intros s. Qed.
Lemma keeps_modD f : (forall d, tape (f d) = tape d) -> keeps (modD f).
Proof. intros Hf s. cbn. by rewrite Hf. Qed.

Lemma keeps_bind {A B} (m : M A) (k : A -> M B) :
  keeps m -> (forall a, keeps (k a)) -> keeps (bind m k).
Proof.
  intros Hm Hk s. unfold bind. destruct (Hm s) as [E Hf].
  destruct (m s) as [a s'|w s']; cbn [state_of] in *; [|done].
  destruct (Hk a s') as [E' Hf']. by rewrite E', E.
Qed.

Lemma steady_bind {A B} (m : M A) (k : A -> M B) :
  steady m -> (forall a, steady (k a)) -> steady (bind m k).
Proof.
  intros Hm Hk s. unfold bind. destruct (Hm s) as [E Hf].
  destruct (m s) as [a s'|w s']; cbn [state_of] in *; [|done].
  destruct (Hk a s') as [E' Hf']. split; [lia | done].
Qed.

Lemma steady_next_env : steady next_env.
Proof.
  intros s. unfold next_env, tape_len. destruct s as [w d]; cbn [wk wd].
  destruct (tape d) eqn:E; cbn [state_of wd]; [by rewrite E|].
  destruct d; cbn in *. subst. split; [cbn; lia | done].
Qed.

End Keeps.

#[export] Hint Resolve keeps_ret keeps_getW keeps_getD keeps_modW : fuel.

Ltac fuel_head m :=
  lazymatch m with
  | ?f _ _ _ _ _ => f
  | ?f _ _ _ _ => f
  | ?f _ _ _ => f
  | ?f _ _ => f
  | ?f _ => f
  | ?f => f
  end.

Ltac keeps_step :=
  lazymatch goal with
  | |- keeps (bind _ _) => apply keeps_bind; [|intros ?]
  | |- keeps (match ?x with _ => _ end) => destruct x
  | |- keeps (modD _) => apply keeps_modD; intros []; reflexivity
  | |- keeps (halt OutOfFuel) => fail
  | |- keeps (halt _) => intros ?; split; reflexivity
  | |- keeps (panic _) => intros ?; split; reflexivity
  | |- keeps ?m =>
      first [ solve [eauto with fuel]
            | let f := fuel_head m in unfold f ]
  end.
Ltac keeps_auto := repeat keeps_step.

Ltac steady_step :=
  lazymatch goal with
  | |- steady (bind _ _) => apply steady_bind; [|intros ?]
  | |- steady (match ?x with _ => _ end) => destruct x
  | |- steady ?m =>
      first [ solve [eauto with fuel]
            | apply keeps_steady; solve [keeps_auto]
            | let f := fuel_head m in unfold f ]
  end.
Ltac steady_auto := repeat steady_step.

Section KeepsOps.
Context `{Externals}.

Lemma keeps_Printf f ops : keeps (Printf f ops).
Proof. keeps_auto. Qed.
Lemma keeps_updater t st ev : keeps (updater t st ev).
Proof. keeps_auto. Qed.
Lemma keeps_Sleep d : keeps (Sleep d).
Proof. keeps_auto. Qed.
Lemma keeps_call c : keeps (call c).
Proof. keeps_auto. Qed.
Lemma keeps_close ch : keeps (close ch).
Proof. keeps_auto. Qed.
Lemma keeps_taskType : keeps taskType.
Proof. keeps_auto. Qed.
Lemma keeps_allocID : keeps allocID.
Proof. keeps_auto. Qed.
Hint Resolve keeps_Printf keeps_updater keeps_Sleep keeps_call keeps_close keeps_taskType
  keeps_allocID : fuel.

Lemma keeps_SaveState : keeps SaveState.
Proof. keeps_auto. Qed.
Hint Resolve keeps_SaveState : fuel.

Lemma keeps_setState st ev : keeps (setState st ev).
Proof. keeps_auto. Qed.

Lemma keeps_exec_cmd c : keeps (exec_cmd c).
Proof. keeps_auto. Qed.

Lemma keeps_MarkReceived : keeps MarkReceived.
Proof. keeps_auto. Qed.

(** [prestart] never reaches its second [select]: it leaves the moves of
    the environment alone, and so does the goroutine that runs it. *)
Lemma keeps_spawn_prestart : keeps (spawn (prestart 1)).
Proof.
  intros s. unfold spawn, prestart, prestart_body, send_start, send_result.
  cbn [for_ever block]. unfold and_then, do_, return_, bind, getD, modD, modW, ret, halt.
  destruct s as [w d]. cbn [wk wd].
  destruct (decide (length (prestartResultCh d) < 1)); destruct d; by cbn.
Qed.

Lemma steady_absorb t : forall s, tape (wd s) = t ->
  tape_len (state_of (absorb t s)) <= tape_len s /\ out_of_fuel (absorb t s) = false.
Proof.
  induction t as [|e t IH]; intros s Ht; [cbn; split; [lia | done]|].
  destruct e; try (cbn; split; [lia | done]).
  set (s1 := mkSt (wk s) (set_tape t (wd s))).
  assert (Hstep : absorb (ECmd c :: t) s
                  = match exec_cmd c s1 with
                    | Ok _ s2 => absorb t s2
                    | Halt w s2 => Halt w s2
                    end) by reflexivity.
  rewrite Hstep. clear Hstep.
  destruct (keeps_exec_cmd c s1) as [E Hf].
  assert (E1 : tape (wd s1) = t) by (subst s1; by destruct s as [w []]).
  assert (Hs : tape_len s = S (length t)) by (unfold tape_len; by rewrite Ht).
  destruct (exec_cmd c s1) as [[] s2|w s2]; cbn [state_of] in *.
  - destruct (IH s2) as [Hlen Hf']; [by rewrite E|].
    split; [|done]. etrans; [exact Hlen|]. rewrite Hs. unfold tape_len. rewrite E, E1. lia.
  - split; [|done]. rewrite Hs. unfold tape_len. rewrite E, E1. lia.
Qed.

Lemma steady_absorb_cmds : steady absorb_cmds.
Proof. intros s. unfold absorb_cmds, bind, getD. by apply steady_absorb. Qed.

Lemma steady_handleDestroy_from fuel : forall i err,
  (killFailureLimit - i <= Z.of_nat fuel)%Z -> steady (handleDestroy_from fuel i err).
Proof.
  induction fuel as [|fuel IH]; intros i err Hi; cbn [handleDestroy_from];
    destruct (i <? killFailureLimit)%Z eqn:E; cbn [negb];
    try (apply keeps_steady, keeps_ret).
  - apply Z.ltb_lt in E. lia.
  - assert (Hnext : forall e, steady (handleDestroy_from fuel (i + 1) e))
      by (intros e; apply IH; lia).
    repeat first [apply Hnext | apply steady_next_env | steady_step].
Qed.

Lemma steady_handleDestroy : steady handleDestroy.
Proof. apply steady_handleDestroy_from. reflexivity. Qed.

End KeepsOps.

#[export] Hint Resolve keeps_Printf keeps_updater keeps_Sleep keeps_call keeps_close
  keeps_taskType keeps_allocID keeps_SaveState keeps_setState keeps_exec_cmd
  keeps_MarkReceived keeps_spawn_prestart : fuel.
#[export] Hint Resolve steady_next_env steady_absorb_cmds steady_handleDestroy : fuel.

Section Progress.
Context `{Externals}.

Lemma steady_killTask ref : steady (killTask ref).
Proof. steady_auto. Qed.
Lemma steady_createDriver : steady createDriver.
Proof. steady_auto. Qed.
Hint Resolve steady_createDriver : fuel.
Lemma steady_startTask : steady startTask.
Proof. steady_auto. Qed.
Lemma steady_shouldRestart : steady shouldRestart.
Proof. steady_auto. Qed.
Lemma steady_close_stopCollection lv : steady (close_stopCollection lv).
Proof. steady_auto. Qed.
Lemma steady_recv_handleWaitCh lv : steady (recv_handleWaitCh lv).
Proof. steady_auto. Qed.
Hint Resolve steady_killTask steady_startTask steady_shouldRestart
  steady_close_stopCollection steady_recv_handleWaitCh : fuel.

Lemma progress_steady n {A} (m : M A) : steady m -> progress n m.
Proof. intros Hm s _. by destruct (Hm s). Qed.

Lemma progress_bind n {A B} (m : M A) (k : A -> M B) :
  steady m -> (forall a, progress n (k a)) -> progress n (bind m k).
Proof.
  intros Hm Hk s Hs. unfold bind. destruct (Hm s) as [Hlen Hf].
  destruct (m s) as [a s'|w s']; cbn [state_of] in *; [|done].
  apply Hk. lia.
Qed.

(** Taking the environment's next move leaves one move less. *)
Lemma progress_next_env n {B} (k : Env -> M B) :
  (forall e m, S m = n -> progress m (k e)) -> progress n (bind next_env k).
Proof.
  intros Hk s Hs. unfold bind, next_env. destruct s as [w d]. unfold tape_len in Hs.
  cbn [wk wd] in *. destruct (tape d) as [|e rest] eqn:E; [done|].
  destruct n as [|m]; [cbn in Hs; lia|].
  apply (Hk e m eq_refl). unfold tape_len. destruct d; cbn in *. lia.
Qed.

Lemma progress_halt n {A} w : w <> OutOfFuel -> progress n (@halt A w).
Proof. intros Hw s _. cbn. by destruct w. Qed.

Lemma progress_run_loop fuel : forall n pc lv,
  2 * n + match pc with AtFor => 1 | AtWait => 0 end < fuel ->
  progress n (run_loop fuel pc lv).
Proof.
  induction fuel as [|fuel IH]; intros n pc lv Hfuel; [lia|].
  cbn [run_loop]. destruct pc.
  - apply progress_bind; [steady_auto|intros _].
    apply progress_bind; [steady_auto|intros _].
    apply progress_bind; [apply keeps_steady, keeps_spawn_prestart|intros _].
    apply IH. lia.
  - apply progress_bind; [steady_auto|intros _].
    apply progress_next_env. intros e m <-.
    assert (Hwait : forall lv', progress m (run_loop fuel AtWait lv'))
      by (intros lv'; apply IH; lia).
    assert (Hfor : forall lv', progress m (run_loop fuel AtFor lv'))
      by (intros lv'; apply IH; lia).
    repeat lazymatch goal with
    | |- progress _ (run_loop _ AtWait _) => apply Hwait
    | |- progress _ (run_loop _ AtFor _) => apply Hfor
    | |- progress _ (bind _ _) => apply progress_bind; [solve [steady_auto] | intros ?]
    | |- progress _ (match ?x with _ => _ end) => destruct x
    | |- progress _ (halt _) => apply progress_halt; discriminate
    | |- progress _ (panic _) => apply progress_halt; discriminate
    | |- progress _ _ => apply progress_steady; solve [steady_auto]
    end.
Qed.

(** With more fuel than twice the moves of the environment (and two), a
    supervisor never stops for lack of fuel: it returns, or it stops
    because the environment has no further move, makes a move that does not
    fit, or because the code panics. *)
Theorem supervise_fuel (markReceived : bool) (fuel : nat) (s : St) :
  2 * tape_len s + 1 < fuel ->
  out_of_fuel (supervise markReceived fuel s) = false.
Proof.
  intros Hfuel. revert s Hfuel.
  enough (Hp : forall n, 2 * n + 1 < fuel -> progress n (supervise markReceived fuel)).
  { intros s Hs. by apply (Hp (tape_len s)). }
  intros n Hn. unfold supervise.
  apply progress_bind; [destruct markReceived; steady_auto|intros _]. unfold Run.
  apply progress_bind; [steady_auto|intros t].
  apply progress_bind; [steady_auto|intros a].
  apply progress_bind; [steady_auto|intros _].
  apply progress_bind; [steady_auto|intros err].
  assert (Hrun : progress n (run fuel)).
  { unfold run. apply progress_bind; [steady_auto|intros h].
    apply progress_bind; [steady_auto|intros lv]. apply progress_run_loop. lia. }
  intros s Hs. unfold bind at 1.
  destruct err as [err|].
  - pose proof (keeps_setState TaskStateDead
      (Some (SetFailsTask true
               (SetSetupError
                  (Some ("failed to create driver of task " +:+ fmt_q t +:+ " for alloc "
                         +:+ fmt_q a +:+ ": " +:+ err))
                  (NewTaskEvent TaskSetupFailure)))) s) as [_ Hf].
    destruct (setState _ _ s) as [[] s'|w s']; [|done].
    assert (Hclose : steady (ch <- getW waitCh ;; ch' <- close ch ;; modW (set_waitCh ch')))
      by steady_auto.
    by destruct (Hclose s').
  - specialize (Hrun s Hs). destruct (run fuel s) as [[] s'|w s']; [|done].
    assert (Hclose : steady (ch <- getW waitCh ;; ch' <- close ch ;; modW (set_waitCh ch')))
      by steady_auto.
    by destruct (Hclose s').
Qed.

End Progress.

End ClientFacts.

(** * Laws of the worker: what its operations keep, and what the run loop
      does on each message *)

Module ClientLaws.
Import Client ClientFacts.

Create HintDb frame discriminated.

Section Leaves.
Context {B : Type} (f : Worker -> B).

Lemma leaves_ret {A} (a : A) : leaves f (ret a).
Proof. by intros s. Qed.
Lemma leaves_halt {A} w : leaves f (@halt A w).
Proof. by intros s. Qed.
Lemma leaves_getW {A} (g : Worker -> A) : leaves f (getW g).
Proof. by intros s. Qed.
Lemma leaves_getD {A} (g : World -> A) : leaves f (getD g).
Proof. by intros s. Qed.
Lemma leaves_modD g : leaves f (modD g).
Proof. by intros s. Qed.
Lemma leaves_modW g : (forall w, f (g w) = f w) -> leaves f (modW g).
Proof. intros Hg s. apply Hg. Qed.
Lemma leaves_next_env : leaves f next_env.
Proof. intros [w d]. unfold next_env. cbn. by destruct (tape d). Qed.

Lemma leaves_bind {A C} (m : M A) (k : A -> M C) :
  leaves f m -> (forall a, leaves f (k a)) -> leaves f (bind m k).
Proof.
  intros Hm Hk s. unfold bind. specialize (Hm s).
  destruct (m s) as [a s'|w s']; cbn [state_of] in *; [|done].
  by rewrite Hk.
Qed.

Lemma leaves_spawn (m : M unit) : leaves f m -> leaves f (spawn m).
Proof. intros Hm s. unfold spawn. specialize (Hm s). by destruct (m s). Qed.

End Leaves.

Ltac leaves_step :=
  lazymatch goal with
  | |- leaves _ (bind _ _) => apply leaves_bind; [|intros ?]
  | |- leaves _ (match ?x with _ => _ end) => destruct x
  | |- leaves _ (ret _) => apply leaves_ret
  | |- leaves _ (halt _) => apply leaves_halt
  | |- leaves _ (panic _) => apply leaves_halt
  | |- leaves _ (getW _) => apply leaves_getW
  | |- leaves _ (getD _) => apply leaves_getD
  | |- leaves _ (modD _) => apply leaves_modD
  | |- leaves _ (modW _) =>
      apply leaves_modW; intros [];
      first [ reflexivity | cbn; destruct (decide _); reflexivity ]
  | |- leaves _ next_env => apply leaves_next_env
  | |- leaves _ (spawn _) => apply leaves_spawn
  | |- leaves _ ?m =>
      first [ solve [eauto with frame]
            | progress cbv zeta
            | let f := fuel_head m in unfold f ]
  end.
Ltac leaves_auto := repeat leaves_step.

(** The loops of the worker leave [f] alone when their bodies do. *)
Ltac leaves_absorb :=
  let t := fresh "t" in let e := fresh "e" in let IH := fresh "IH" in
  intros t; induction t as [|e t IH]; cbn [absorb]; [apply leaves_ret|];
  destruct e; try apply leaves_ret; leaves_auto.

Ltac leaves_handleDestroy_from :=
  let fuel := fresh "fuel" in let IH := fresh "IH" in
  intros fuel; induction fuel as [|fuel IH]; intros i err; cbn [handleDestroy_from];
  destruct (negb (i <? killFailureLimit)%Z); leaves_auto.

Ltac leaves_prestart :=
  let fuel := fresh "fuel" in let IH := fresh "IH" in
  intros fuel; unfold prestart; induction fuel as [|fuel IH]; cbn [for_ever];
  [apply leaves_halt|];
  apply leaves_bind; [|intros []; [exact IH | apply leaves_ret]];
  unfold prestart_body, prestart_block; cbn [block]; unfold and_then, do_, return_;
  leaves_auto.

Section Bystanders.
Context `{Externals}.

Lemma bystanders_absorb : forall t, leaves bystanders (absorb t).
Proof. leaves_absorb. Qed.
Hint Resolve bystanders_absorb : frame.

Lemma bystanders_handleDestroy_from :
  forall fuel i err, leaves bystanders (handleDestroy_from fuel i err).
Proof. leaves_handleDestroy_from. Qed.
Hint Resolve bystanders_handleDestroy_from : frame.

Lemma bystanders_prestart : forall fuel, leaves bystanders (prestart fuel).
Proof. leaves_prestart. Qed.
Hint Resolve bystanders_prestart : frame.

Lemma bystanders_run_loop fuel : forall pc lv, leaves bystanders (run_loop fuel pc lv).
Proof.
  induction fuel as [|fuel IH]; intros pc lv; cbn [run_loop]; [apply leaves_halt|].
  repeat lazymatch goal with
         | |- leaves _ (run_loop _ _ _) => apply IH
         | |- _ => leaves_step
         end.
Qed.

Lemma bystanders_run fuel : leaves bystanders (run fuel).
Proof.
  unfold run. apply leaves_bind; [leaves_auto|intros h].
  apply leaves_bind; [leaves_auto|intros lv]. apply bystanders_run_loop.
Qed.

End Bystanders.

Section Liveness.
Context `{Externals}.

Lemma liveness_absorb : forall t, leaves liveness (absorb t).
Proof. leaves_absorb. Qed.
Hint Resolve liveness_absorb : frame.

Lemma liveness_handleDestroy_from :
  forall fuel i err, leaves liveness (handleDestroy_from fuel i err).
Proof. leaves_handleDestroy_from. Qed.
Hint Resolve liveness_handleDestroy_from : frame.

Lemma liveness_prestart : forall fuel, leaves liveness (prestart fuel).
Proof. leaves_prestart. Qed.

End Liveness.

#[export] Hint Resolve liveness_absorb liveness_handleDestroy_from liveness_prestart : frame.

Section Triple.
Context `{Externals}.
Implicit Types P : bool * option DriverHandle -> Prop.

Lemma triple_ret {A} P (a : A) (Q : A -> bool * option DriverHandle -> Prop) :
  (forall x, P x -> Q a x) -> triple P (ret a) Q.
Proof. intros HQ s HP. by apply HQ. Qed.

Lemma triple_halt {A} P w (Q : A -> bool * option DriverHandle -> Prop) :
  (forall x, P x -> handled x) -> triple P (@halt A w) Q.
Proof. intros HQ s HP. by apply HQ. Qed.

Lemma triple_bind {A C} P (m : M A) (k : A -> M C) Q R :
  triple P m Q -> (forall a, triple (Q a) (k a) R) -> triple P (bind m k) R.
Proof.
  intros Hm Hk s HP. unfold bind. specialize (Hm s HP).
  destruct (m s) as [a s'|w s']; [|done]. by apply Hk.
Qed.

Lemma triple_pre {A} P P' (m : M A) Q :
  (forall x, P' x -> P x) -> triple P m Q -> triple P' m Q.
Proof. intros HP Hm s Hs. apply Hm. by apply HP. Qed.

Lemma triple_post {A} P (m : M A) (Q Q' : A -> bool * option DriverHandle -> Prop) :
  triple P m Q -> (forall a x, Q a x -> Q' a x) -> triple P m Q'.
Proof.
  intros Hm HQ s Hs. specialize (Hm s Hs). destruct (m s); [by apply HQ | done].
Qed.

Lemma triple_inert {A} P (m : M A) :
  leaves liveness m -> (forall x, P x -> handled x) -> triple P m (fun _ => P).
Proof.
  intros Hm HP s Hs. specialize (Hm s).
  destruct (m s) as [a s'|w s']; cbn [state_of] in Hm; rewrite Hm; [done|by apply HP].
Qed.

Lemma triple_getW_running P : triple P (getW running) (fun r x => P x /\ x.1 = r).
Proof. intros s HP. cbn. done. Qed.

Lemma triple_getW_handle P : triple P (getW handle) (fun h x => P x /\ x.2 = h).
Proof. intros s HP. cbn. done. Qed.

Lemma triple_modW P g :
  triple P (modW g) (fun _ x => exists w, P (liveness w) /\ x = liveness (g w)).
Proof. intros s HP. cbn. eauto. Qed.

End Triple.

Ltac live_solve :=
  unfold handled, liveness; intros;
  repeat match goal with
         | Hx : exists _, _ |- _ => destruct Hx
         | Hx : _ /\ _ |- _ => destruct Hx
         | w : Worker |- _ => destruct w
         | x : (bool * option DriverHandle)%type |- _ => destruct x
         end;
  cbn in *; simplify_eq; try done;
  repeat match goal with
         | b : bool |- _ => destruct b
         end;
  try done; naive_solver.

Ltac triple_step :=
  lazymatch goal with
  | |- triple _ (bind (getW running) _) _ =>
      eapply triple_bind; [apply triple_getW_running | intros ?]
  | |- triple _ (bind (getW handle) _) _ =>
      eapply triple_bind; [apply triple_getW_handle | intros ?]
  | |- triple _ (bind (modW _) _) _ =>
      eapply triple_bind; [apply triple_modW | intros ?]
  | |- triple _ (bind _ _) _ =>
      eapply triple_bind;
      [apply triple_inert; [solve [leaves_auto] | live_solve] | intros ?]
  | |- triple _ (if negb ?r then _ else _) _ => destruct r; cbn [negb]
  | |- triple _ (match ?x with _ => _ end) _ => destruct x
  | |- triple _ (halt _) _ => apply triple_halt; live_solve
  | |- triple _ (panic _) _ => apply triple_halt; live_solve
  | |- triple _ (ret _) _ => apply triple_ret; live_solve
  | |- triple _ (modW _) _ => eapply triple_post; [apply triple_modW | live_solve]
  | |- triple _ _ _ =>
      eapply triple_post; [apply triple_inert; [solve [leaves_auto] | live_solve]
                          | live_solve]
  end.

Section Handled.
Context `{Externals}.

Lemma triple_startTask :
  triple (fun x => x.1 = false) startTask
    (fun r x => x.1 = false /\ (r = None -> is_Some x.2)).
Proof. unfold startTask. repeat triple_step. Qed.

Lemma triple_killTask ref : triple handled (killTask ref) (fun _ x => x.1 = false).
Proof. unfold killTask. repeat triple_step. Qed.

End Handled.

Ltac triple_loop_step IH :=
  lazymatch goal with
  | |- triple _ (bind startTask _) _ =>
      eapply triple_bind;
      [eapply triple_pre; [|apply triple_startTask]; live_solve | intros ?]
  | |- triple _ (bind (killTask _) _) _ =>
      eapply triple_bind;
      [eapply triple_pre; [|apply triple_killTask]; live_solve | intros ?]
  | |- triple _ (run_loop _ _ _) _ => eapply triple_pre; [|apply IH]; live_solve
  | |- _ => triple_step
  end.

Section HandledLoop.
Context `{Externals}.

Lemma triple_run_loop fuel : forall pc lv,
  triple handled (run_loop fuel pc lv) (fun _ => handled).
Proof.
  induction fuel as [|fuel IH]; intros pc lv; cbn [run_loop].
  { apply triple_halt. done. }
  repeat triple_loop_step IH.
Qed.

Lemma triple_run fuel : triple handled (run fuel) (fun _ => handled).
Proof. unfold run. repeat triple_loop_step (triple_run_loop fuel). Qed.

Lemma triple_Run fuel : triple handled (Run fuel) (fun _ => handled).
Proof.
  unfold Run.
  repeat lazymatch goal with
         | |- triple _ (bind (match ?x with _ => _ end) _) _ => destruct x
         | |- triple _ (bind (run _) _) _ =>
             eapply triple_bind;
             [eapply triple_pre; [|apply triple_run]; live_solve | intros ?]
         | |- _ => triple_step
         end.
Qed.

End HandledLoop.

Section SetState.
Context `{Externals}.

Lemma setState_spec (state : string) (event : option TaskEvent) (s : St) (t : Task) :
  task (wk s) = Some t ->
  exists s',
    setState state event s = Ok tt s'
    /\ wk s' = wk s
    /\ updates (wd s') = updates (wd s) ++ [(Client.Type_ t, state, event)]
    /\ logs (wd s') = logs (wd s) ++ save_failure t (SaveState s)
    /\ outside_setState (wd s') = outside_setState (wd s).
Proof.
  intros Ht. destruct_state s.
  unfold setState, SaveState, stateFilePath, persistState, save_failure, outside_setState.
  mred. cbn [writable]. destruct (writable disk0); mred.
  - eexists. split; [reflexivity|]. mred. by rewrite app_nil_r.
  - eexists. split; [reflexivity|]. mred. done.
Qed.

End SetState.


Section KillTask.
Context `{Externals}.

Lemma bind_Ok {A B} (m : M A) (k : A -> M B) s a s1 :
  m s = Ok a s1 -> bind m k s = k a s1.
Proof. unfold bind. by intros ->. Qed.

Lemma bind_inv {A B} (m : M A) (k : A -> M B) s b s2 :
  bind m k s = Ok b s2 -> exists a s1, m s = Ok a s1 /\ k a s1 = Ok b s2.
Proof. unfold bind. destruct (m s) as [a s1|]; [eauto|discriminate]. Qed.

Lemma killTask_spec (ref : EventRef) (s : St) (h : DriverHandle) (t : Task)
    (errs : list error) (ok : bool) (rest : list Env) :
  running (wk s) = true ->
  handle (wk s) = Some h ->
  task (wk s) = Some t ->
  (if ok then length errs < 5 else length errs = 5) ->
  tape (wd s) = shutdown_answers errs ok ++ rest ->
  exists s',
    killTask ref s = Ok tt s'
    /\ updates (wd s')
       = updates (wd s)
         ++ [(Client.Type_ t, TaskStateRunning,
              Some (killing_event ref (destroyEvent (wk s))));
             (Client.Type_ t, "",
              Some (SetKillError (if ok then None else last errs)
                      (NewTaskEvent TaskKilled)))]
    /\ wk s'
       = set_running false
           (match ref, destroyEvent (wk s) with
            | DestroyEventRef, Some _ =>
                set_destroyEvent (Some (killing_event ref (destroyEvent (wk s)))) (wk s)
            | _, _ => wk s
            end)
    /\ calls (wd s')
       = calls (wd s)
         ++ replicate (length errs + if ok then 1 else 0) (CallShutdown (HandleID_ h))
    /\ slept (wd s') = slept (wd s) ++ take (length errs) backoff_delays
    /\ tape (wd s') = rest.
Proof.
  intros Hr Hh Ht Hlen Htape. unfold killTask.
  rewrite (bind_Ok (getW running) _ s true s) by (unfold getW; by rewrite Hr).
  cbn [negb].
  rewrite (bind_Ok (getW destroyEvent) _ s (destroyEvent (wk s)) s) by done.
  (* the event, and the worker after it has been built *)
  set (w1 := match ref, destroyEvent (wk s) with
             | DestroyEventRef, Some _ =>
                 set_destroyEvent (Some (killing_event ref (destroyEvent (wk s)))) (wk s)
             | _, _ => wk s
             end).
  assert (Hev : (match ref, destroyEvent (wk s) with
                 | DestroyEventRef, Some ev =>
                     let ev := SetKillTimeout DefaultKillTimeout
                                 (SetEventType TaskKilling ev) in
                     modW (set_destroyEvent (Some ev)) ;; ret ev
                 | _, _ => ret (SetKillTimeout DefaultKillTimeout (NewTaskEvent TaskKilling))
                 end) s
                = Ok (killing_event ref (destroyEvent (wk s))) (mkSt w1 (wd s))).
  { subst w1. destruct s as [w d]. destruct ref, (destroyEvent w) eqn:E; cbn; rewrite ?E; done. }
  rewrite (bind_Ok _ _ _ _ _ Hev).
  assert (Hw1 : handle w1 = Some h /\ task w1 = Some t).
  { subst w1. destruct ref, (destroyEvent (wk s)); destruct s as [[] ?]; cbn in *; done. }
  destruct Hw1 as [Hh1 Ht1].
  destruct (setState_spec TaskStateRunning (Some (killing_event ref (destroyEvent (wk s))))
              (mkSt w1 (wd s)) t Ht1) as (s1 & E1 & Hwk1 & Hup1 & _ & Hout1).
  rewrite (bind_Ok _ _ _ _ _ E1).
  injection Hout1 as Hsl1 Hca1 _ _ Htp1. cbn [wk wd] in *.
  destruct (handleDestroy_from_spec errs ok (Z.to_nat killFailureLimit) 0 None s1 h t rest)
    as (s2 & E2 & Hwk2 & Hup2 & _ & Htp2 & Hsl2 & Hca2); try done.
  { by rewrite Hwk1. }
  { by rewrite Hwk1. }
  { by rewrite Htp1. }
  unfold handleDestroy. rewrite (bind_Ok _ _ _ _ _ E2).
  set (err := if ok then None else last_error None errs) in *.
  assert (Hlog : exists s3,
            (if negb ok
             then t0 <- taskType ;;
                  Printf "[ERR] client: failed to kill task %q. Resources may have been leaked: %v"
                    [t0; default "<nil>" err]
             else skip) s2 = Ok tt s3
            /\ wk s3 = wk s2 /\ updates (wd s3) = updates (wd s2)
            /\ outside_setState (wd s3) = outside_setState (wd s2)).
  { assert (Ht2 : task (wk s2) = Some t) by (by rewrite Hwk2, Hwk1).
    destruct s2 as [w2 d2]. cbn [wk] in Ht2. destruct w2, d2. cbn in Ht2. subst.
    destruct ok; cbn; eauto. }
  destruct Hlog as (s3 & E3 & Hwk3 & Hup3 & Hout3).
  rewrite (bind_Ok _ _ _ _ _ E3).
  rewrite (bind_Ok (modW (set_running false)) _ s3 tt
             (mkSt (set_running false (wk s3)) (wd s3))) by done.
  destruct (setState_spec "" (Some (SetKillError err (NewTaskEvent TaskKilled)))
              (mkSt (set_running false (wk s3)) (wd s3)) t) as (s4 & E4 & Hwk4 & Hup4 & _ & Hout4).
  { cbn [wk]. rewrite Hwk3, Hwk2, Hwk1. by destruct w1. }
  exists s4. split; [exact E4|].
  injection Hout3 as Hsl3 Hca3 _ _ Htp3. injection Hout4 as Hsl4 Hca4 _ _ Htp4.
  cbn [wk wd] in *.
  assert (Herr : err = if ok then None else last errs).
  { subst err. destruct ok; [done|]. rewrite last_error_last. by destruct (last errs). }
  assert (Hb : map kill_backoff (attempts 0 (length errs)) = take (length errs) backoff_delays).
  { assert (Hn : length errs <= 5) by (destruct ok; lia).
    destruct (length errs) as [|[|[|[|[|[|n]]]]]]; try reflexivity. lia. }
  repeat split.
  - rewrite Hup4, Hup3, Hup2, Hup1, Herr, <- app_assoc. done.
  - rewrite Hwk4, Hwk3, Hwk2, Hwk1. done.
  - rewrite Hca4, Hca3, Hca2, Hca1. done.
  - rewrite Hsl4, Hsl3, Hsl2, Hsl1, Hb. done.
  - rewrite Htp4, Htp3, Htp2. done.
Qed.

End KillTask.

Section RunFacts.
Context `{Externals}.

(** X15.  When the driver cannot be created, [Run] does not enter the run
    loop: it asks for the driver once, reports the task dead once, with a
    setup-failure event that fails the task and carries the wrapped error of
    [createDriver], closes [waitCh] and returns. *)
Theorem Run_setup_failure (fuel : nat) (s : St) (t : Task) (err : error)
    (rest : list Env) :
  task (wk s) = Some t ->
  waitCh (wk s) = Open ->
  tape (wd s) = ENewDriver (Some err) :: rest ->
  exists s',
    Run fuel s = Ok tt s'
    /\ updates (wd s')
       = updates (wd s)
         ++ [(Client.Type_ t, TaskStateDead, Some (setup_failure t (alloc (wk s)) err))]
    /\ calls (wd s') = calls (wd s) ++ [CallNewDriver (Driver t)]
    /\ wk s' = set_waitCh Closed (wk s)
    /\ tape (wd s') = rest.
Proof.
  intros Ht Hw Htape. destruct_state s.
  unfold Run, createDriver. mred.
  match goal with |- context [setState ?st ?ev ?s0] =>
    destruct (setState_spec st ev s0 t eq_refl) as (s1 & E1 & Hwk1 & Hup1 & _ & Hout1)
  end.
  mred in Hwk1. mred in Hup1. unfold outside_setState in Hout1. mred in Hout1.
  injection Hout1 as _ Hca1 _ _ Htp1.
  rewrite E1. destruct s1 as [w1 d1]. mred_all. subst w1. mred.
  eexists. split; [reflexivity|]. mred. done.
Qed.

Lemma leaves_Ok {A B} (f : Worker -> B) (m : M A) s a s1 :
  leaves f m -> m s = Ok a s1 -> f (wk s1) = f (wk s).
Proof. intros Hm E. specialize (Hm s). by rewrite E in Hm. Qed.

Lemma leaves_fst {A B C} (f : Worker -> B * C) (m : M A) :
  leaves f m -> leaves (fun w => (f w).1) m.
Proof. intros Hm s. by rewrite (Hm s). Qed.

Lemma identity_run fuel : leaves identity (run fuel).
Proof. apply (leaves_fst bystanders), bystanders_run. Qed.

Lemma identity_Run fuel : leaves identity (Run fuel).
Proof.
  unfold Run.
  repeat lazymatch goal with
         | |- leaves _ (run _) => apply identity_run
         | |- _ => leaves_step
         end.
Qed.

(** X16.  However [Run] ends (it returns, panics, or waits for a move that
    does not come), the worker still has the task, the payload flag, the
    configuration and the allocation it started with. *)
Theorem Run_leaves_identity (fuel : nat) (s : St) :
  let w' := wk (state_of (Run fuel s)) in
  task w' = task (wk s) /\ payloadRendered w' = payloadRendered (wk s)
  /\ config w' = config (wk s) /\ alloc w' = alloc (wk s).
Proof.
  pose proof (identity_Run fuel s) as E. unfold identity, bystanders in E.
  cbn [fst] in E. injection E as E1 E2 E3 E4 E5. done.
Qed.

(** X17.  [Run] returns only from a worker whose [waitCh] was open, and it
    leaves [waitCh] closed. *)
Theorem Run_closes_waitCh (fuel : nat) (s s' : St) :
  Run fuel s = Ok tt s' ->
  waitCh (wk s) = Open /\ waitCh (wk s') = Closed.
Proof.
  intros E. unfold Run in E.
  apply bind_inv in E as (t & s1 & E1 & E).
  apply bind_inv in E as (a & s2 & E2 & E).
  apply bind_inv in E as ([] & s3 & E3 & E).
  apply bind_inv in E as (err & s4 & E4 & E).
  apply bind_inv in E as ([] & s5 & E5 & E).
  assert (Hw : bystanders (wk s5) = bystanders (wk s)).
  { etrans; [|eapply (leaves_Ok bystanders _ _ _ _ _ E1)].
    etrans; [|eapply (leaves_Ok bystanders _ _ _ _ _ E2)].
    etrans; [|eapply (leaves_Ok bystanders _ _ _ _ _ E3)].
    etrans; [|eapply (leaves_Ok bystanders _ _ _ _ _ E4)].
    eapply (leaves_Ok bystanders _ _ _ _ _ E5). }
  assert (Hwait : waitCh (wk s5) = waitCh (wk s)).
  { unfold bystanders in Hw. by injection Hw. }
  destruct s5 as [w5 d5]. cbn [wk] in *. unfold bind, getW in E. cbn [wk] in E.
  destruct (waitCh w5) eqn:Ew; cbn in E; [|discriminate].
  injection E as <-. cbn. split; [by rewrite <- Hwait | by destruct w5].
  Unshelve.
  all: repeat lazymatch goal with
              | |- leaves _ (run _) => apply bystanders_run
              | |- _ => leaves_step
              end.
Qed.

(** X18.  A supervisor that starts from a worker in which the task runs
    only while there is a driver handle stays so: however far [MarkReceived]
    and [Run] get, and however they end, a worker that is marked as running
    has a handle. *)
Theorem running_only_with_handle (markReceived : bool) (fuel : nat) (s : St) :
  (running (wk s) = true -> is_Some (handle (wk s))) ->
  running (wk (state_of (supervise markReceived fuel s))) = true ->
  is_Some (handle (wk (state_of (supervise markReceived fuel s)))).
Proof.
  intros Hs.
  assert (Ht : triple handled (supervise markReceived fuel) (fun _ => handled)).
  { unfold supervise. eapply triple_bind; [|intros ?; apply triple_Run].
    apply triple_inert; [destruct markReceived; leaves_auto | done]. }
  specialize (Ht s Hs).
  destruct (supervise markReceived fuel s); exact Ht.
Qed.

End RunFacts.

Section SelectArms.
Context `{Externals}.

(** X19.  When [Destroy] arrives while the task does not run, the run loop
    reports the task dead with the destroy event itself and returns; it
    asks nothing of the driver. *)
Theorem destroy_when_not_running (n : nat) (lv : Locals) (s : St) (t : Task)
    (event : option TaskEvent) (rest : list Env) :
  task (wk s) = Some t ->
  running (wk s) = false ->
  destroy (wk s) = false ->
  destroyCh (wk s) = Open ->
  tape (wd s) = ECmd (CmdDestroy event) :: ESelDestroy :: rest ->
  exists s',
    run_loop (S n) AtWait lv s = Ok tt s'
    /\ updates (wd s') = updates (wd s) ++ [(Client.Type_ t, TaskStateDead, event)]
    /\ calls (wd s') = calls (wd s)
    /\ wk s' = destroyed event (wk s)
    /\ tape (wd s') = rest.
Proof.
  intros Ht Hr Hd Hc Htape. destruct_state s.
  cbn [run_loop]. unfold absorb_cmds. mred. cbn [absorb]. unfold exec_cmd, Destroy. mred.
  cbn [absorb]. mred.
  match goal with |- context [setState ?st ?ev ?s0] =>
    destruct (setState_spec st ev s0 t eq_refl) as (s1 & E1 & Hwk1 & Hup1 & _ & Hout1)
  end.
  rewrite E1. unfold outside_setState in Hout1. mred_all.
  injection Hout1 as _ Hca1 _ _ Htp1. exists s1. unfold destroyed. mred. done.
Qed.

(** X20.  When [Destroy(nil)] arrives while the task runs, the run loop
    panics on the nil event: the latch is set, and nothing is reported and
    nothing is asked of the driver. *)
Theorem destroy_nil_while_running_panics (n : nat) (lv : Locals) (s : St)
    (rest : list Env) :
  running (wk s) = true ->
  destroy (wk s) = false ->
  destroyCh (wk s) = Open ->
  tape (wd s) = ECmd (CmdDestroy None) :: ESelDestroy :: rest ->
  run_loop (S n) AtWait lv s
  = Halt (Panicked "nil pointer dereference")
      (mkSt (destroyed None (wk s)) (set_tape rest (wd s))).
Proof.
  intros Hr Hd Hc Htape. destruct_state s.
  cbn [run_loop]. unfold absorb_cmds. mred. cbn [absorb]. unfold exec_cmd, Destroy. mred.
  cbn [absorb]. mred. reflexivity.
Qed.

(** X21.  When the handle's wait channel delivers a nil result, the run loop
    panics with "nil wait" and leaves the worker as it was. *)
Theorem nil_wait_panics (n : nat) (lv : Locals) (s : St) (id : string)
    (rest : list Env) :
  handleWaitCh lv = Some id ->
  tape (wd s) = ESelWait None :: rest ->
  run_loop (S n) AtWait lv s = Halt (Panicked "nil wait") (moved rest s).
Proof.
  intros Hl Htape. destruct_state s. destruct lv as [sc hw]. cbn in Hl. subst hw.
  cbn [run_loop]. unfold absorb_cmds. mred. cbn [absorb]. mred. reflexivity.
Qed.

(** X22.  A restart signal that arrives while the task does not run is
    skipped: the run loop logs one line and waits again, with the same
    worker and the same local channels. *)
Theorem restart_of_idle_task_is_skipped (n : nat) (lv : Locals) (s : St) (t : Task)
    (source reason : string) (rest : list Env) :
  task (wk s) = Some t ->
  running (wk s) = false ->
  tape (wd s) = ESelRestart source reason :: rest ->
  run_loop (S n) AtWait lv s
  = run_loop n AtWait lv
      (logged ("[DEBUG] client: skipping restart of %v: task isn't running",
               ["task " +:+ Client.Type_ t +:+ " for alloc " +:+ fmt_q (ID (alloc (wk s)))])
         (moved rest s)).
Proof.
  intros Ht Hr Htape. destruct_state s.
  cbn [run_loop]. unfold absorb_cmds. mred. cbn [absorb]. mred. reflexivity.
Qed.

End SelectArms.

Section KillPath.
Context `{Externals}.

(** X23.  When [Kill] arrives while the task runs, the run loop reports
    exactly three updates: running with the kill event (retyped as Killing,
    with the default kill timeout), the Killed event with the error of the
    last failed [Shutdown] if all five attempts failed, and dead with no
    event.  The event that the worker keeps as [destroyEvent] is the one
    that was retyped; the task no longer runs. *)
Theorem kill_while_running (n : nat) (lv : Locals) (s : St) (t : Task)
    (h : DriverHandle) (id : string) (source reason : string) (fail : bool)
    (errs : list error) (ok : bool) (res : option error) (rest : list Env) :
  task (wk s) = Some t ->
  handle (wk s) = Some h ->
  running (wk s) = true ->
  destroy (wk s) = false ->
  destroyCh (wk s) = Open ->
  stopCollection lv = Some Open ->
  handleWaitCh lv = Some id ->
  (if ok then length errs < 5 else length errs = 5) ->
  tape (wd s)
  = ECmd (CmdKill source reason fail) :: ESelDestroy
    :: shutdown_answers errs ok ++ ESelWait res :: rest ->
  let killing :=
    SetKillTimeout DefaultKillTimeout
      (SetEventType TaskKilling (kill_event source reason fail)) in
  exists s',
    run_loop (S n) AtWait lv s = Ok tt s'
    /\ updates (wd s')
       = updates (wd s)
         ++ [(Client.Type_ t, TaskStateRunning, Some killing);
             (Client.Type_ t, "",
              Some (SetKillError (if ok then None else last errs)
                      (NewTaskEvent TaskKilled)));
             (Client.Type_ t, TaskStateDead, None)]
    /\ wk s' = set_running false (destroyed (Some killing) (wk s))
    /\ tape (wd s') = rest.
Proof.
  intros Ht Hh Hr Hd Hc Hsc Hhw Hlen Htape killing. subst killing.
  destruct lv as [sc hw]. cbn in Hsc, Hhw. subst sc hw.
  destruct_state s.
  cbn [run_loop]. unfold absorb_cmds. mred. cbn [absorb]. unfold exec_cmd, Kill, Destroy.
  mred. 
  change (SetKillReason (source +:+ ": " +:+ reason) (NewTaskEvent TaskKilling))
    with (kill_event source reason false).
  change (SetFailsTask true (kill_event source reason false))
    with (kill_event source reason true).
  replace (if fail then kill_event source reason true else kill_event source reason false)
    with (kill_event source reason fail) by (by destruct fail).
  assert (Hk : EventType (kill_event source reason fail) = TaskKilling)
    by (by destruct fail).
  rewrite Hk.
  destruct (decide (TaskKilling <> TaskKilled)) as [_|Hn]; [|by destruct Hn].
  destruct (decide (TaskKilling = TaskKilling)) as [_|Hn]; [|by destruct Hn].
  mred.
  match goal with |- context [killTask DestroyEventRef ?s0] =>
    destruct (killTask_spec DestroyEventRef s0 h t errs ok (ESelWait res :: rest)
                eq_refl eq_refl eq_refl Hlen eq_refl)
      as (s1 & E1 & Hup1 & Hwk1 & _ & _ & Htp1)
  end.
  rewrite E1. destruct s1 as [w1 d1]. mred_all. subst w1.
  unfold close_stopCollection, recv_handleWaitCh, absorb_cmds. mred.
  destruct d1. mred_all. subst. cbn [stopCollection handleWaitCh]. mred.
  cbn [absorb]. mred.
  match goal with |- context [setState ?st ?ev ?s0] =>
    destruct (setState_spec st ev s0 t eq_refl) as (s2 & E2 & Hwk2 & Hup2 & _ & Hout2)
  end.
  rewrite E2. exists s2. unfold outside_setState in Hout2. mred_all.
  injection Hout2 as _ _ _ _ Htp2.
  split; [done|]. split; [|split; [|done]].
  - rewrite Hup2. unfold killing_event. by rewrite <- app_assoc.
  - rewrite Hwk2. unfold killing_event, destroyed. done.
Qed.

End KillPath.

Section OperationLaws.
Context `{Externals}.

(** X24.  [setState] always passes the task, the state and the event to
    the updater, once.  A snapshot that cannot be saved costs one log line
    and nothing else; the worker, the driver calls, the sleeps, the gauges
    and the environment's moves stay as they are. *)
Theorem setState_always_updates (state : string) (event : option TaskEvent) (s : St)
    (t : Task) :
  task (wk s) = Some t ->
  exists s',
    setState state event s = Ok tt s'
    /\ wk s' = wk s
    /\ updates (wd s') = updates (wd s) ++ [(Client.Type_ t, state, event)]
    /\ logs (wd s') = logs (wd s) ++ save_failure t (SaveState s)
    /\ outside_setState (wd s') = outside_setState (wd s).
Proof. apply setState_spec. Qed.

(** X25.  On a running task, [killTask] reports running with the Killing
    event, shuts the handle down (one call per attempt, sleeping the
    back-off delays between the failed ones), marks the task as not running
    and reports the Killed event, with the last error if no attempt
    succeeded.  When the destroy event is passed, it is that event that is
    retyped, also in the worker. *)
Theorem killTask_kills (ref : EventRef) (s : St) (h : DriverHandle) (t : Task)
    (errs : list error) (ok : bool) (rest : list Env) :
  running (wk s) = true ->
  handle (wk s) = Some h ->
  task (wk s) = Some t ->
  (if ok then length errs < 5 else length errs = 5) ->
  tape (wd s) = shutdown_answers errs ok ++ rest ->
  exists s',
    killTask ref s = Ok tt s'
    /\ updates (wd s')
       = updates (wd s)
         ++ [(Client.Type_ t, TaskStateRunning,
              Some (killing_event ref (destroyEvent (wk s))));
             (Client.Type_ t, "",
              Some (SetKillError (if ok then None else last errs)
                      (NewTaskEvent TaskKilled)))]
    /\ wk s'
       = set_running false
           (match ref, destroyEvent (wk s) with
            | DestroyEventRef, Some _ =>
                set_destroyEvent (Some (killing_event ref (destroyEvent (wk s)))) (wk s)
            | _, _ => wk s
            end)
    /\ calls (wd s')
       = calls (wd s)
         ++ replicate (length errs + if ok then 1 else 0) (CallShutdown (HandleID_ h))
    /\ slept (wd s') = slept (wd s) ++ take (length errs) backoff_delays
    /\ tape (wd s') = rest.
Proof. apply killTask_spec. Qed.

Lemma liveness_setState st ev : leaves liveness (setState st ev).
Proof. leaves_auto. Qed.

(** X26.  After [killTask] has returned, the task does not run: a second
    [killTask] does nothing, and [LatestTaskStats] returns nil. *)
Theorem killTask_leaves_task_stopped (ref ref' : EventRef) (s s' : St) :
  killTask ref s = Ok tt s' ->
  running (wk s') = false
  /\ killTask ref' s' = Ok tt s'
  /\ LatestTaskStats s' = Ok None s'.
Proof.
  intros E.
  assert (Hr : running (wk s') = false).
  { unfold killTask in E.
    apply bind_inv in E as (r & s1 & E1 & E). injection E1 as <- <-.
    destruct (running (wk s)) eqn:Er; cbn [negb] in E.
    2:{ injection E as <-. done. }
    apply bind_inv in E as (de & s2 & _ & E).
    apply bind_inv in E as (ev & s3 & _ & E).
    apply bind_inv in E as ([] & s4 & _ & E).
    apply bind_inv in E as ([destroySuccess err] & s5 & _ & E).
    apply bind_inv in E as ([] & s6 & _ & E).
    apply bind_inv in E as ([] & s7 & E7 & E).
    injection E7 as <-.
    pose proof (leaves_Ok liveness _ _ _ _ (liveness_setState _ _) E) as Hl.
    unfold liveness in Hl. cbn [wk] in Hl. injection Hl as Hrun _.
    rewrite Hrun. by destruct (wk s6). }
  split; [done|]. destruct s' as [w' d']. cbn [wk] in Hr.
  unfold killTask, LatestTaskStats, bind, getW. cbn [wk]. rewrite Hr. done.
Qed.

Lemma silent_Ok {A} (m : M A) s a s' : silent m -> m s = Ok a s' -> symbols s' = symbols s.
Proof.
  intros Hm E. specialize (Hm s). rewrite E in Hm. destruct Hm as (d & -> & ->).
  by rewrite app_nil_r.
Qed.

Lemma restart_wait_true (s s' : St) :
  restart_wait s = Ok true s' -> destroy (wk s') = false /\ symbols s' = symbols s.
Proof.
  unfold restart_wait. intros E.
  apply bind_inv in E as ([] & s1 & E1 & E).
  apply bind_inv in E as (ch & s2 & E2 & E). injection E2 as <- <-.
  apply bind_inv in E as ([] & s3 & E3 & E).
  apply bind_inv in E as (d & s4 & E4 & E). injection E4 as <- <-.
  destruct (destroy (wk s3)) eqn:Ed.
  - repeat (apply bind_inv in E as (? & ? & _ & E)). discriminate E.
  - injection E as <-. split; [done|].
    assert (H3 : symbols s3 = symbols s1).
    { destruct (destroyCh (wk s1)).
      - eapply silent_Ok; [|exact E3]. silent_auto.
      - eapply silent_Ok; [|exact E3]. silent_auto. }
    rewrite H3. eapply silent_Ok; [|exact E1]. silent_auto.
Qed.

(** X27.  [shouldRestart] answers true only when the restart tracker says
    Restarting and the worker has not been destroyed by the end of the
    delay; it has then reported pending, and nothing else. *)
Theorem shouldRestart_true_only_if (s s' : St) :
  shouldRestart s = Ok true s' ->
  (GetState (restartTracker (wk s))).1 = TaskRestarting
  /\ destroy (wk s') = false
  /\ symbols s' = symbols s ++ [TaskStatePending].
Proof.
  unfold shouldRestart. intros E.
  apply bind_inv in E as (tr & s1 & E1 & E). injection E1 as <- <-.
  destruct (GetState (restartTracker (wk s))) as [state when].
  destruct state; cbn [fst].
  all: try (exfalso; repeat (apply bind_inv in E as (? & ? & _ & E)); discriminate E).
  apply bind_inv in E as (t & s2 & E2 & E).
  apply bind_inv in E as (a & s3 & E3 & E).
  apply bind_inv in E as ([] & s4 & E4 & E).
  apply bind_inv in E as ([] & s5 & E5 & E).
  apply restart_wait_true in E as [Hd Hs]. split; [done|]. split; [done|].
  rewrite Hs.
  pose proof (emits_setState TaskStatePending
                (Some (SetRestartReason (GetReason (restartTracker (wk s)))
                         (SetRestartDelay when (NewTaskEvent TaskRestarting)))) s4) as Hem.
  rewrite E5 in Hem. destruct Hem as (d & -> & ->).
  f_equal.
  rewrite (silent_Ok _ _ _ _ (silent_Printf _ _) E4).
  rewrite (silent_Ok _ _ _ _ silent_allocID E3).
  exact (silent_Ok _ _ _ _ silent_taskType E2).
Qed.

(** X28.  While the worker has no handle, the collector does nothing on a
    tick (no call to the driver, no log line, no gauge, no statistics), and
    it returns when [stopCollection] is closed. *)
Theorem collector_without_handle (n fuel : nat) (s : St) (rest : list Env) :
  handle (wk s) = None ->
  tape (wd s) = replicate n ETick ++ EStop :: rest ->
  n < fuel ->
  collectResourceUsageStats fuel s = Ok tt (moved rest s).
Proof.
  revert fuel s. induction n as [|n IH]; intros fuel s Hh Htape Hfuel.
  - destruct fuel as [|fuel]; [lia|]. destruct_state s.
    cbn [collectResourceUsageStats]. mred. reflexivity.
  - destruct fuel as [|fuel]; [lia|]. destruct_state s.
    cbn [collectResourceUsageStats replicate app]. unfold collect_sample. mred.
    rewrite IH; [reflexivity|done|done|lia].
Qed.

(** X29.  When [startTask] returns an error, the worker is as it was (no
    handle is installed).  When it returns nil, the driver has been created
    and asked to start the task, in this order, and the handle it gave is
    installed. *)
Theorem startTask_outcome (s s' : St) (r : option error) (t : Task) :
  task (wk s) = Some t ->
  startTask s = Ok r s' ->
  match r with
  | None =>
      exists h rest,
        tape (wd s) = ENewDriver None :: EStart (inr h) :: rest
        /\ wk s' = set_handle (Some h) (wk s)
        /\ calls (wd s')
           = calls (wd s) ++ [CallNewDriver (Driver t);
                              CallStart (JobName (alloc (wk s))) (Client.Type_ t)]
  | Some _ => wk s' = wk s
  end.
Proof.
  intros Ht E. destruct_state s. unfold startTask, createDriver in E. mred in E.
  destruct tape0 as [|e tape0]; [discriminate|]. mred in E.
  destruct e; try discriminate. destruct err as [err|]; mred in E.
  { by injection E as <- <-. }
  destruct tape0 as [|e tape0]; [discriminate|]. mred in E.
  destruct e; try discriminate. destruct res as [err|h]; mred in E.
  - by injection E as <- <-.
  - injection E as <- <-. exists h, tape0. mred. by rewrite <- app_assoc.
Qed.

(** X30.  The first [Kill] sets the destroy latch with a Killing event whose
    reason is "source: reason" and which fails the task when [fail] is set.
    A later [Kill] changes nothing in the worker; neither reports anything
    to the updater. *)
Theorem Kill_latches_once (source reason source' reason' : string) (fail fail' : bool)
    (s : St) (t : Task) :
  task (wk s) = Some t ->
  destroy (wk s) = false ->
  destroyCh (wk s) = Open ->
  exists s' s'',
    Kill source reason fail s = Ok tt s'
    /\ wk s' = destroyed (Some (kill_event source reason fail)) (wk s)
    /\ Kill source' reason' fail' s' = Ok tt s''
    /\ wk s'' = wk s'
    /\ updates (wd s'') = updates (wd s).
Proof.
  intros Ht Hd Hc. destruct_state s. unfold Kill, Destroy, destroyed, kill_event. mred.
  eexists _, _. split; [reflexivity|]. mred. split; [by destruct fail|].
  split; [reflexivity|]. done.
Qed.

End OperationLaws.

(** ** The reports of a run *)

Section Grows.
Context `{Externals}.

Lemma reports_symbols s : symbols s = map fst (reports s).
Proof. unfold symbols, reports. by rewrite map_map. Qed.

Lemma grows_ret {A} (a : A) : grows (ret a).
Proof. intros s. exists []. by rewrite app_nil_r. Qed.
Lemma grows_halt {A} w : grows (@halt A w).
Proof. intros s. exists []. by rewrite app_nil_r. Qed.
Lemma grows_getW {A} (g : Worker -> A) : grows (getW g).
Proof. intros s. exists []. by rewrite app_nil_r. Qed.
Lemma grows_getD {A} (g : World -> A) : grows (getD g).
Proof. intros s. exists []. by rewrite app_nil_r. Qed.
Lemma grows_modW g : grows (modW g).
Proof. intros s. exists []. by rewrite app_nil_r. Qed.
Lemma grows_modD g : (forall d, exists l, updates (g d) = updates d ++ l) -> grows (modD g).
Proof.
  intros Hg s. destruct (Hg (wd s)) as [l Hl].
  exists (map (fun u => (u.1.2, u.2)) l). unfold reports. cbn [modD state_of wd].
  by rewrite Hl, map_app.
Qed.
Lemma grows_next_env : grows next_env.
Proof.
  intros s. unfold next_env. destruct (tape (wd s)); exists []; by rewrite app_nil_r.
Qed.
Lemma grows_bind {A B} (m : M A) (k : A -> M B) :
  grows m -> (forall a, grows (k a)) -> grows (bind m k).
Proof.
  intros Hm Hk s. unfold bind. destruct (Hm s) as [d1 E1].
  destruct (m s) as [a s1|w s1]; cbn [state_of] in *; [|by exists d1].
  destruct (Hk a s1) as [d2 E2]. exists (d1 ++ d2). by rewrite E2, E1, app_assoc.
Qed.
Lemma grows_spawn (m : M unit) : grows m -> grows (spawn m).
Proof. intros Hm s. unfold spawn. specialize (Hm s). by destruct (m s). Qed.

End Grows.

Create HintDb growth discriminated.

Ltac grows_step :=
  lazymatch goal with
  | |- grows (bind _ _) => apply grows_bind; [|intros ?]
  | |- grows (match ?x with _ => _ end) => destruct x
  | |- grows (ret _) => apply grows_ret
  | |- grows (halt _) => apply grows_halt
  | |- grows (panic _) => apply grows_halt
  | |- grows (getW _) => apply grows_getW
  | |- grows (getD _) => apply grows_getD
  | |- grows (modW _) => apply grows_modW
  | |- grows (modD _) =>
      apply grows_modD; intros [];
      first [ by exists []; rewrite app_nil_r | by eexists ]
  | |- grows next_env => apply grows_next_env
  | |- grows (spawn _) => apply grows_spawn
  | |- grows ?m =>
      first [ solve [eauto with growth]
            | progress cbv zeta
            | let f := fuel_head m in unfold f ]
  end.
Ltac grows_auto := repeat grows_step.

Section GrowsOps.
Context `{Externals}.

Lemma grows_absorb : forall t, grows (absorb t).
Proof.
  intros t; induction t as [|e t IH]; cbn [absorb]; [apply grows_ret|].
  destruct e; try apply grows_ret; grows_auto.
Qed.
Hint Resolve grows_absorb : growth.

Lemma grows_handleDestroy_from :
  forall fuel i err, grows (handleDestroy_from fuel i err).
Proof.
  intros fuel; induction fuel as [|fuel IH]; intros i err; cbn [handleDestroy_from];
    destruct (negb (i <? killFailureLimit)%Z); grows_auto.
Qed.
Hint Resolve grows_handleDestroy_from : growth.

Lemma grows_prestart : forall fuel, grows (prestart fuel).
Proof.
  intros fuel; unfold prestart; induction fuel as [|fuel IH]; cbn [for_ever];
    [apply grows_halt|].
  apply grows_bind; [|intros []; [exact IH | apply grows_ret]].
  unfold prestart_body, prestart_block; cbn [block]; unfold and_then, do_, return_.
  grows_auto.
Qed.
Hint Resolve grows_prestart : growth.

Lemma grows_setState st ev : grows (setState st ev).
Proof. grows_auto. Qed.

Lemma grows_shouldRestart : grows shouldRestart.
Proof. grows_auto. Qed.

End GrowsOps.

#[export] Hint Resolve grows_absorb grows_handleDestroy_from grows_prestart : growth.

Section Calm.
Context `{Externals}.

Lemma calm_ret {A} (a : A) : calm (ret a).
Proof. intros s. exists []. by rewrite app_nil_r. Qed.
Lemma calm_halt {A} w : calm (@halt A w).
Proof. intros s. exists []. by rewrite app_nil_r. Qed.
Lemma calm_getW {A} (g : Worker -> A) : calm (getW g).
Proof. intros s. exists []. by rewrite app_nil_r. Qed.
Lemma calm_getD {A} (g : World -> A) : calm (getD g).
Proof. intros s. exists []. by rewrite app_nil_r. Qed.
Lemma calm_modW g : calm (modW g).
Proof. intros s. exists []. by rewrite app_nil_r. Qed.
Lemma calm_modD g : (forall d, logs (g d) = logs d) -> calm (modD g).
Proof. intros Hg s. exists []. cbn [modD state_of wd]. by rewrite Hg, app_nil_r. Qed.
Lemma calm_Printf f ops : ordinary (f, ops) -> calm (Printf f ops).
Proof. intros Hf s. exists [(f, ops)]. split; [done | by constructor]. Qed.
Lemma calm_next_env : calm next_env.
Proof.
  intros s. unfold next_env. destruct (tape (wd s)); exists []; by rewrite app_nil_r.
Qed.
Lemma calm_bind {A B} (m : M A) (k : A -> M B) :
  calm m -> (forall a, calm (k a)) -> calm (bind m k).
Proof.
  intros Hm Hk s. unfold bind. destruct (Hm s) as (l1 & E1 & Hl1).
  destruct (m s) as [a s1|w s1]; cbn [state_of] in *; [|by exists l1].
  destruct (Hk a s1) as (l2 & E2 & Hl2). exists (l1 ++ l2).
  split; [by rewrite E2, E1, app_assoc | by apply Forall_app].
Qed.
Lemma calm_spawn (m : M unit) : calm m -> calm (spawn m).
Proof. intros Hm s. unfold spawn. specialize (Hm s). by destruct (m s). Qed.

End Calm.

Create HintDb calmness discriminated.

Ltac calm_step :=
  lazymatch goal with
  | |- calm (bind _ _) => apply calm_bind; [|intros ?]
  | |- calm (match ?x with _ => _ end) => destruct x
  | |- calm (ret _) => apply calm_ret
  | |- calm (halt _) => apply calm_halt
  | |- calm (panic _) => apply calm_halt
  | |- calm (getW _) => apply calm_getW
  | |- calm (getD _) => apply calm_getD
  | |- calm (modW _) => apply calm_modW
  | |- calm (modD _) => apply calm_modD; intros []; reflexivity
  | |- calm (Printf _ _) => apply calm_Printf; split; discriminate
  | |- calm next_env => apply calm_next_env
  | |- calm (spawn _) => apply calm_spawn
  | |- calm ?m =>
      first [ solve [eauto with calmness]
            | progress cbv zeta
            | let f := fuel_head m in unfold f ]
  end.
Ltac calm_auto := repeat calm_step.

Section CalmOps.
Context `{Externals}.

Lemma calm_absorb : forall t, calm (absorb t).
Proof.
  intros t; induction t as [|e t IH]; cbn [absorb]; [apply calm_ret|].
  destruct e; try apply calm_ret; calm_auto.
Qed.
Hint Resolve calm_absorb : calmness.

Lemma calm_handleDestroy_from :
  forall fuel i err, calm (handleDestroy_from fuel i err).
Proof.
  intros fuel; induction fuel as [|fuel IH]; intros i err; cbn [handleDestroy_from];
    destruct (negb (i <? killFailureLimit)%Z); calm_auto.
Qed.
Hint Resolve calm_handleDestroy_from : calmness.

Lemma calm_prestart : forall fuel, calm (prestart fuel).
Proof.
  intros fuel; unfold prestart; induction fuel as [|fuel IH]; cbn [for_ever];
    [apply calm_halt|].
  apply calm_bind; [|intros []; [exact IH | apply calm_ret]].
  unfold prestart_body, prestart_block; cbn [block]; unfold and_then, do_, return_.
  calm_auto.
Qed.
Hint Resolve calm_prestart : calmness.

Lemma calm_setState st ev : calm (setState st ev).
Proof. calm_auto. Qed.

Lemma calm_absorb_cmds : calm absorb_cmds.
Proof. calm_auto. Qed.

End CalmOps.

#[export] Hint Resolve calm_absorb calm_handleDestroy_from calm_prestart : calmness.

Section Closing.
Context `{Externals}.

(** What is quiet adds live reports. *)
Lemma live_reports s s' d0 :
  symbols s' = symbols s ++ d0 -> Forall live d0 ->
  (exists d, reports s' = reports s ++ d) ->
  exists d, reports s' = reports s ++ d /\ Forall live_report d.
Proof.
  intros E0 Hd0 [d E]. exists d. split; [done|].
  rewrite !reports_symbols, E, map_app in E0. apply app_inv_head in E0.
  rewrite <- E0 in Hd0. exact (proj1 (List.Forall_map _ _ _) Hd0).
Qed.

Lemma quiet_reports {A} (m : M A) s :
  quietly m -> grows m ->
  exists d, reports (state_of (m s)) = reports s ++ d /\ Forall live_report d.
Proof.
  intros Hq Hg. specialize (Hq s). pose proof (Hg s) as Hgs.
  destruct (m s) as [a s'|w s']; destruct Hq as (d0 & E0 & Hd0);
    exact (live_reports _ _ _ E0 Hd0 Hgs).
Qed.

(** What is silent adds no report. *)
Lemma silent_reports {A} (m : M A) s :
  silent m -> grows m -> reports (state_of (m s)) = reports s.
Proof.
  intros Hs Hg. destruct (Hg s) as [d E]. specialize (Hs s).
  assert (Hd : map fst d = []).
  { destruct (m s) as [a s'|w s']; destruct Hs as (d0 & E0 & ->); cbn [state_of] in E;
      rewrite !reports_symbols, E, map_app in E0;
      by apply app_inv_head in E0. }
  destruct d; [|discriminate]. by rewrite E, app_nil_r.
Qed.

(** Ordinary lines tell of no refusal. *)
Lemma ordinary_In l :
  Forall ordinary l ->
  ~ In refusing_policy (map fst l) /\ ~ In refusing_destroyed (map fst l).
Proof.
  induction 1 as [|x l [Hx1 Hx2] _ [IH1 IH2]]; [by split; intros []|].
  split; intros [E|Hin]; auto.
Qed.

Lemma refusal_app_l w l1 l2 :
  Forall ordinary l1 -> refusal w (l1 ++ l2) <-> refusal w l2.
Proof.
  intros Hl. destruct (ordinary_In l1 Hl) as [H1 H2].
  unfold refusal. rewrite !map_app, !in_app_iff. tauto.
Qed.

Lemma refusal_app_r w l1 l2 :
  Forall ordinary l2 -> refusal w (l1 ++ l2) <-> refusal w l1.
Proof.
  intros Hl. destruct (ordinary_In l2 Hl) as [H1 H2].
  unfold refusal. rewrite !map_app, !in_app_iff. tauto.
Qed.

Lemma ordinary_refusal w l : Forall ordinary l -> ~ refusal w l.
Proof. intros Hl. destruct (ordinary_In l Hl) as [H1 H2]. unfold refusal. tauto. Qed.

Lemma finished_ended w d l : finished w d l -> ended w d.
Proof.
  intros (pre & Hpre & Hd). exists pre. split; [done|].
  destruct Hd as [(ev & -> & _)|(ev & -> & Hg & _)]; eauto.
Qed.

Lemma finished_app w pre d l1 l :
  Forall live_report pre -> Forall ordinary l1 ->
  finished w d l -> finished w (pre ++ d) (l1 ++ l).
Proof.
  intros Hpre Hl1 (p & Hp & Hd). exists (pre ++ p). split; [by apply Forall_app|].
  destruct Hd as [(ev & -> & Hn)|(ev & -> & Hg & Hr)]; rewrite app_assoc.
  - left. exists ev. split; [done|]. by rewrite refusal_app_l.
  - right. exists ev. split; [done|]. split; [done|]. by rewrite refusal_app_l.
Qed.

Lemma ended_app w pre d : Forall live_report pre -> ended w d -> ended w (pre ++ d).
Proof.
  intros Hpre (p & Hp & Hd). exists (pre ++ p). split; [by apply Forall_app|].
  destruct Hd as [[ev ->]|(ev & -> & Hg)]; rewrite app_assoc; eauto.
Qed.

Lemma closes_halt {A} w : closes (@halt A w).
Proof. intros s. exists []. rewrite app_nil_r. split; [done|]. left. constructor. Qed.

Lemma closes_bind_quiet {A B} (m : M A) (k : A -> M B) :
  quietly m -> grows m -> calm m -> (forall a, closes (k a)) -> closes (bind m k).
Proof.
  intros Hq Hg Hc Hk s. unfold bind.
  destruct (quiet_reports m s Hq Hg) as (d1 & E1 & Hd1).
  destruct (Hc s) as (l1 & L1 & Hl1).
  destruct (m s) as [a s1|w s1]; cbn [state_of] in E1, L1; [|exists d1; eauto].
  specialize (Hk a s1). destruct (k a s1) as [b s2|w s2].
  - destruct Hk as (d2 & l2 & E2 & L2 & Hd2). exists (d1 ++ d2), (l1 ++ l2).
    split; [by rewrite E2, E1, app_assoc|]. split; [by rewrite L2, L1, app_assoc|].
    by apply finished_app.
  - destruct Hk as (d2 & E2 & Hd2). exists (d1 ++ d2).
    split; [by rewrite E2, E1, app_assoc|].
    destruct Hd2 as [Hd2|Hd2]; [left; by apply Forall_app | right; by apply ended_app].
Qed.

Lemma worker_setState st ev : leaves (fun w => w) (setState st ev).
Proof. leaves_auto. Qed.

(** [setState] reports its state and its event whenever it returns, and
    logs ordinary lines only. *)
Lemma setState_Ok st ev s u s' :
  setState st ev s = Ok u s' ->
  wk s' = wk s /\ reports s' = reports s ++ [(st, ev)]
  /\ exists l, logs (wd s') = logs (wd s) ++ l /\ Forall ordinary l.
Proof.
  intros E. split; [exact (leaves_Ok _ _ _ _ _ (worker_setState st ev) E)|]. split.
  - destruct (task (wk s)) as [t|] eqn:Ht.
    + destruct (setState_spec st ev s t Ht) as (s1 & E1 & _ & Hup & _).
      rewrite E1 in E. injection E as _ <-. unfold reports. by rewrite Hup, map_app.
    + exfalso. destruct_state s. unfold setState, SaveState, stateFilePath in E.
      mred in E. discriminate E.
  - pose proof (calm_setState st ev s) as Hc. by rewrite E in Hc.
Qed.

(** [setState] reports nothing when it stops. *)
Lemma setState_Halt st ev s w s' :
  setState st ev s = Halt w s' -> reports s' = reports s /\ wk s' = wk s.
Proof.
  intros E. split.
  - pose proof (emits_setState st ev s) as Hem. rewrite E in Hem.
    destruct Hem as (d0 & E0 & ->).
    destruct (live_reports s s' [] E0 ltac:(constructor)) as (d & Ed & _).
    { pose proof (grows_setState st ev s) as Hg. by rewrite E in Hg. }
    rewrite !reports_symbols, Ed, map_app in E0. apply app_inv_head in E0.
    destruct d; [|discriminate]. by rewrite Ed, app_nil_r.
  - pose proof (worker_setState st ev s) as Hw. by rewrite E in Hw.
Qed.

Lemma closes_setState_dead ev : closes (setState TaskStateDead ev).
Proof.
  intros s. destruct (setState TaskStateDead ev s) as [u s'|w s'] eqn:E.
  - apply setState_Ok in E as (_ & E & l & L & Hl). exists [(TaskStateDead, ev)], l.
    split; [done|]. split; [done|].
    exists []. split; [constructor|]. left. exists ev. split; [done|].
    by apply ordinary_refusal.
  - exists []. rewrite app_nil_r. split; [|left; constructor].
    apply (setState_Halt _ _ _ _ _ E).
Qed.

Lemma tracker_absorb : forall t, leaves restartTracker (absorb t).
Proof. leaves_absorb. Qed.
Hint Resolve tracker_absorb : frame.

Lemma tracker_restart_wait : leaves restartTracker restart_wait.
Proof. leaves_auto. Qed.

(** The steps of [restart_wait] up to its question whether the worker has
    been destroyed. *)
Lemma restart_wait_steps {B} (k : bool -> M B) s b s' :
  (absorb_cmds ;;
   ch <- getW destroyCh ;;
   match ch with
   | Closed => skip
   | Open => e <- next_env ;; match e with ETimer => skip | _ => halt Infeasible end
   end ;;
   destroyed <- getW destroy ;; k destroyed) s = Ok b s' ->
  exists s3 l, reports s3 = reports s
               /\ logs (wd s3) = logs (wd s) ++ l /\ Forall ordinary l
               /\ k (destroy (wk s3)) s3 = Ok b s'.
Proof.
  intros E.
  apply bind_inv in E as ([] & s1 & E1 & E).
  apply bind_inv in E as (ch & s2 & E2 & E). injection E2 as <- <-.
  apply bind_inv in E as ([] & s3 & E3 & E).
  apply bind_inv in E as (d & s4 & E4 & E). injection E4 as <- <-.
  assert (H1 : reports s1 = reports s).
  { pose proof (silent_reports absorb_cmds s silent_absorb_cmds ltac:(grows_auto)) as Hs.
    by rewrite E1 in Hs. }
  destruct (calm_absorb_cmds s) as (l & L1 & Hl). rewrite E1 in L1. cbn [state_of] in L1.
  assert (H3 : wd s3 = wd s1 \/ exists t, wd s3 = set_tape t (wd s1)).
  { destruct (destroyCh (wk s1)).
    - unfold bind, next_env in E3. destruct s1 as [w1 d1]. cbn in E3.
      destruct (tape d1) as [|[] ?]; try discriminate E3. injection E3 as <-.
      right. eauto.
    - injection E3 as <-. by left. }
  exists s3, l. split; [|split; [|done]].
  - rewrite <- H1. unfold reports. by destruct H3 as [->|[t ->]].
  - rewrite <- L1. by destruct H3 as [->|[t ->]].
Qed.

(** What [restart_wait] has reported and logged when it answers [false]:
    the [dead] of a destroyed worker. *)
Lemma restart_wait_false s s' :
  restart_wait s = Ok false s' ->
  restartTracker (wk s') = restartTracker (wk s)
  /\ destroy (wk s') = true
  /\ reports s' = reports s ++ [(TaskStateDead, destroyEvent (wk s'))]
  /\ exists l, logs (wd s') = logs (wd s) ++ l /\ In refusing_destroyed (map fst l).
Proof.
  intros E. split; [exact (leaves_Ok _ _ _ _ _ tracker_restart_wait E)|].
  unfold restart_wait in E.
  apply restart_wait_steps in E as (s3 & l3 & R3 & L3 & Hl3 & E).
  destruct (destroy (wk s3)) eqn:Ed; [|discriminate E].
  apply bind_inv in E as (t & s5 & E5 & E).
  apply bind_inv in E as ([] & s6 & E6 & E).
  apply bind_inv in E as (de & s7 & E7 & E). injection E7 as <- <-.
  apply bind_inv in E as ([] & s8 & E8 & E). injection E as <-.
  apply setState_Ok in E8 as (W8 & R8 & l8 & L8 & Hl8).
  assert (H5 : s5 = s3).
  { unfold taskType, the_task, bind, getW in E5. destruct (task (wk s3)); [|discriminate].
    by injection E5 as _ <-. }
  subst s5. unfold Printf, modD in E6. injection E6 as <-. cbn [wk wd logs set_logs] in *.
  rewrite W8. split; [done|]. split.
  - rewrite R8. unfold reports at 1. cbn [wd updates set_logs]. fold (reports s3).
    by rewrite R3.
  - exists (l3 ++ [(refusing_destroyed, [t])] ++ l8). split.
    + rewrite L8. destruct (wd s3); cbn [logs set_logs] in *.
      rewrite L3, <- !app_assoc. reflexivity.
    + rewrite !map_app, !in_app_iff. right; left. by left.
Qed.

(** [restart_wait] logs ordinary lines when it answers [true]. *)
Lemma restart_wait_true_logs s s' :
  restart_wait s = Ok true s' ->
  exists l, logs (wd s') = logs (wd s) ++ l /\ Forall ordinary l.
Proof.
  intros E. unfold restart_wait in E.
  apply restart_wait_steps in E as (s3 & l3 & R3 & L3 & Hl3 & E).
  destruct (destroy (wk s3)).
  - repeat (apply bind_inv in E as (? & ? & _ & E)). discriminate E.
  - injection E as <-. eauto.
Qed.

(** The first steps of [shouldRestart] on a restarting or refusing
    tracker: they read the worker. *)
Lemma shouldRestart_head {B} (k : string -> string -> M B) (b : B) s s1 :
  (t <- taskType ;; a <- allocID ;; k t a) s = Ok b s1 ->
  exists t a, k t a s = Ok b s1.
Proof.
  intros Ek.
  apply bind_inv in Ek as (t & s2 & E2 & Ek).
  apply bind_inv in Ek as (a & s3 & E3 & Ek). injection E3 as _ <-.
  unfold taskType, the_task, bind, getW in E2. destruct (task (wk s)); [|discriminate].
  injection E2 as _ <-. by exists t, a.
Qed.

(** What [shouldRestart] has reported and logged when it answers
    [false]. *)
Lemma shouldRestart_false s s' :
  shouldRestart s = Ok false s' ->
  exists d l, reports s' = reports s ++ d /\ logs (wd s') = logs (wd s) ++ l
              /\ refused (wk s') d l.
Proof.
  intros E. unfold shouldRestart in E.
  apply bind_inv in E as (tr & s0 & E0 & E). injection E0 as <- <-.
  destruct (GetState (restartTracker (wk s))) as [state when] eqn:Eg.
  assert (Hother : forall f ops,
            ordinary (f, ops) -> (Printf f ops ;; ret false) s = Ok false s' ->
            exists d l, reports s' = reports s ++ d /\ logs (wd s') = logs (wd s) ++ l
                        /\ refused (wk s') d l).
  { intros f ops Hf Em. unfold bind, Printf, modD, ret in Em. injection Em as <-.
    exists [], [(f, ops)].
    rewrite app_nil_r. split; [done|]. split; [done|].
    exists []. split; [constructor|]. left. split; [done|].
    apply ordinary_refusal. by constructor. }
  destruct state.
  all: try (refine (Hother _ _ _ E); split; discriminate).
  - (* Terminated: the line is logged and nothing is reported *)
    apply shouldRestart_head in E as (t & a & E).
    apply bind_inv in E as ([] & s3 & E3 & E).
    apply bind_inv in E as ([] & s4 & E4 & E). injection E as <-.
    destruct (decide (TaskTerminated = TaskNotRestarting)); [discriminate|].
    injection E4 as <-. unfold Printf, modD in E3. injection E3 as <-.
    exists [], [(refusing_policy, [t; a])]. rewrite app_nil_r.
    split; [done|]. split; [done|]. exists []. split; [constructor|]. left.
    split; [done|]. unfold refusal. cbn [wk map fst In]. rewrite Eg. cbn [fst].
    intros [[_ Hs]|[Hd|[]]]; discriminate.
  - (* Restarting: pending, and dead when the worker has been destroyed *)
    apply shouldRestart_head in E as (t & a & E).
    apply bind_inv in E as ([] & s3 & E3 & E).
    apply bind_inv in E as ([] & s4 & E4 & E).
    apply setState_Ok in E4 as (W4 & R4 & l4 & L4 & Hl4).
    apply restart_wait_false in E as (Wt & Hd & Rw & lw & Lw & Hlw).
    unfold Printf, modD in E3. injection E3 as <-. cbn [wk wd logs set_logs] in *.
    eexists _, _. split; [|split].
    + rewrite Rw, R4. unfold reports at 1. cbn [wd updates set_logs].
      fold (reports s). rewrite <- app_assoc. reflexivity.
    + rewrite Lw, L4. destruct (wd s); cbn [logs set_logs].
      rewrite <- !app_assoc. reflexivity.
    + exists [(TaskStatePending,
               Some (SetRestartReason (GetReason (restartTracker (wk s)))
                       (SetRestartDelay when (NewTaskEvent TaskRestarting))))].
      split; [constructor; [by right; left | constructor]|].
      right. eexists. split; [reflexivity|]. split.
      * right. rewrite Wt, W4, Eg. done.
      * right. rewrite !map_app, !in_app_iff. by right; right.
  - (* NotRestarting: dead with the event that fails the task *)
    apply shouldRestart_head in E as (t & a & E).
    apply bind_inv in E as ([] & s3 & E3 & E).
    apply bind_inv in E as ([] & s4 & E4 & E). injection E as <-.
    destruct (decide (TaskNotRestarting = TaskNotRestarting)); [|done].
    apply setState_Ok in E4 as (W4 & R4 & l4 & L4 & Hl4).
    unfold Printf, modD in E3. injection E3 as <-. cbn [wk wd logs set_logs] in *.
    eexists _, _. split; [|split].
    + rewrite R4. unfold reports at 1. cbn [wd updates set_logs].
      fold (reports s). reflexivity.
    + rewrite L4. destruct (wd s); cbn [logs set_logs].
      rewrite <- !app_assoc. reflexivity.
    + exists []. split; [constructor|]. right. eexists. split; [reflexivity|]. split.
      * left. rewrite W4, Eg. done.
      * left. rewrite W4, Eg. split; [|done]. cbn [map fst app]. by left.
Qed.

(** What [shouldRestart] has logged when it answers [true]. *)
Lemma shouldRestart_true_logs s s' :
  shouldRestart s = Ok true s' ->
  exists l, logs (wd s') = logs (wd s) ++ l /\ Forall ordinary l.
Proof.
  intros E. unfold shouldRestart in E.
  apply bind_inv in E as (tr & s0 & E0 & E). injection E0 as <- <-.
  destruct (GetState (restartTracker (wk s))) as [state when] eqn:Eg.
  destruct state.
  all: try (exfalso; repeat (apply bind_inv in E as (? & ? & _ & E)); discriminate E).
  apply shouldRestart_head in E as (t & a & E).
  apply bind_inv in E as ([] & s3 & E3 & E).
  apply bind_inv in E as ([] & s4 & E4 & E).
  apply setState_Ok in E4 as (W4 & R4 & l4 & L4 & Hl4).
  apply restart_wait_true_logs in E as (lw & Lw & Hlw).
  unfold Printf, modD in E3. injection E3 as <-. cbn [wk wd logs set_logs] in *.
  eexists. split.
  - rewrite Lw, L4. destruct (wd s); cbn [logs set_logs]. rewrite <- !app_assoc. reflexivity.
  - apply Forall_app. split; [constructor; [split; discriminate | constructor]|].
    by apply Forall_app.
Qed.

(** The code at the label [RESTART], before the loop goes round again. *)
Lemma closes_RESTART (again : M unit) :
  closes again ->
  closes (restart <- shouldRestart ;;
          if negb restart then setState TaskStateDead None
          else modW (set_handle None) ;; again).
Proof.
  intros Hagain s. unfold bind at 1.
  pose proof (grows_shouldRestart s) as Hg.
  pose proof (emits_shouldRestart s) as Hem.
  destruct (shouldRestart s) as [[|] s1|w s1] eqn:E; cbn [negb state_of] in *.
  - (* the loop goes round again *)
    destruct Hem as (d0 & E0 & Hd0). cbn [gate_ok] in Hd0.
    destruct (live_reports s s1 d0 E0 Hd0 Hg) as (d1 & E1 & Hd1).
    apply shouldRestart_true_logs in E as (l1 & L1 & Hl1).
    unfold bind, modW. specialize (Hagain (mkSt (set_handle None (wk s1)) (wd s1))).
    change (reports (mkSt (set_handle None (wk s1)) (wd s1))) with (reports s1) in Hagain.
    cbn [wd] in Hagain.
    destruct (again _) as [u s2|w s2].
    + destruct Hagain as (d2 & l2 & E2 & L2 & Hd2). exists (d1 ++ d2), (l1 ++ l2).
      split; [by rewrite E2, E1, app_assoc|]. split; [by rewrite L2, L1, app_assoc|].
      by apply finished_app.
    + destruct Hagain as (d2 & E2 & Hd2). exists (d1 ++ d2).
      split; [by rewrite E2, E1, app_assoc|].
      destruct Hd2 as [Hd2|Hd2]; [left; by apply Forall_app | right; by apply ended_app].
  - (* the gate reports dead, with a nil event *)
    apply shouldRestart_false in E as (d1 & l1 & E1 & L1 & pre & Hpre & Hd1).
    destruct (setState TaskStateDead None s1) as [u s2|w s2] eqn:E2.
    + apply setState_Ok in E2 as (W2 & R2 & l2 & L2 & Hl2).
      exists (d1 ++ [(TaskStateDead, None)]), (l1 ++ l2).
      split; [by rewrite R2, E1, app_assoc|]. split; [by rewrite L2, L1, app_assoc|].
      exists pre. split; [done|]. rewrite W2.
      destruct Hd1 as [[-> Hn]|(ev & -> & Hgate & Hr)].
      * left. exists None. split; [done|]. by rewrite refusal_app_r.
      * right. exists ev. rewrite <- app_assoc. split; [done|]. split; [done|].
        by rewrite refusal_app_r.
    + apply setState_Halt in E2 as [R2 W2]. exists d1.
      split; [by rewrite R2|]. rewrite W2.
      destruct Hd1 as [[-> _]|(ev & -> & Hgate & _)]; [by left|].
      right. exists pre. split; [done|]. left. by exists ev.
  - destruct Hem as (d0 & E0 & Hd0).
    destruct (live_reports s s1 d0 E0 Hd0 Hg) as (d1 & E1 & Hd1). exists d1. eauto.
Qed.

End Closing.

Ltac close_step IH :=
  lazymatch goal with
  | |- closes (bind shouldRestart _) => apply closes_RESTART; apply IH
  | |- closes (bind _ _) =>
      apply closes_bind_quiet;
      [solve [quiet_auto] | solve [grows_auto] | solve [calm_auto] | intros ?]
  | |- closes (match ?x with _ => _ end) => destruct x
  | |- closes (setState TaskStateDead _) => apply closes_setState_dead
  | |- closes (halt _) => apply closes_halt
  | |- closes (panic _) => apply closes_halt
  | |- closes (run_loop _ _ _) => apply IH
  end.

Section ClosingLoop.
Context `{Externals}.

Lemma closes_run_loop fuel : forall pc lv, closes (run_loop fuel pc lv).
Proof.
  induction fuel as [|fuel IH]; intros pc lv; cbn [run_loop]; [apply closes_halt|].
  repeat close_step IH.
Qed.

Lemma finished_waitCh ch w d l : finished w d l -> finished (set_waitCh ch w) d l.
Proof. by destruct w. Qed.

Lemma closes_supervise mark fuel : closes (supervise mark fuel).
Proof.
  unfold supervise.
  apply closes_bind_quiet;
    [destruct mark; [apply quietly_MarkReceived | quiet_auto]
    |destruct mark; grows_auto|destruct mark; calm_auto|].
  intros _. unfold Run.
  apply closes_bind_quiet; [quiet_auto | grows_auto | calm_auto | intros t].
  apply closes_bind_quiet; [quiet_auto | grows_auto | calm_auto | intros a].
  apply closes_bind_quiet; [quiet_auto | grows_auto | calm_auto | intros _].
  apply closes_bind_quiet; [quiet_auto | grows_auto | calm_auto | intros err].
  assert (Hbody : closes (match err with
                          | Some err0 =>
                              let e := "failed to create driver of task " +:+ fmt_q t
                                       +:+ " for alloc " +:+ fmt_q a +:+ ": " +:+ err0 in
                              setState TaskStateDead
                                (Some (SetFailsTask true
                                         (SetSetupError (Some e)
                                            (NewTaskEvent TaskSetupFailure))))
                          | None => run fuel
                          end)).
  { destruct err; [apply closes_setState_dead|].
    unfold run. apply closes_bind_quiet; [quiet_auto | grows_auto | calm_auto | intros h].
    apply closes_bind_quiet; [quiet_auto | grows_auto | calm_auto | intros lv].
    apply closes_run_loop. }
  intros s. unfold bind at 1. specialize (Hbody s).
  match goal with |- match match ?body s with _ => _ end with _ => _ end =>
    destruct (body s) as [[] s1|w s1]
  end; [|exact Hbody].
  destruct Hbody as (d & l & E & L & Hd).
  destruct s1 as [w1 d1]. unfold bind, getW, close, modW. cbn [wk wd] in *.
  destruct (waitCh w1); cbn.
  - exists d, l. split; [exact E|]. split; [exact L|]. by apply finished_waitCh.
  - exists d. split; [exact E|]. right. by apply (finished_ended _ _ l).
Qed.

End ClosingLoop.

Section SupervisorReports.
Context `{Externals}.

(** C1, amended.  Whatever the environment does and however long the
    model runs, a supervisor ([MarkReceived], when it is called, and then
    [Run]) only adds to the updates it has passed to the updater.  When
    [Run] returns it has added live updates (running, pending or the empty
    symbol) and then [dead]: once, unless [shouldRestart] has reported
    [dead]; and twice when it has, as the line that it logs before tells.
    The second [dead] is then the one of the RESTART gate, with a nil
    event, and the first carries the not-restarting event when the restart
    tracker says NotRestarting, or the destroy event when the tracker says
    Restarting and the worker was destroyed during the delay.  While [Run]
    has not returned, the updates are live only or have one of the two
    final forms already.  So the state symbols, the empty one left out, are
    a word of [Pending? (Running | Pending)* Dead Dead?], or the beginning
    of one. *)
Theorem supervisor_reports (markReceived : bool) (fuel : nat) (s : St) :
  exists d,
    reports (state_of (supervise markReceived fuel s)) = reports s ++ d
    /\ if returned (supervise markReceived fuel s)
       then (exists l,
               logs (wd (state_of (supervise markReceived fuel s))) = logs (wd s) ++ l
               /\ finished (wk (state_of (supervise markReceived fuel s))) d l)
            /\ emitted_language (nonempty (map fst d))
       else (Forall live_report d
             \/ ended (wk (state_of (supervise markReceived fuel s))) d)
            /\ exists more, emitted_language (nonempty (map fst d) ++ more).
Proof.
  pose proof (closes_supervise markReceived fuel s) as Hc.
  destruct (supervisor_symbols markReceived fuel s) as (d0 & E0 & Hd0).
  assert (Hmap : forall d,
            reports (state_of (supervise markReceived fuel s)) = reports s ++ d ->
            map fst d = d0).
  { intros d E. rewrite !reports_symbols, E, map_app in E0. by apply app_inv_head in E0. }
  destruct (supervise markReceived fuel s) as [[] s'|w s'];
    cbn [returned state_of] in *.
  - destruct Hc as (d & l & E & L & Hd). exists d. split; [done|].
    split; [by exists l|]. by rewrite (Hmap d E).
  - destruct Hc as (d & E & Hd). exists d. split; [done|]. split; [done|].
    by rewrite (Hmap d E).
Qed.

End SupervisorReports.

(** Instances of the laws on the example worker. *)

#[local] Existing Instance Examples.externals.

Lemma Run_setup_failure_witness :
  exists s',
    Run 1 (Examples.new_supervisor [ENewDriver (Some "unknown driver")]) = Ok tt s'
    /\ updates (wd s')
       = updates (wd (Examples.new_supervisor [ENewDriver (Some "unknown driver")]))
         ++ [("src", TaskStateDead,
              Some (setup_failure Examples.task1 Examples.alloc1 "unknown driver"))]
    /\ calls (wd s')
       = calls (wd (Examples.new_supervisor [ENewDriver (Some "unknown driver")]))
         ++ [CallNewDriver "mysql"]
    /\ wk s'
       = set_waitCh Closed (wk (Examples.new_supervisor [ENewDriver (Some "unknown driver")]))
    /\ tape (wd s') = [].
Proof.
  apply (Run_setup_failure 1 (Examples.new_supervisor [ENewDriver (Some "unknown driver")])
           Examples.task1 "unknown driver" []); reflexivity.
Defined.

Lemma Run_closes_waitCh_witness :
  waitCh (wk (Examples.new_supervisor [ENewDriver (Some "unknown driver")])) = Open
  /\ waitCh (wk (state_of (Run 1 (Examples.new_supervisor
                                    [ENewDriver (Some "unknown driver")])))) = Closed.
Proof.
  apply (Run_closes_waitCh 1 (Examples.new_supervisor [ENewDriver (Some "unknown driver")])).
  vm_compute. reflexivity.
Defined.

Lemma running_only_with_handle_witness :
  is_Some (handle (wk (state_of (supervise true 4
                                   (Examples.new_supervisor
                                      [ENewDriver None; ESelPrestart; ESelStart;
                                       ENewDriver None; EStart (inr Examples.h1)]))))).
Proof.
  apply (running_only_with_handle true 4
           (Examples.new_supervisor
              [ENewDriver None; ESelPrestart; ESelStart;
               ENewDriver None; EStart (inr Examples.h1)])).
  - simpl. discriminate.
  - vm_compute. reflexivity.
Defined.

Lemma destroy_when_not_running_witness :
  exists s',
    run_loop 1 AtWait (mkLocals None None)
      (Examples.new_supervisor
         [ECmd (CmdDestroy (Some Examples.shutdown_event)); ESelDestroy]) = Ok tt s'
    /\ updates (wd s') = [] ++ [("src", TaskStateDead, Some Examples.shutdown_event)]
    /\ calls (wd s') = []
    /\ wk s' = destroyed (Some Examples.shutdown_event) (wk (Examples.new_supervisor []))
    /\ tape (wd s') = [].
Proof.
  apply (destroy_when_not_running 0 (mkLocals None None)
           (Examples.new_supervisor
              [ECmd (CmdDestroy (Some Examples.shutdown_event)); ESelDestroy])
           Examples.task1 (Some Examples.shutdown_event) []); reflexivity.
Defined.

Lemma destroy_nil_while_running_panics_witness :
  run_loop 1 AtWait (mkLocals (Some Open) (Some "h1"))
    (Examples.started [ECmd (CmdDestroy None); ESelDestroy])
  = Halt (Panicked "nil pointer dereference")
      (mkSt (destroyed None (wk (Examples.started [])))
         (set_tape [] (wd (Examples.started [ECmd (CmdDestroy None); ESelDestroy])))).
Proof.
  apply (destroy_nil_while_running_panics 0 (mkLocals (Some Open) (Some "h1"))
           (Examples.started [ECmd (CmdDestroy None); ESelDestroy]) []); reflexivity.
Defined.

Lemma nil_wait_panics_witness :
  run_loop 1 AtWait (mkLocals (Some Open) (Some "h1")) (Examples.started [ESelWait None])
  = Halt (Panicked "nil wait") (moved [] (Examples.started [ESelWait None])).
Proof.
  apply (nil_wait_panics 0 (mkLocals (Some Open) (Some "h1"))
           (Examples.started [ESelWait None]) "h1" []); reflexivity.
Defined.

Lemma restart_of_idle_task_is_skipped_witness :
  run_loop 1 AtWait (mkLocals None None)
    (Examples.new_supervisor [ESelRestart "admin" "rolling"])
  = run_loop 0 AtWait (mkLocals None None)
      (logged ("[DEBUG] client: skipping restart of %v: task isn't running",
               ["task " +:+ "src" +:+ " for alloc " +:+ fmt_q "a1"])
         (moved [] (Examples.new_supervisor [ESelRestart "admin" "rolling"]))).
Proof.
  apply (restart_of_idle_task_is_skipped 0 (mkLocals None None)
           (Examples.new_supervisor [ESelRestart "admin" "rolling"])
           Examples.task1 "admin" "rolling" []); reflexivity.
Defined.

Lemma kill_while_running_witness :
  exists s',
    run_loop 1 AtWait (mkLocals (Some Open) (Some "h1"))
      (Examples.started
         (ECmd (CmdKill "admin" "drain" true) :: ESelDestroy
          :: shutdown_answers ["busy"] true ++ ESelWait (Some "killed") :: [])) = Ok tt s'
    /\ updates (wd s')
       = [] ++ [("src", TaskStateRunning,
                 Some (SetKillTimeout (5 * Second)
                         (SetEventType TaskKilling (kill_event "admin" "drain" true))));
                ("src", "", Some (SetKillError None (NewTaskEvent TaskKilled)));
                ("src", TaskStateDead, None)]
    /\ wk s'
       = set_running false
           (destroyed
              (Some (SetKillTimeout (5 * Second)
                       (SetEventType TaskKilling (kill_event "admin" "drain" true))))
              (wk (Examples.started [])))
    /\ tape (wd s') = [].
Proof.
  assert (Hlen : length ["busy"] < 5) by (simpl; lia).
  exact (kill_while_running 0 (mkLocals (Some Open) (Some "h1"))
           (Examples.started
              (ECmd (CmdKill "admin" "drain" true) :: ESelDestroy
               :: shutdown_answers ["busy"] true ++ ESelWait (Some "killed") :: []))
           Examples.task1 Examples.h1 "h1" "admin" "drain" true ["busy"] true
           (Some "killed") [] eq_refl eq_refl eq_refl eq_refl eq_refl eq_refl eq_refl
           Hlen eq_refl).
Defined.

Lemma setState_always_updates_witness :
  exists s',
    setState TaskStateRunning (Some (NewTaskEvent TaskStarted)) (Examples.new_supervisor [])
    = Ok tt s'
    /\ wk s' = wk (Examples.new_supervisor [])
    /\ updates (wd s') = [] ++ [("src", TaskStateRunning, Some (NewTaskEvent TaskStarted))]
    /\ logs (wd s')
       = [] ++ save_failure Examples.task1 (SaveState (Examples.new_supervisor []))
    /\ outside_setState (wd s') = outside_setState (wd (Examples.new_supervisor [])).
Proof.
  apply (setState_always_updates TaskStateRunning (Some (NewTaskEvent TaskStarted))
           (Examples.new_supervisor []) Examples.task1); reflexivity.
Defined.

Lemma killTask_kills_witness :
  exists s',
    killTask NilRef (Examples.started (shutdown_answers ["busy"; "busy"] true ++ []))
    = Ok tt s'
    /\ updates (wd s')
       = [] ++ [("src", TaskStateRunning, Some (killing_event NilRef None));
                ("src", "", Some (SetKillError None (NewTaskEvent TaskKilled)))]
    /\ wk s' = set_running false (wk (Examples.started []))
    /\ calls (wd s') = [] ++ replicate (2 + 1) (CallShutdown "h1")
    /\ slept (wd s') = [] ++ take 2 backoff_delays
    /\ tape (wd s') = [].
Proof.
  apply (killTask_kills NilRef
           (Examples.started (shutdown_answers ["busy"; "busy"] true ++ []))
           Examples.h1 Examples.task1 ["busy"; "busy"] true []);
    [reflexivity | reflexivity | reflexivity | simpl; lia | reflexivity].
Defined.

Lemma killTask_leaves_task_stopped_witness :
  running (wk (state_of (killTask NilRef (Examples.started [EShutdown None])))) = false
  /\ killTask DestroyEventRef (state_of (killTask NilRef (Examples.started [EShutdown None])))
     = Ok tt (state_of (killTask NilRef (Examples.started [EShutdown None])))
  /\ LatestTaskStats (state_of (killTask NilRef (Examples.started [EShutdown None])))
     = Ok None (state_of (killTask NilRef (Examples.started [EShutdown None]))).
Proof.
  apply (killTask_leaves_task_stopped NilRef DestroyEventRef
           (Examples.started [EShutdown None])).
  vm_compute. reflexivity.
Defined.

Lemma shouldRestart_true_only_if_witness :
  (GetState (restartTracker
               (wk (mkSt (set_restartTracker [RestartTriggered]
                            (wk (Examples.new_supervisor [])))
                      (wd (Examples.new_supervisor [ETimer])))))).1 = TaskRestarting
  /\ destroy (wk (state_of (shouldRestart
                              (mkSt (set_restartTracker [RestartTriggered]
                                       (wk (Examples.new_supervisor [])))
                                 (wd (Examples.new_supervisor [ETimer])))))) = false
  /\ symbols (state_of (shouldRestart
                          (mkSt (set_restartTracker [RestartTriggered]
                                   (wk (Examples.new_supervisor [])))
                             (wd (Examples.new_supervisor [ETimer])))))
     = symbols (mkSt (set_restartTracker [RestartTriggered]
                        (wk (Examples.new_supervisor [])))
                  (wd (Examples.new_supervisor [ETimer])))
       ++ [TaskStatePending].
Proof.
  apply (shouldRestart_true_only_if
           (mkSt (set_restartTracker [RestartTriggered] (wk (Examples.new_supervisor [])))
              (wd (Examples.new_supervisor [ETimer])))).
  vm_compute. reflexivity.
Defined.

Lemma collector_without_handle_witness :
  collectResourceUsageStats 3 (Examples.new_supervisor (replicate 2 ETick ++ EStop :: []))
  = Ok tt (moved [] (Examples.new_supervisor (replicate 2 ETick ++ EStop :: []))).
Proof.
  apply (collector_without_handle 2 3
           (Examples.new_supervisor (replicate 2 ETick ++ EStop :: [])) []);
    [reflexivity | reflexivity | lia].
Defined.

Lemma startTask_outcome_witness :
  exists h rest,
    tape (wd (Examples.new_supervisor [ENewDriver None; EStart (inr Examples.h1)]))
    = ENewDriver None :: EStart (inr h) :: rest
    /\ wk (state_of (startTask (Examples.new_supervisor
                                  [ENewDriver None; EStart (inr Examples.h1)])))
       = set_handle (Some h) (wk (Examples.new_supervisor []))
    /\ calls (wd (state_of (startTask (Examples.new_supervisor
                                         [ENewDriver None; EStart (inr Examples.h1)]))))
       = [] ++ [CallNewDriver "mysql"; CallStart "job" "src"].
Proof.
  apply (startTask_outcome
           (Examples.new_supervisor [ENewDriver None; EStart (inr Examples.h1)])
           (state_of (startTask (Examples.new_supervisor
                                   [ENewDriver None; EStart (inr Examples.h1)])))
           None Examples.task1); [reflexivity | vm_compute; reflexivity].
Defined.

Lemma Kill_latches_once_witness :
  exists s' s'',
    Kill "admin" "drain" true (Examples.new_supervisor []) = Ok tt s'
    /\ wk s' = destroyed (Some (kill_event "admin" "drain" true))
                 (wk (Examples.new_supervisor []))
    /\ Kill "deploy" "replaced" false s' = Ok tt s''
    /\ wk s'' = wk s'
    /\ updates (wd s'') = updates (wd (Examples.new_supervisor [])).
Proof.
  apply (Kill_latches_once "admin" "drain" "deploy" "replaced" true false
           (Examples.new_supervisor []) Examples.task1); reflexivity.
Defined.

End ClientLaws.
